(** * Semantic compilation of Cypher clauses

    A shallow embedding of [src/backend/parser/cypher_clause.c]: the clause
    chain driver, the MATCH pattern compiler and its join-qualifier
    synthesis, the CREATE plan builder, the SET / REMOVE / DELETE plan
    builders and the SKIP / LIMIT compiler.

    Conventions.
    - A [char *] is an [option string] ([None] is the null pointer); C [int]s
      are [Z]; an [AttrNumber] is a 16 bit signed integer, and the narrowing
      made by [makeTargetEntry] is written out ([to_AttrNumber]). The two
      [int] counters of a parse state, [p_next_resno] and
      [default_alias_num], count the columns and the default aliases of
      one statement; they are taken to stay below [INT_MAX], where C
      arithmetic and [Z] agree.
    - [ereport(ERROR, ...)] is the outcome [ERROR e]; dereferencing a null
      pointer, [strcmp] on a null pointer, or reading a parse node through
      a cast to the wrong struct is the outcome [Undefined].
    - The parse state is threaded explicitly, next to the label catalog. *)

From Stdlib Require Import List String ZArith Bool Lia DecimalString.
Import ListNotations.
Local Open Scope string_scope.
Local Open Scope Z_scope.
Set Warnings "-register-all".

(** ** Outcomes *)

Inductive sqlerrcode_t : Type :=
| ERRCODE_FEATURE_NOT_SUPPORTED
| ERRCODE_INVALID_COLUMN_REFERENCE
| ERRCODE_INVALID_PARAMETER_VALUE
| ERRCODE_AMBIGUOUS_COLUMN
| ERRCODE_INTERNAL_ERROR
| ERRCODE_OTHER (code : string).

(** The fields of an [ErrorData] that this file fills in: [errcode],
    [errmsg] (with its arguments substituted), the location handed to
    [parser_errposition], and [errhint]. *)
Record ErrorData : Type := mkErrorData {
  sqlerrcode : sqlerrcode_t;
  message : string;
  cursorpos : option Z;
  hint : option string
}.

Inductive Result (A : Type) : Type :=
| OK (a : A)
| ERROR (e : ErrorData)
| Undefined.
Arguments OK {A} a.
Arguments ERROR {A} e.
Arguments Undefined {A}.

Definition bindR {A B : Type} (r : Result A) (k : A -> Result B) : Result B :=
  match r with
  | OK a => k a
  | ERROR e => ERROR e
  | Undefined => Undefined
  end.

Notation "x <- c1 ;; c2" := (bindR c1 (fun x => c2))
  (at level 61, c1 at next level, right associativity).
Notation "' pat <- c1 ;; c2" := (bindR c1 (fun x => match x with pat => c2 end))
  (at level 61, pat pattern, c1 at next level, right associativity).

Definition is_OK {A : Type} (r : Result A) : bool :=
  match r with OK _ => true | _ => false end.

Definition ereport {A : Type} (code : sqlerrcode_t) (msg : string)
  (pos : option Z) (hnt : option string) : Result A :=
  ERROR (mkErrorData code msg pos hnt).

(** ** Scalars *)

Definition Oid := Z.

(** [(AttrNumber) x]: conversion of an [int] to [int16]. *)
Definition to_AttrNumber (x : Z) : Z := (x + 32768) mod 65536 - 32768.

Definition list_length {A : Type} (l : list A) : Z := Z.of_nat (List.length l).

(** [strcmp(a, b) == 0] on two non-null strings. *)
Definition streq (a b : string) : bool := String.eqb a b.

(** ** Plan nodes handed to the executor *)

Inductive cypher_rel_dir : Type :=
| CYPHER_REL_DIR_LEFT
| CYPHER_REL_DIR_NONE
| CYPHER_REL_DIR_RIGHT.

Inductive label_kind : Type := LABEL_KIND_VERTEX | LABEL_KIND_EDGE.

(** The expression returned by PostgreSQL's [build_column_default], kept
    symbolic: the default of column [attrno] of relation [relid]. *)
Inductive column_default : Type :=
| build_column_default (relid : Oid) (attrno : Z).

(** [make_ag_node] zero-fills: a field the code does not assign is [0],
    [None] or [CYPHER_REL_DIR_NONE]. *)
Record cypher_target_node : Type := mk_cypher_target_node {
  tn_type : label_kind;
  tn_flags : Z;
  tn_dir : cypher_rel_dir;
  tn_id_expr : option column_default;
  tn_prop_attr_num : Z;
  tn_relid : Oid;
  tn_label_name : option string;
  tn_variable_name : option string;
  tn_tuple_position : Z
}.

Record cypher_create_path : Type := mk_cypher_create_path {
  target_nodes : list cypher_target_node;
  path_attr_num : Z
}.

Record cypher_create_target_nodes : Type := mk_cypher_create_target_nodes {
  ctn_paths : list cypher_create_path;
  ctn_flags : Z;
  ctn_graph_oid : Oid
}.

Record cypher_delete_item : Type := mk_cypher_delete_item {
  di_entity_position : Z;
  di_var_name : option string
}.

Record cypher_delete_information : Type := mk_cypher_delete_information {
  delete_items : list cypher_delete_item;
  di_flags : Z;
  di_graph_name : string;
  di_graph_oid : Oid;
  di_detach : bool
}.

Record cypher_update_item : Type := mk_cypher_update_item {
  ui_var_name : option string;
  ui_prop_name : option string;
  ui_entity_position : Z;
  ui_prop_position : Z;
  ui_remove_item : bool
}.

Record cypher_update_information : Type := mk_cypher_update_information {
  set_items : list cypher_update_item;
  ui_flags : Z;
  ui_graph_name : option string;
  ui_clause_name : option string
}.

(** What [outNode] serialises into the [INTERNALOID] constant. *)
Inductive serialized_node : Type :=
| out_create (d : cypher_create_target_nodes)
| out_delete (d : cypher_delete_information)
| out_update (d : cypher_update_information).

(** ** Parse and expression nodes *)

Inductive A_Expr_Kind : Type := AEXPR_OP | AEXPR_IN.
Inductive BoolExprType : Type := AND_EXPR | OR_EXPR | NOT_EXPR.
Inductive pg_type : Type :=
| AGTYPEOID | BOOLOID | CSTRINGOID | INT8OID | OTHEROID (o : Oid).

Inductive Node : Type :=
| NULLPTR
| Var (varno : Z) (varattno : Z) (varlevelsup : Z)
| Const_null (consttype : pg_type)
| Const_oid (value : Oid)
| Const_internal (data : serialized_node)
| T_String (str : option string)
| T_Integer (ival : Z)
| A_Star
| A_Const_Integer (ival : Z)
| ColumnRef (fields : list Node) (location : Z)
| A_Indirection (arg : Node) (indirection : list Node)
| FuncCall (funcname : list string) (args : list Node)
| FuncExpr (funcname : string) (funcresulttype : pg_type) (args : list Node)
| A_Expr (kind : A_Expr_Kind) (name : string) (lexpr : Node) (rexpr : Node)
| BoolExpr (boolop : BoolExprType) (args : list Node)
| T_List (elems : list Node)
| SubLink (testexpr : Node) (subselect : list Node)
| ColumnDefault (d : column_default)
| cypher_param (name : string) (location : Z)
| cypher_map (keyvals : list Node)
| RangeTblRef (rtindex : Z)
| OtherExpr (tag : string) (children : list Node).

(** A nullable pointer stored in a list cell or an argument slot. *)
Definition node_of_ptr (p : option Node) : Node :=
  match p with Some n => n | None => NULLPTR end.

Definition is_Var (n : Node) : bool :=
  match n with Var _ _ _ => true | _ => false end.

(** [makeFuncCall(list_make2(makeString(schema), makeString(fn)), args, -1)] *)
Definition makeFuncCall (qualified_name : list string) (args : list Node) : Node :=
  FuncCall qualified_name args.

Definition makeSimpleA_Expr (kind : A_Expr_Kind) (name : string)
  (lexpr rexpr : Node) : Node :=
  A_Expr kind name lexpr rexpr.

Definition makeBoolExpr (boolop : BoolExprType) (args : list Node) : Node :=
  BoolExpr boolop args.

(** ** Cypher pattern syntax *)

Record cypher_node : Type := mk_cypher_node {
  node_name : option string;
  node_label : option string;
  node_props : option Node;
  node_location : Z
}.

Record cypher_relationship : Type := mk_cypher_relationship {
  rel_name : option string;
  rel_label : option string;
  rel_props : option Node;
  rel_varlen : option Node;
  rel_dir : cypher_rel_dir;
  rel_location : Z
}.

(** An element of [cypher_path.path]: the parser only puts [cypher_node]
    and [cypher_relationship] nodes there. *)
Inductive path_element : Type :=
| elem_node (n : cypher_node)
| elem_rel (r : cypher_relationship).

Record cypher_path : Type := mk_cypher_path {
  path : list path_element;
  var_name : option string;
  path_location : Z
}.

Record cypher_set_item : Type := mk_cypher_set_item {
  si_prop : Node;
  si_expr : Node;
  si_is_add : bool;
  si_location : Z
}.

(** ** The entity registry *)

Inductive transform_entity_type : Type := ENT_VERTEX | ENT_EDGE.

Inductive transform_entity_join_side : Type := JOIN_SIDE_LEFT | JOIN_SIDE_RIGHT.

Record transform_entity : Type := mk_transform_entity {
  ent_type : transform_entity_type;
  in_join_tree : bool;
  ent_expr : option Node;
  declared_in_current_clause : bool;
  (* union { cypher_node *node; cypher_relationship *rel; } entity *)
  entity : path_element
}.

(** ** Queries and the parse state *)

Record TargetEntry : Type := mk_TargetEntry {
  te_expr : Node;
  resno : Z;
  resname : option string;
  resjunk : bool
}.

(** [makeTargetEntry(expr, resno, resname, resjunk)]: the [resno] parameter
    has type [AttrNumber]. *)
Definition makeTargetEntry (expr : Node) (rn : Z) (name : option string)
  (junk : bool) : TargetEntry :=
  mk_TargetEntry expr (to_AttrNumber rn) name junk.

Inductive RTEKind : Type := RTE_RELATION | RTE_SUBQUERY.

Record RangeVar : Type := makeRangeVar {
  schemaname : string;
  relname : string
}.

Record FromExpr : Type := makeFromExpr {
  fromlist : list Node;
  quals : option Node
}.

Inductive QuerySource : Type := QSRC_ORIGINAL | QSRC_PARSER.

Inductive Query : Type := mk_Query {
  querySource : QuerySource;
  canSetTag : bool;
  targetList : list TargetEntry;
  rtable : list RangeTblEntry;
  jointree : option FromExpr;
  sortClause : list Node;
  groupClause : list Node;
  groupingSets : list Node;
  distinctClause : list Node;
  limitOffset : option Node;
  limitCount : option Node;
  hasAggs : bool;
  hasSubLinks : bool;
  hasTargetSRFs : bool
}
with RangeTblEntry : Type := mk_RangeTblEntry {
  rtekind : RTEKind;
  rte_relation : option RangeVar;
  rte_relid : Oid;
  subquery : option Query;
  rte_alias : option string;
  eref_colnames : list string;
  rte_lateral : bool;
  inFromCl : bool
}.

(** [makeNode(Query)] with [commandType = CMD_SELECT]. *)
Definition makeNode_Query : Query :=
  mk_Query QSRC_ORIGINAL false [] [] None [] [] [] [] None None false false false.

Record ParseNamespaceItem : Type := makeNamespaceItem {
  p_rte : Z;   (* the entry, as its 1-based position in the owner's p_rtable *)
  p_rel_visible : bool;
  p_cols_visible : bool;
  p_lateral_only : bool;
  p_lateral_ok : bool
}.

Inductive ParseExprKind : Type :=
| EXPR_KIND_NONE
| EXPR_KIND_FROM_SUBSELECT
| EXPR_KIND_WHERE
| EXPR_KIND_SELECT_TARGET
| EXPR_KIND_INSERT_TARGET
| EXPR_KIND_ORDER_BY
| EXPR_KIND_GROUP_BY
| EXPR_KIND_LIMIT
| EXPR_KIND_OFFSET
| EXPR_KIND_OTHER.

(** [cypher_parsestate], with the fields of the embedded [ParseState]
    that this file reads or writes. *)
Inductive cypher_parsestate : Type := mk_cypher_parsestate {
  parentParseState : option cypher_parsestate;
  p_rtable : list RangeTblEntry;
  p_joinlist : list Node;
  p_namespace : list ParseNamespaceItem;
  p_lateral_active : bool;
  p_next_resno : Z;
  p_expr_kind : ParseExprKind;
  p_hasAggs : bool;
  p_hasSubLinks : bool;
  p_hasTargetSRFs : bool;
  graph_name : string;
  graph_oid : Oid;
  entities : list transform_entity;
  property_constraint_quals : list Node;
  default_alias_num : Z
}.

Definition set_p_rtable (v : list RangeTblEntry) (s : cypher_parsestate) :=
  mk_cypher_parsestate (parentParseState s) v (p_joinlist s) (p_namespace s)
    (p_lateral_active s) (p_next_resno s) (p_expr_kind s) (p_hasAggs s)
    (p_hasSubLinks s) (p_hasTargetSRFs s) (graph_name s) (graph_oid s)
    (entities s) (property_constraint_quals s) (default_alias_num s).

Definition set_p_joinlist (v : list Node) (s : cypher_parsestate) :=
  mk_cypher_parsestate (parentParseState s) (p_rtable s) v (p_namespace s)
    (p_lateral_active s) (p_next_resno s) (p_expr_kind s) (p_hasAggs s)
    (p_hasSubLinks s) (p_hasTargetSRFs s) (graph_name s) (graph_oid s)
    (entities s) (property_constraint_quals s) (default_alias_num s).

Definition set_p_namespace (v : list ParseNamespaceItem) (s : cypher_parsestate) :=
  mk_cypher_parsestate (parentParseState s) (p_rtable s) (p_joinlist s) v
    (p_lateral_active s) (p_next_resno s) (p_expr_kind s) (p_hasAggs s)
    (p_hasSubLinks s) (p_hasTargetSRFs s) (graph_name s) (graph_oid s)
    (entities s) (property_constraint_quals s) (default_alias_num s).

Definition set_p_lateral_active (v : bool) (s : cypher_parsestate) :=
  mk_cypher_parsestate (parentParseState s) (p_rtable s) (p_joinlist s)
    (p_namespace s) v (p_next_resno s) (p_expr_kind s) (p_hasAggs s)
    (p_hasSubLinks s) (p_hasTargetSRFs s) (graph_name s) (graph_oid s)
    (entities s) (property_constraint_quals s) (default_alias_num s).

Definition set_p_next_resno (v : Z) (s : cypher_parsestate) :=
  mk_cypher_parsestate (parentParseState s) (p_rtable s) (p_joinlist s)
    (p_namespace s) (p_lateral_active s) v (p_expr_kind s) (p_hasAggs s)
    (p_hasSubLinks s) (p_hasTargetSRFs s) (graph_name s) (graph_oid s)
    (entities s) (property_constraint_quals s) (default_alias_num s).

Definition set_p_expr_kind (v : ParseExprKind) (s : cypher_parsestate) :=
  mk_cypher_parsestate (parentParseState s) (p_rtable s) (p_joinlist s)
    (p_namespace s) (p_lateral_active s) (p_next_resno s) v (p_hasAggs s)
    (p_hasSubLinks s) (p_hasTargetSRFs s) (graph_name s) (graph_oid s)
    (entities s) (property_constraint_quals s) (default_alias_num s).

Definition set_entities (v : list transform_entity) (s : cypher_parsestate) :=
  mk_cypher_parsestate (parentParseState s) (p_rtable s) (p_joinlist s)
    (p_namespace s) (p_lateral_active s) (p_next_resno s) (p_expr_kind s)
    (p_hasAggs s) (p_hasSubLinks s) (p_hasTargetSRFs s) (graph_name s)
    (graph_oid s) v (property_constraint_quals s) (default_alias_num s).

Definition set_property_constraint_quals (v : list Node) (s : cypher_parsestate) :=
  mk_cypher_parsestate (parentParseState s) (p_rtable s) (p_joinlist s)
    (p_namespace s) (p_lateral_active s) (p_next_resno s) (p_expr_kind s)
    (p_hasAggs s) (p_hasSubLinks s) (p_hasTargetSRFs s) (graph_name s)
    (graph_oid s) (entities s) v (default_alias_num s).

Definition set_default_alias_num (v : Z) (s : cypher_parsestate) :=
  mk_cypher_parsestate (parentParseState s) (p_rtable s) (p_joinlist s)
    (p_namespace s) (p_lateral_active s) (p_next_resno s) (p_expr_kind s)
    (p_hasAggs s) (p_hasSubLinks s) (p_hasTargetSRFs s) (graph_name s)
    (graph_oid s) (entities s) (property_constraint_quals s) v.

(** Setters of the fields of a [Query] this file assigns. *)
Definition set_targetList (v : list TargetEntry) (q : Query) :=
  mk_Query (querySource q) (canSetTag q) v (rtable q) (jointree q)
    (sortClause q) (groupClause q) (groupingSets q) (distinctClause q)
    (limitOffset q) (limitCount q) (hasAggs q) (hasSubLinks q) (hasTargetSRFs q).

Definition set_rtable_jointree (rt : list RangeTblEntry) (jt : FromExpr) (q : Query) :=
  mk_Query (querySource q) (canSetTag q) (targetList q) rt (Some jt)
    (sortClause q) (groupClause q) (groupingSets q) (distinctClause q)
    (limitOffset q) (limitCount q) (hasAggs q) (hasSubLinks q) (hasTargetSRFs q).

Definition set_has_flags (aggs sublinks srfs : bool) (q : Query) :=
  mk_Query (querySource q) (canSetTag q) (targetList q) (rtable q) (jointree q)
    (sortClause q) (groupClause q) (groupingSets q) (distinctClause q)
    (limitOffset q) (limitCount q) aggs sublinks srfs.

Definition set_source_tag (src : QuerySource) (tag : bool) (q : Query) :=
  mk_Query src tag (targetList q) (rtable q) (jointree q)
    (sortClause q) (groupClause q) (groupingSets q) (distinctClause q)
    (limitOffset q) (limitCount q) (hasAggs q) (hasSubLinks q) (hasTargetSRFs q).

Definition set_sort_group_distinct (srt grp gsets dst : list Node) (q : Query) :=
  mk_Query (querySource q) (canSetTag q) (targetList q) (rtable q) (jointree q)
    srt grp gsets dst
    (limitOffset q) (limitCount q) (hasAggs q) (hasSubLinks q) (hasTargetSRFs q).

Definition set_limits (off cnt : option Node) (q : Query) :=
  mk_Query (querySource q) (canSetTag q) (targetList q) (rtable q) (jointree q)
    (sortClause q) (groupClause q) (groupingSets q) (distinctClause q)
    off cnt (hasAggs q) (hasSubLinks q) (hasTargetSRFs q).

(** ** Clauses *)

Record cypher_return : Type := mk_cypher_return {
  ret_distinct : bool;
  ret_items : list Node;
  ret_order_by : list Node;
  ret_skip : option Node;
  ret_limit : option Node
}.

Record cypher_with : Type := mk_cypher_with {
  with_distinct : bool;
  with_items : list Node;
  with_order_by : list Node;
  with_skip : option Node;
  with_limit : option Node;
  with_where : option Node
}.

Record cypher_match : Type := mk_cypher_match {
  match_pattern : list cypher_path;
  match_where : option Node
}.

Record cypher_create : Type := mk_cypher_create {
  create_pattern : list cypher_path
}.

Record cypher_set : Type := mk_cypher_set {
  set_items_list : list cypher_set_item;
  is_remove : bool;
  set_location : Z
}.

Record cypher_delete : Type := mk_cypher_delete {
  detach : bool;
  delete_exprs : list Node;
  delete_location : Z
}.

Record cypher_sub_pattern : Type := mk_cypher_sub_pattern {
  sub_pattern : list cypher_path
}.

(** [clause->self], by the [is_ag_node] test that accepts it. *)
Inductive clause_self : Type :=
| self_return (r : cypher_return)
| self_with (w : cypher_with)
| self_match (m : cypher_match)
| self_create (c : cypher_create)
| self_set (s : cypher_set)
| self_delete (d : cypher_delete)
| self_sub_pattern (p : cypher_sub_pattern)
| self_other.

(** A [cypher_clause]; of [next] only "is it null" is ever read. *)
Inductive cypher_clause : Type := mk_cypher_clause {
  self : clause_self;
  next_is_null : bool;
  prev : option cypher_clause
}.

(** ** Header constants

    The macros and enum values this file takes from AGE headers that are
    not part of the sources at hand ([catalog/ag_label.h],
    [nodes/cypher_nodes.h], [parser/cypher_parse_node.h], ...). *)

Class AgeHeaders : Type := {
  AGE_DEFAULT_VARNAME_PREFIX : string;
  AGE_DEFAULT_ALIAS_PREFIX : string;
  AG_DEFAULT_LABEL_VERTEX : string;
  AG_DEFAULT_LABEL_EDGE : string;
  AG_VERTEX_COLNAME_ID : string;
  AG_VERTEX_COLNAME_PROPERTIES : string;
  AG_EDGE_COLNAME_ID : string;
  AG_EDGE_COLNAME_START_ID : string;
  AG_EDGE_COLNAME_END_ID : string;
  AG_EDGE_COLNAME_PROPERTIES : string;
  AG_VERTEX_ACCESS_FUNCTION_ID : string;
  AG_VERTEX_ACCESS_FUNCTION_PROPERTIES : string;
  AG_EDGE_ACCESS_FUNCTION_ID : string;
  AG_EDGE_ACCESS_FUNCTION_START_ID : string;
  AG_EDGE_ACCESS_FUNCTION_END_ID : string;
  Anum_ag_label_vertex_table_id : Z;
  Anum_ag_label_vertex_table_properties : Z;
  Anum_ag_label_edge_table_id : Z;
  Anum_ag_label_edge_table_properties : Z;
  UPDATE_CLAUSE_SET : string;
  UPDATE_CLAUSE_REMOVE : string;
  DELETE_CLAUSE_FUNCTION_NAME : string;
  CREATE_CLAUSE_FUNCTION_NAME : string;
  CYPHER_CLAUSE_FLAG_NONE : Z;
  CYPHER_CLAUSE_FLAG_TERMINAL : Z;
  CYPHER_CLAUSE_FLAG_PREVIOUS_CLAUSE : Z;
  CYPHER_TARGET_NODE_FLAG_NONE : Z;
  CYPHER_TARGET_NODE_FLAG_INSERT : Z;
  EXISTING_VARAIBLE_DECLARED_SAME_CLAUSE : Z;
  CYPHER_TARGET_NODE_IS_VAR : Z;
  CYPHER_TARGET_NODE_IN_PATH_VAR : Z
}.

(** ** External collaborators

    The label catalog, PostgreSQL's expression machinery and the scalar
    expression compiler of [cypher_expr.c] / [cypher_item.c]. *)

Record label_cache_data : Type := mk_label_cache_data {
  lcd_id : Z;
  lcd_kind : label_kind;
  lcd_relation : Oid
}.

Record Relation : Type := mk_Relation {
  rd_id : Oid;
  rd_attnames : list string
}.

Class Collaborators : Type := {
  Catalog : Type;
  search_label_name_graph_cache :
    Catalog -> string -> Oid -> option label_cache_data;
  label_exists : Catalog -> string -> Oid -> bool;
  create_label :
    Catalog -> string -> string -> label_kind -> list RangeVar -> Result Catalog;
  get_label_range_var : Catalog -> string -> Oid -> string -> RangeVar;
  get_graph_namespace_name : Catalog -> string -> string;
  get_label_relation_name : Catalog -> string -> Oid -> string;
  parserOpenTable : Catalog -> RangeVar -> Result Relation;
  transform_cypher_expr :
    Catalog -> cypher_parsestate -> Node -> ParseExprKind -> Result Node;
  transformExpr :
    Catalog -> cypher_parsestate -> Node -> ParseExprKind -> Result Node;
  coerce_to_boolean : Node -> string -> Result Node;
  coerce_to_specific_type : Node -> pg_type -> string -> Result Node;
  locate_var_of_level : Node -> Z -> Z;
  FigureColname : Node -> option string;
  transform_cypher_item_list :
    Catalog -> cypher_parsestate -> list Node -> ParseExprKind ->
    Result (list TargetEntry * list Node * cypher_parsestate);
  (* ORDER BY, the automatic GROUP BY and DISTINCT of a RETURN: target
     list, sort, group, grouping sets and distinct clauses *)
  transform_sort_group_distinct :
    Catalog -> cypher_parsestate -> cypher_return -> list TargetEntry ->
    list Node ->
    Result (list TargetEntry * list Node * list Node * list Node * list Node
            * cypher_parsestate);
  parse_check_aggregates : cypher_parsestate -> Query -> Result unit
}.

Section Model.

Context {headers : AgeHeaders} {collab : Collaborators}.

(** The compilation state: the label catalog and the current parse state. *)
Definition State : Type := (Catalog * cypher_parsestate)%type.

(** ** PostgreSQL primitives, on the fields modelled above *)

(** [scanRTEForColumn]: the columns of [eref->colnames]; system columns
    are not modelled. A second match is an ambiguity error. *)
Fixpoint scan_colnames (colnames : list string) (colname : string)
  (attnum : Z) (result : option Z) : Result (option Z) :=
  match colnames with
  | [] => OK result
  | c :: rest =>
      let attnum := attnum + 1 in
      if streq c colname then
        match result with
        | Some _ =>
            ereport ERRCODE_AMBIGUOUS_COLUMN
              ("column reference " ++ colname ++ " is ambiguous") None None
        | None => scan_colnames rest colname attnum (Some attnum)
        end
      else scan_colnames rest colname attnum result
  end.

Definition scanRTEForColumn (rtindex sublevels_up : Z) (rte : RangeTblEntry)
  (colname : string) : Result (option Node) :=
  r <- scan_colnames (eref_colnames rte) colname 0 None ;;
  OK (option_map (fun attnum => Var rtindex attnum sublevels_up) r).

(** [rt_fetch(rtindex, rtable)] *)
Definition rt_fetch (rtindex : Z) (rtable : list RangeTblEntry) : option RangeTblEntry :=
  if rtindex <=? 0 then None else nth_error rtable (Z.to_nat (rtindex - 1)).

(** One level of [colNameToVar]: the namespace items of one parse state. *)
Fixpoint scan_namespace (rtable : list RangeTblEntry) (lateral_active : bool)
  (sublevels_up : Z) (colname : string) (ns : list ParseNamespaceItem)
  (result : option Node) : Result (option Node) :=
  match ns with
  | [] => OK result
  | nsitem :: rest =>
      if negb (p_cols_visible nsitem) then
        scan_namespace rtable lateral_active sublevels_up colname rest result
      else if p_lateral_only nsitem && negb lateral_active then
        scan_namespace rtable lateral_active sublevels_up colname rest result
      else
        match rt_fetch (p_rte nsitem) rtable with
        | None => Undefined
        | Some rte =>
            newresult <- scanRTEForColumn (p_rte nsitem) sublevels_up rte colname ;;
            match newresult with
            | None =>
                scan_namespace rtable lateral_active sublevels_up colname rest result
            | Some v =>
                match result with
                | Some _ =>
                    ereport ERRCODE_AMBIGUOUS_COLUMN
                      ("column reference " ++ colname ++ " is ambiguous") None None
                | None =>
                    if p_lateral_only nsitem && negb (p_lateral_ok nsitem) then
                      ereport (ERRCODE_OTHER "invalid_column_reference_lateral")
                        "invalid reference to FROM-clause entry" None None
                    else
                      scan_namespace rtable lateral_active sublevels_up colname
                        rest (Some v)
                end
            end
        end
  end.

(** [colNameToVar(pstate, colname, localonly, location)]: the visible
    column of that name, searched level by level up the parent chain. *)
Fixpoint colNameToVar_up (pstate : cypher_parsestate) (sublevels_up : Z)
  (colname : string) (localonly : bool) : Result (option Node) :=
  result <- scan_namespace (p_rtable pstate) (p_lateral_active pstate)
              sublevels_up colname (p_namespace pstate) None ;;
  match result with
  | Some v => OK (Some v)
  | None =>
      if localonly then OK None
      else
        match parentParseState pstate with
        | None => OK None
        | Some parent => colNameToVar_up parent (sublevels_up + 1) colname localonly
        end
  end.

Definition colNameToVar (pstate : cypher_parsestate) (colname : string)
  (localonly : bool) : Result (option Node) :=
  colNameToVar_up pstate 0 colname localonly.

(** [addRTEtoQuery] for the entry at position [rtindex]. *)
Definition addRTEtoQuery (pstate : cypher_parsestate) (rtindex : Z)
  (addToJoinList addToRelNameSpace addToVarNameSpace : bool) : cypher_parsestate :=
  let pstate :=
    if addToJoinList
    then set_p_joinlist (p_joinlist pstate ++ [RangeTblRef rtindex]) pstate
    else pstate in
  if addToRelNameSpace || addToVarNameSpace
  then set_p_namespace
         (p_namespace pstate ++
          [makeNamespaceItem rtindex addToRelNameSpace addToVarNameSpace false true])
         pstate
  else pstate.

(** [addRangeTableEntry]: opens the relation and appends an entry whose
    column names are the relation's attributes. Returns its position. *)
Definition addRangeTableEntry (st : State) (relation : RangeVar)
  (alias : option string) (inFromCl : bool) : Result (Z * RangeTblEntry * State) :=
  let '(cat, pstate) := st in
  rel <- parserOpenTable cat relation ;;
  let rte := mk_RangeTblEntry RTE_RELATION (Some relation) (rd_id rel) None
               alias (rd_attnames rel) false inFromCl in
  let pstate := set_p_rtable (p_rtable pstate ++ [rte]) pstate in
  OK (list_length (p_rtable pstate), rte, (cat, pstate)).

(** [addRangeTableEntryForRelation] on an already opened relation. *)
Definition addRangeTableEntryForRelation (pstate : cypher_parsestate)
  (relation : RangeVar) (rel : Relation) : Z * cypher_parsestate :=
  let rte := mk_RangeTblEntry RTE_RELATION (Some relation) (rd_id rel) None
               None (rd_attnames rel) false false in
  let pstate := set_p_rtable (p_rtable pstate ++ [rte]) pstate in
  (list_length (p_rtable pstate), pstate).

(** The column names of a subquery entry: the names of the target entries
    that are not junk ([pstrdup] of a null name is undefined). *)
Fixpoint subquery_colnames (tl : list TargetEntry) : Result (list string) :=
  match tl with
  | [] => OK []
  | te :: rest =>
      if resjunk te then subquery_colnames rest
      else
        match resname te with
        | None => Undefined
        | Some n => names <- subquery_colnames rest ;; OK (n :: names)
        end
  end.

Definition addRangeTableEntryForSubquery (pstate : cypher_parsestate)
  (subq : Query) (alias : string) (lateral inFromCl : bool)
  : Result (Z * RangeTblEntry * cypher_parsestate) :=
  names <- subquery_colnames (targetList subq) ;;
  let rte := mk_RangeTblEntry RTE_SUBQUERY None 0 (Some subq) (Some alias)
               names lateral inFromCl in
  let pstate := set_p_rtable (p_rtable pstate ++ [rte]) pstate in
  OK (list_length (p_rtable pstate), rte, pstate).

(** [expandRTE] of a subquery entry: one (name, Var) per target entry that
    is not junk, while the alias column names last. *)
Fixpoint expandRTE_subquery (tl : list TargetEntry) (aliasp : list string)
  (rtindex varattno : Z) : list (string * Node) :=
  match tl with
  | [] => []
  | te :: rest =>
      if resjunk te then expandRTE_subquery rest aliasp rtindex varattno
      else
        let varattno := varattno + 1 in
        match aliasp with
        | [] => []
        | label :: aliasp' =>
            (label, Var rtindex varattno 0)
              :: expandRTE_subquery rest aliasp' rtindex varattno
        end
  end.

Fixpoint expandRTE_relation (colnames : list string) (rtindex varattno : Z)
  : list (string * Node) :=
  match colnames with
  | [] => []
  | label :: rest =>
      (label, Var rtindex (varattno + 1) 0)
        :: expandRTE_relation rest rtindex (varattno + 1)
  end.

Definition expandRTE (rte : RangeTblEntry) (rtindex : Z) : Result (list (string * Node)) :=
  match rtekind rte with
  | RTE_SUBQUERY =>
      match subquery rte with
      | None => Undefined
      | Some q => OK (expandRTE_subquery (targetList q) (eref_colnames rte) rtindex 0)
      end
  | RTE_RELATION => OK (expandRTE_relation (eref_colnames rte) rtindex 0)
  end.

(** The loop of [expandRelAttrs]: one target entry per expanded column,
    numbered with [p_next_resno++]. *)
Fixpoint expandRelAttrs_loop (cols : list (string * Node)) (next_resno : Z)
  : list TargetEntry * Z :=
  match cols with
  | [] => ([], next_resno)
  | (label, varnode) :: rest =>
      let te := makeTargetEntry varnode next_resno (Some label) false in
      let '(tes, n) := expandRelAttrs_loop rest (next_resno + 1) in
      (te :: tes, n)
  end.

Definition expandRelAttrs (pstate : cypher_parsestate) (rte : RangeTblEntry)
  (rtindex : Z) : Result (list TargetEntry * cypher_parsestate) :=
  cols <- expandRTE rte rtindex ;;
  let '(te_list, n) := expandRelAttrs_loop cols (p_next_resno pstate) in
  OK (te_list, set_p_next_resno n pstate).

(** [contain_vars_of_level(node, levelsup)]: is there a [Var] of that
    level? Entering a subquery raises the level by one. *)
Fixpoint contain_vars_of_level (node : Node) (sublevels_up : Z) {struct node} : bool :=
  let any := fix any (l : list Node) (lvl : Z) : bool :=
    match l with
    | [] => false
    | n :: rest => contain_vars_of_level n lvl || any rest lvl
    end in
  match node with
  | Var _ _ varlevelsup => varlevelsup =? sublevels_up
  | ColumnRef fields _ => any fields sublevels_up
  | A_Indirection arg indirection =>
      contain_vars_of_level arg sublevels_up || any indirection sublevels_up
  | FuncCall _ args => any args sublevels_up
  | FuncExpr _ _ args => any args sublevels_up
  | A_Expr _ _ l r =>
      contain_vars_of_level l sublevels_up || contain_vars_of_level r sublevels_up
  | BoolExpr _ args => any args sublevels_up
  | T_List elems => any elems sublevels_up
  | SubLink testexpr subselect =>
      contain_vars_of_level testexpr sublevels_up || any subselect (sublevels_up + 1)
  | cypher_map keyvals => any keyvals sublevels_up
  | OtherExpr _ children => any children sublevels_up
  | _ => false
  end.

(** ** Helpers of [cypher_parse_node.c] *)

(** Modelled from the spec: [make_cypher_parsestate] is defined in
    [cypher_parse_node.c], which is not among the sources. A nested clause
    gets a child scope with its own, empty relation-construction state
    (numbering of output columns restarts at 1) that inherits the graph. *)
Definition make_cypher_parsestate (parent : cypher_parsestate) : cypher_parsestate :=
  mk_cypher_parsestate (Some parent) [] [] [] false 1 EXPR_KIND_NONE
    false false false (graph_name parent) (graph_oid parent) [] [] 0.

(** Modelled from the spec: [find_rte] is defined in [cypher_parse_node.c],
    which is not among the sources. It looks a relation of the current
    scope up by its alias name, and returns its position. *)
Fixpoint find_rte_from (rtable : list RangeTblEntry) (rtindex : Z)
  (varname : option string) : Result (option (Z * RangeTblEntry)) :=
  match rtable with
  | [] => OK None
  | rte :: rest =>
      match rte_alias rte with
      | None => find_rte_from rest (rtindex + 1) varname
      | Some aliasname =>
          match varname with
          | None => Undefined
          | Some v =>
              if streq aliasname v then OK (Some (rtindex, rte))
              else find_rte_from rest (rtindex + 1) varname
          end
      end
  end.

Definition find_rte (cpstate : cypher_parsestate) (varname : option string) :=
  find_rte_from (p_rtable cpstate) 1 varname.

(** ** Header macros *)

(** Modelled from the spec: [IS_DEFAULT_LABEL_VERTEX] and
    [IS_DEFAULT_LABEL_EDGE] are macros of [catalog/ag_label.h], which is not
    among the sources: a label is the default one when it is present and
    is the default label's name. *)
Definition IS_DEFAULT_LABEL_VERTEX (label : option string) : bool :=
  match label with
  | None => false
  | Some l => streq AG_DEFAULT_LABEL_VERTEX l
  end.

Definition IS_DEFAULT_LABEL_EDGE (label : option string) : bool :=
  match label with
  | None => false
  | Some l => streq AG_DEFAULT_LABEL_EDGE l
  end.

(** [INCLUDE_NODE_IN_JOIN_TREE(path, node)] *)
Definition INCLUDE_NODE_IN_JOIN_TREE (p : cypher_path) (node : cypher_node) : bool :=
  match var_name p, node_name node, node_props node with
  | None, None, None => false
  | _, _, _ => true
  end.

(** Reading [name], [label] and [props] through either member of the
    union [entity]: [cypher_node] and [cypher_relationship] both start with
    the fields [extensible], [name], [label], [props], so the read gives
    the field of whichever parse node is stored. *)
Definition union_name (e : path_element) : option string :=
  match e with elem_node n => node_name n | elem_rel r => rel_name r end.

Definition union_label (e : path_element) : option string :=
  match e with elem_node n => node_label n | elem_rel r => rel_label r end.

(** [entity.rel->dir]: only a relationship has the field. *)
Definition union_dir (e : path_element) : Result cypher_rel_dir :=
  match e with elem_node _ => Undefined | elem_rel r => OK (rel_dir r) end.

(** ** Entities *)

Definition make_transform_entity (type : transform_entity_type)
  (node : path_element) (expr : option Node) : transform_entity :=
  mk_transform_entity type
    (match expr with Some _ => true | None => false end)
    expr true node.

Fixpoint find_variable_loop (ents : list transform_entity) (name : string)
  : option transform_entity :=
  match ents with
  | [] => None
  | ent :: rest =>
      match union_name (entity ent) with
      | Some entity_name =>
          if streq name entity_name then Some ent
          else find_variable_loop rest name
      | None => find_variable_loop rest name
      end
  end.

Definition find_variable (cpstate : cypher_parsestate) (name : string)
  : option transform_entity :=
  find_variable_loop (entities cpstate) name.

Fixpoint findTarget_loop (tl : list TargetEntry) (name : string)
  : Result (option TargetEntry) :=
  match tl with
  | [] => OK None
  | te :: rest =>
      if resjunk te then findTarget_loop rest name
      else
        match resname te with
        | None => Undefined
        | Some n => if streq n name then OK (Some te) else findTarget_loop rest name
        end
  end.

Definition findTarget (targetList : list TargetEntry) (name : option string)
  : Result (option TargetEntry) :=
  match name with
  | None => OK None
  | Some n => findTarget_loop targetList n
  end.

(** [sprintf(alias_num, "%d", ...)] *)
Definition string_of_int (z : Z) : string := NilZero.string_of_int (Z.to_int z).

Definition get_next_default_alias (cpstate : cypher_parsestate)
  : string * cypher_parsestate :=
  let alias_num := string_of_int (default_alias_num cpstate) in
  (AGE_DEFAULT_ALIAS_PREFIX ++ alias_num,
   set_default_alias_num (default_alias_num cpstate + 1) cpstate).

(** ** Join qualifiers of a MATCH path *)

Definition get_accessor_function_name (type : transform_entity_type)
  (name : string) : Result string :=
  let no_accessor :=
    ereport ERRCODE_INVALID_COLUMN_REFERENCE
      ("column " ++ name ++ " does not have an accessor function") None None in
  match type with
  | ENT_VERTEX =>
      if streq AG_VERTEX_COLNAME_ID name then OK AG_VERTEX_ACCESS_FUNCTION_ID
      else if streq AG_VERTEX_COLNAME_PROPERTIES name
      then OK AG_VERTEX_ACCESS_FUNCTION_PROPERTIES
      else no_accessor
  | ENT_EDGE =>
      if streq AG_EDGE_COLNAME_ID name then OK AG_EDGE_ACCESS_FUNCTION_ID
      else if streq AG_EDGE_COLNAME_START_ID name
      then OK AG_EDGE_ACCESS_FUNCTION_START_ID
      else if streq AG_EDGE_COLNAME_END_ID name
      then OK AG_EDGE_ACCESS_FUNCTION_END_ID
      else if streq AG_VERTEX_COLNAME_PROPERTIES name
      then OK AG_VERTEX_ACCESS_FUNCTION_PROPERTIES
      else no_accessor
  end.

Definition make_qual (ent : transform_entity) (col_name : string) : Result Node :=
  match ent_expr ent with
  | None => Undefined
  | Some expr =>
      if is_Var expr then
        function_name <- get_accessor_function_name (ent_type ent) col_name ;;
        OK (makeFuncCall ["ag_catalog"; function_name] [expr])
      else
        let entity_name := union_name (entity ent) in
        let cr := ColumnRef [T_String entity_name; T_String (Some col_name)] 0 in
        OK (makeFuncCall ["ag_catalog"; "graphid_to_agtype"] [cr])
  end.

Definition filter_vertices_on_label_id (st : State) (id_field : Node)
  (label : string) : Result Node :=
  let '(cat, cpstate) := st in
  match search_label_name_graph_cache cat label (graph_oid cpstate) with
  | None => Undefined
  | Some lcd =>
      let n := A_Const_Integer (lcd_id lcd) in
      let conversion_fc :=
        makeFuncCall ["ag_catalog"; "agtype_to_graphid"] [id_field] in
      let fc := makeFuncCall ["ag_catalog"; "_extract_label_id"] [conversion_fc] in
      OK (makeSimpleA_Expr AEXPR_OP "=" fc n)
  end.

Definition make_edge_quals (edge : transform_entity)
  (side : transform_entity_join_side) : Result (list Node) :=
  let '(left_dir, right_dir) :=
    match side with
    | JOIN_SIDE_LEFT => (AG_EDGE_COLNAME_START_ID, AG_EDGE_COLNAME_END_ID)
    | JOIN_SIDE_RIGHT => (AG_EDGE_COLNAME_END_ID, AG_EDGE_COLNAME_START_ID)
    end in
  dir <- union_dir (entity edge) ;;
  match dir with
  | CYPHER_REL_DIR_LEFT =>
      q <- make_qual edge left_dir ;; OK [q]
  | CYPHER_REL_DIR_RIGHT =>
      q <- make_qual edge right_dir ;; OK [q]
  | CYPHER_REL_DIR_NONE =>
      q1 <- make_qual edge left_dir ;;
      q2 <- make_qual edge right_dir ;;
      OK [q1; q2]
  end.

Definition join_to_entity (ent : transform_entity) (qual : Node)
  (side : transform_entity_join_side) : Result (list Node) :=
  match ent_type ent with
  | ENT_VERTEX =>
      id_qual <- make_qual ent AG_EDGE_COLNAME_ID ;;
      OK [makeSimpleA_Expr AEXPR_OP "=" qual id_qual]
  | ENT_EDGE =>
      edge_quals <- make_edge_quals ent side ;;
      if list_length edge_quals >? 1
      then OK [makeSimpleA_Expr AEXPR_IN "=" qual (T_List edge_quals)]
      else
        match edge_quals with
        | q :: _ => OK [makeSimpleA_Expr AEXPR_OP "=" qual q]
        | [] => Undefined
        end
  end.

Definition make_directed_edge_join_conditions (st : State)
  (prev_entity next_entity : transform_entity) (prev_qual next_qual : Node)
  (prev_node_filter next_node_filter : option string) : Result (list Node) :=
  quals1 <- (if in_join_tree prev_entity
             then join_to_entity prev_entity prev_qual JOIN_SIDE_LEFT
             else OK []) ;;
  quals2 <- (if in_join_tree next_entity
             then join_to_entity next_entity next_qual JOIN_SIDE_RIGHT
             else OK []) ;;
  quals3 <- match prev_node_filter with
            | Some l =>
                if negb (IS_DEFAULT_LABEL_VERTEX prev_node_filter)
                then q <- filter_vertices_on_label_id st prev_qual l ;; OK [q]
                else OK []
            | None => OK []
            end ;;
  quals4 <- match next_node_filter with
            | Some l =>
                if negb (IS_DEFAULT_LABEL_VERTEX next_node_filter)
                then q <- filter_vertices_on_label_id st next_qual l ;; OK [q]
                else OK []
            | None => OK []
            end ;;
  OK (quals1 ++ quals2 ++ quals3 ++ quals4)%list.

(** [prev_node] is never null where the loop below calls this function;
    [next_node] is null when the entity list ends on an edge. *)
Definition make_join_condition_for_edge (st : State)
  (prev_edge : option transform_entity) (prev_node : transform_entity)
  (ent : transform_entity) (next_node next_edge : option transform_entity)
  : Result (list Node) :=
  match next_node with
  | None => Undefined
  | Some next_node =>
      let prev_label_name_to_filter :=
        if negb (in_join_tree prev_node)
        then union_label (entity prev_node) else None in
      let next_label_name_to_filter :=
        match next_edge with
        | None =>
            if negb (in_join_tree next_node)
            then union_label (entity next_node) else None
        | Some _ => None
        end in
      let prev_entity :=
        match prev_edge with
        | Some pe => if negb (in_join_tree prev_node) then pe else prev_node
        | None => prev_node
        end in
      let next_entity :=
        match next_edge with
        | Some ne => if negb (in_join_tree next_node) then ne else next_node
        | None => next_node
        end in
      dir <- union_dir (entity ent) ;;
      match dir with
      | CYPHER_REL_DIR_RIGHT =>
          prev_qual <- make_qual ent AG_EDGE_COLNAME_START_ID ;;
          next_qual <- make_qual ent AG_EDGE_COLNAME_END_ID ;;
          make_directed_edge_join_conditions st prev_entity next_node
            prev_qual next_qual
            prev_label_name_to_filter next_label_name_to_filter
      | CYPHER_REL_DIR_LEFT =>
          prev_qual <- make_qual ent AG_EDGE_COLNAME_END_ID ;;
          next_qual <- make_qual ent AG_EDGE_COLNAME_START_ID ;;
          make_directed_edge_join_conditions st prev_entity next_node
            prev_qual next_qual
            prev_label_name_to_filter next_label_name_to_filter
      | CYPHER_REL_DIR_NONE =>
          start_id_expr <- make_qual ent AG_EDGE_COLNAME_START_ID ;;
          end_id_expr <- make_qual ent AG_EDGE_COLNAME_END_ID ;;
          first_join_quals <-
            make_directed_edge_join_conditions st prev_entity next_entity
              start_id_expr end_id_expr
              prev_label_name_to_filter next_label_name_to_filter ;;
          second_join_quals <-
            make_directed_edge_join_conditions st prev_entity next_entity
              end_id_expr start_id_expr
              prev_label_name_to_filter next_label_name_to_filter ;;
          let first_qual := makeBoolExpr AND_EXPR first_join_quals in
          let second_qual := makeBoolExpr AND_EXPR second_join_quals in
          let or_qual := makeBoolExpr OR_EXPR [first_qual; second_qual] in
          OK [or_qual]
      end
  end.

(** The [for (;;)] loop of [make_path_join_quals], after its initial
    setup: [rest] is what follows the list cell of [edge]. *)
Fixpoint make_path_join_quals_loop (st : State)
  (prev_edge : option transform_entity) (prev_node edge : transform_entity)
  (rest : list transform_entity) (quals : list Node) : Result (list Node) :=
  match rest with
  | [] =>
      join_quals <- make_join_condition_for_edge st prev_edge prev_node edge
                      None None ;;
      OK (quals ++ join_quals)%list
  | [next_node] =>
      join_quals <- make_join_condition_for_edge st prev_edge prev_node edge
                      (Some next_node) None ;;
      OK (quals ++ join_quals)%list
  | next_node :: next_edge :: rest' =>
      join_quals <- make_join_condition_for_edge st prev_edge prev_node edge
                      (Some next_node) (Some next_edge) ;;
      make_path_join_quals_loop st (Some edge) next_node next_edge rest'
        (quals ++ join_quals)
  end.

Definition make_path_join_quals (st : State) (ents : list transform_entity)
  : Result (list Node) :=
  if list_length ents <? 3 then OK []
  else
    match ents with
    | prev_node :: edge :: rest =>
        make_path_join_quals_loop st None prev_node edge rest []
    | _ => Undefined
    end.

Fixpoint prevent_duplicate_edges_loop (ents : list transform_entity)
  : Result (list Node) :=
  match ents with
  | [] => OK []
  | ent :: rest =>
      match ent_type ent with
      | ENT_VERTEX => prevent_duplicate_edges_loop rest
      | ENT_EDGE =>
          edge <- make_qual ent AG_EDGE_COLNAME_ID ;;
          edges <- prevent_duplicate_edges_loop rest ;;
          OK (edge :: edges)
      end
  end.

Definition prevent_duplicate_edges (ents : list transform_entity) : Result Node :=
  edges <- prevent_duplicate_edges_loop ents ;;
  OK (makeFuncCall ["ag_catalog"; "_ag_enforce_edge_uniqueness"] edges).

(** ** Pattern elements of a MATCH *)

Definition set_node_label (l : option string) (n : cypher_node) : cypher_node :=
  mk_cypher_node (node_name n) l (node_props n) (node_location n).

Definition set_node_name (nm : option string) (n : cypher_node) : cypher_node :=
  mk_cypher_node nm (node_label n) (node_props n) (node_location n).

Definition set_rel_label (l : option string) (r : cypher_relationship) :=
  mk_cypher_relationship (rel_name r) l (rel_props r) (rel_varlen r)
    (rel_dir r) (rel_location r).

Definition set_rel_name (nm : option string) (r : cypher_relationship) :=
  mk_cypher_relationship nm (rel_label r) (rel_props r) (rel_varlen r)
    (rel_dir r) (rel_location r).

Definition is_Some {A : Type} (o : option A) : bool :=
  match o with Some _ => true | None => false end.

Definition is_ENT_VERTEX (t : transform_entity_type) : bool :=
  match t with ENT_VERTEX => true | ENT_EDGE => false end.

Definition is_ENT_EDGE (t : transform_entity_type) : bool :=
  match t with ENT_EDGE => true | ENT_VERTEX => false end.

Definition is_EXPR_KIND_WHERE (k : ParseExprKind) : bool :=
  match k with EXPR_KIND_WHERE => true | _ => false end.

Definition make_vertex_expr (cpstate : cypher_parsestate) (rtindex : Z)
  (rte : RangeTblEntry) (label : option string) : Result Node :=
  id <- scanRTEForColumn rtindex 0 rte AG_VERTEX_COLNAME_ID ;;
  let graph_oid_const := Const_oid (graph_oid cpstate) in
  let label_name_args := [graph_oid_const; node_of_ptr id] in
  let label_name_func_expr := FuncExpr "_label_name" CSTRINGOID label_name_args in
  props <- scanRTEForColumn rtindex 0 rte AG_VERTEX_COLNAME_PROPERTIES ;;
  let args := [node_of_ptr id; label_name_func_expr; node_of_ptr props] in
  OK (FuncExpr "_agtype_build_vertex" AGTYPEOID args).

Definition make_edge_expr (cpstate : cypher_parsestate) (rtindex : Z)
  (rte : RangeTblEntry) (label : option string) : Result Node :=
  id <- scanRTEForColumn rtindex 0 rte AG_EDGE_COLNAME_ID ;;
  start_id <- scanRTEForColumn rtindex 0 rte AG_EDGE_COLNAME_START_ID ;;
  end_id <- scanRTEForColumn rtindex 0 rte AG_EDGE_COLNAME_END_ID ;;
  let graph_oid_const := Const_oid (graph_oid cpstate) in
  let label_name_args := [graph_oid_const; node_of_ptr id] in
  let label_name_func_expr := FuncExpr "_label_name" CSTRINGOID label_name_args in
  props <- scanRTEForColumn rtindex 0 rte AG_EDGE_COLNAME_PROPERTIES ;;
  let args := [node_of_ptr id; node_of_ptr start_id; node_of_ptr end_id;
               label_name_func_expr; node_of_ptr props] in
  OK (FuncExpr "_agtype_build_edge" AGTYPEOID args).

(** The tail of [transform_cypher_node]: a relation for a vertex that is
    not bound yet, and its output column. *)
Definition transform_cypher_node_new (st : State) (node : cypher_node)
  (target_list : list TargetEntry)
  : Result (option Node * cypher_node * list TargetEntry * State) :=
  let '(cat, cpstate) := st in
  let '(name, cpstate) :=
    match node_name node with
    | None => get_next_default_alias cpstate
    | Some n => (n, cpstate)
    end in
  let node := set_node_name (Some name) node in
  match node_label node with
  | None => Undefined
  | Some label =>
      let schema_name := get_graph_namespace_name cat (graph_name cpstate) in
      let rel_name := get_label_relation_name cat label (graph_oid cpstate) in
      let label_range_var := makeRangeVar schema_name rel_name in
      '(rtindex, rte, st) <-
         addRangeTableEntry (cat, cpstate) label_range_var (Some name) true ;;
      let '(cat, cpstate) := st in
      let cpstate := addRTEtoQuery cpstate rtindex true true true in
      let rn := p_next_resno cpstate in
      let cpstate := set_p_next_resno (rn + 1) cpstate in
      expr <- make_vertex_expr cpstate rtindex rte (node_label node) ;;
      let te := makeTargetEntry expr rn (Some name) false in
      OK (Some expr, node, (target_list ++ [te])%list, (cat, cpstate))
  end.

Definition transform_cypher_node (st : State) (node : cypher_node)
  (target_list : list TargetEntry) (output_node : bool)
  : Result (option Node * cypher_node * list TargetEntry * State) :=
  let '(cat, cpstate) := st in
  node <-
    match node_label node with
    | None => OK (set_node_label (Some AG_DEFAULT_LABEL_VERTEX) node)
    | Some label =>
        match search_label_name_graph_cache cat label (graph_oid cpstate) with
        | None =>
            ereport ERRCODE_FEATURE_NOT_SUPPORTED
              ("label " ++ label ++ " does not exists")
              (Some (node_location node)) None
        | Some lcd =>
            match lcd_kind lcd with
            | LABEL_KIND_VERTEX => OK node
            | LABEL_KIND_EDGE =>
                ereport ERRCODE_FEATURE_NOT_SUPPORTED
                  ("label " ++ label ++ " is for edges, not vertices")
                  (Some (node_location node)) None
            end
        end
    end ;;
  if negb output_node then OK (None, node, target_list, st)
  else
    match node_name node with
    | Some name =>
        te <- findTarget target_list (Some name) ;;
        expr <- colNameToVar cpstate name false ;;
        match expr with
        | Some e => OK (Some e, node, target_list, st)
        | None =>
            match te with
            | Some te =>
                let ent := find_variable cpstate name in
                let conflict :=
                  match ent with
                  | Some ent =>
                      negb (is_ENT_VERTEX (ent_type ent))
                      || negb (IS_DEFAULT_LABEL_VERTEX (node_label node))
                      || is_Some (node_props node)
                  | None => false
                  end in
                if conflict then
                  ereport ERRCODE_FEATURE_NOT_SUPPORTED
                    ("variable " ++ name ++ " already exists")
                    (Some (node_location node)) None
                else OK (Some (te_expr te), node, target_list, st)
            | None =>
                if is_EXPR_KIND_WHERE (p_expr_kind cpstate) then
                  ereport ERRCODE_FEATURE_NOT_SUPPORTED
                    ("variable `" ++ name ++ "` does not exist")
                    (Some (node_location node)) None
                else transform_cypher_node_new st node target_list
            end
        end
    | None => transform_cypher_node_new st node target_list
    end.

Definition transform_cypher_edge_new (st : State) (rel : cypher_relationship)
  (target_list : list TargetEntry)
  : Result (Node * cypher_relationship * list TargetEntry * State) :=
  let '(cat, cpstate) := st in
  let '(name, cpstate) :=
    match rel_name rel with
    | None => get_next_default_alias cpstate
    | Some n => (n, cpstate)
    end in
  let rel := set_rel_name (Some name) rel in
  match rel_label rel with
  | None => Undefined
  | Some label =>
      let schema_name := get_graph_namespace_name cat (graph_name cpstate) in
      let rel_name := get_label_relation_name cat label (graph_oid cpstate) in
      let label_range_var := makeRangeVar schema_name rel_name in
      '(rtindex, rte, st) <-
         addRangeTableEntry (cat, cpstate) label_range_var (Some name) true ;;
      let '(cat, cpstate) := st in
      let cpstate := addRTEtoQuery cpstate rtindex true true false in
      let rn := p_next_resno cpstate in
      let cpstate := set_p_next_resno (rn + 1) cpstate in
      expr <- make_edge_expr cpstate rtindex rte (rel_label rel) ;;
      let te := makeTargetEntry expr rn (Some name) false in
      OK (expr, rel, (target_list ++ [te])%list, (cat, cpstate))
  end.

Definition transform_cypher_edge (st : State) (rel : cypher_relationship)
  (target_list : list TargetEntry)
  : Result (Node * cypher_relationship * list TargetEntry * State) :=
  let '(cat, cpstate) := st in
  match rel_varlen rel with
  | Some _ =>
      ereport ERRCODE_FEATURE_NOT_SUPPORTED
        "variable length relationships are not supported"
        (Some (rel_location rel)) None
  | None =>
      rel <-
        match rel_label rel with
        | None => OK (set_rel_label (Some AG_DEFAULT_LABEL_EDGE) rel)
        | Some label =>
            match search_label_name_graph_cache cat label (graph_oid cpstate) with
            | None =>
                ereport ERRCODE_FEATURE_NOT_SUPPORTED
                  ("label " ++ label ++ " does not exists")
                  (Some (rel_location rel)) None
            | Some lcd =>
                match lcd_kind lcd with
                | LABEL_KIND_EDGE => OK rel
                | LABEL_KIND_VERTEX =>
                    ereport ERRCODE_FEATURE_NOT_SUPPORTED
                      ("label " ++ label ++ " is for vertices, not edges")
                      (Some (rel_location rel)) None
                end
            end
        end ;;
      match rel_name rel with
      | Some name =>
          te <- findTarget target_list (Some name) ;;
          expr <- colNameToVar cpstate name false ;;
          match expr with
          | Some e => OK (e, rel, target_list, st)
          | None =>
              match te with
              | Some te =>
                  let ent := find_variable cpstate name in
                  let conflict :=
                    match ent with
                    | Some ent =>
                        negb (is_ENT_EDGE (ent_type ent))
                        || negb (IS_DEFAULT_LABEL_EDGE (rel_label rel))
                        || is_Some (rel_props rel)
                    | None => false
                    end in
                  if conflict then
                    ereport ERRCODE_FEATURE_NOT_SUPPORTED
                      ("variable " ++ name ++ " already exists")
                      (Some (rel_location rel)) None
                  else OK (te_expr te, rel, target_list, st)
              | None =>
                  if is_EXPR_KIND_WHERE (p_expr_kind cpstate) then
                    ereport ERRCODE_FEATURE_NOT_SUPPORTED
                      ("variable " ++ name ++ " does not exist")
                      (Some (rel_location rel)) None
                  else transform_cypher_edge_new st rel target_list
              end
          end
      | None => transform_cypher_edge_new st rel target_list
      end
  end.

Definition create_property_constraint_function (st : State)
  (ent : transform_entity) (property_constraints : Node) : Result Node :=
  let '(cat, cpstate) := st in
  let entity_name := union_name (entity ent) in
  let cr := ColumnRef [T_String entity_name; T_String (Some "properties")] 0 in
  found <- find_rte cpstate entity_name ;;
  prop_expr <-
    match found with
    | Some (rtindex, rte) =>
        v <- scanRTEForColumn rtindex 0 rte AG_VERTEX_COLNAME_PROPERTIES ;;
        OK (node_of_ptr v)
    | None => transformExpr cat cpstate cr EXPR_KIND_WHERE
    end ;;
  const_expr <- transform_cypher_expr cat cpstate property_constraints EXPR_KIND_WHERE ;;
  OK (FuncExpr "_property_constraint_check" BOOLOID [prop_expr; const_expr]).

(** Registering an entity and, when the element has properties, its
    property constraint: the common end of both branches of the loop of
    [transform_match_entities]. *)
Definition register_match_entity (st : State) (ent : transform_entity)
  (props : option Node) : Result State :=
  let '(cat, cpstate) := st in
  let cpstate := set_entities (entities cpstate ++ [ent]) cpstate in
  match props with
  | Some p =>
      n <- create_property_constraint_function (cat, cpstate) ent p ;;
      OK (cat, set_property_constraint_quals
                 (property_constraint_quals cpstate ++ [n]) cpstate)
  | None => OK (cat, cpstate)
  end.

(** The loop of [transform_match_entities]; [i] is the position of the
    head of [elems] in the path, and decides the cast applied to it. *)
Fixpoint transform_match_entities_loop (st : State)
  (target_list : list TargetEntry) (p : cypher_path)
  (elems : list path_element) (i : Z) (ents : list transform_entity)
  : Result (list transform_entity * list TargetEntry * State) :=
  match elems with
  | [] => OK (ents, target_list, st)
  | elem :: rest =>
      if Z.rem i 2 =? 0 then
        match elem with
        | elem_rel _ => Undefined
        | elem_node node =>
            '(expr, node, target_list, st) <-
               transform_cypher_node st node target_list
                 (INCLUDE_NODE_IN_JOIN_TREE p node) ;;
            let ent := make_transform_entity ENT_VERTEX (elem_node node) expr in
            st <- register_match_entity st ent (node_props node) ;;
            transform_match_entities_loop st target_list p rest (i + 1)
              (ents ++ [ent])
        end
      else
        match elem with
        | elem_node _ => Undefined
        | elem_rel rel =>
            '(expr, rel, target_list, st) <-
               transform_cypher_edge st rel target_list ;;
            let ent := make_transform_entity ENT_EDGE (elem_rel rel) (Some expr) in
            st <- register_match_entity st ent (rel_props rel) ;;
            transform_match_entities_loop st target_list p rest (i + 1)
              (ents ++ [ent])
        end
  end.

Definition transform_match_entities (st : State)
  (target_list : list TargetEntry) (p : cypher_path)
  : Result (list transform_entity * list TargetEntry * State) :=
  transform_match_entities_loop st target_list p (path p) 0 [].

Definition transform_match_create_path_variable (st : State) (p : cypher_path)
  (ents : list transform_entity) : Result (TargetEntry * State) :=
  let '(cat, cpstate) := st in
  if list_length ents <? 3 then
    ereport ERRCODE_FEATURE_NOT_SUPPORTED
      "paths consist of alternating vertices and edges."
      (Some (path_location p))
      (Some "paths require at least 2 vertices and 1 edge")
  else
    let entity_exprs := map (fun ent => node_of_ptr (ent_expr ent)) ents in
    let fexpr := FuncExpr "_agtype_build_path" AGTYPEOID entity_exprs in
    let rn := p_next_resno cpstate in
    let cpstate := set_p_next_resno (rn + 1) cpstate in
    OK (makeTargetEntry fexpr rn (var_name p) false, (cat, cpstate)).

Definition transform_match_path (st : State) (target_list : list TargetEntry)
  (p : cypher_path) : Result (list Node * list TargetEntry * State) :=
  '(ents, target_list, st) <- transform_match_entities st target_list p ;;
  '(target_list, st) <-
     match var_name p with
     | Some _ =>
         '(path_te, st) <- transform_match_create_path_variable st p ents ;;
         OK ((target_list ++ [path_te])%list, st)
     | None => OK (target_list, st)
     end ;;
  join_quals <- make_path_join_quals st ents ;;
  if list_length ents >? 3 then
    duplicate_edge_qual <- prevent_duplicate_edges ents ;;
    OK ((join_quals ++ [duplicate_edge_qual])%list, target_list, st)
  else OK (join_quals, target_list, st).

Fixpoint transform_match_pattern_loop (st : State)
  (target_list : list TargetEntry) (pattern : list cypher_path)
  (quals : list Node) : Result (list Node * list TargetEntry * State) :=
  match pattern with
  | [] => OK (quals, target_list, st)
  | p :: rest =>
      '(qual, target_list, st) <- transform_match_path st target_list p ;;
      transform_match_pattern_loop st target_list rest (quals ++ qual)
  end.

Definition transform_match_pattern (st : State) (query : Query)
  (pattern : list cypher_path) : Result (Query * State) :=
  '(quals, target_list, st) <-
     transform_match_pattern_loop st (targetList query) pattern [] ;;
  let '(cat, cpstate) := st in
  expr <-
    match quals with
    | [] => OK None
    | _ =>
        let q := makeBoolExpr AND_EXPR quals in
        e <- transformExpr cat cpstate q EXPR_KIND_WHERE ;;
        OK (Some e)
    end ;;
  let expr :=
    match property_constraint_quals cpstate with
    | [] => expr
    | pcq =>
        let prop_qual := makeBoolExpr AND_EXPR pcq in
        match quals with
        | [] => Some prop_qual
        | _ => Some (makeBoolExpr AND_EXPR [node_of_ptr expr; prop_qual])
        end
    end in
  let query := set_targetList target_list query in
  OK (set_rtable_jointree (p_rtable cpstate)
        (makeFromExpr (p_joinlist cpstate) expr) query, st).

(** ** Output columns shared by the write clauses *)

Definition AGE_VARNAME_CREATE_CLAUSE : string :=
  AGE_DEFAULT_VARNAME_PREFIX ++ "create_clause".
Definition AGE_VARNAME_CREATE_NULL_VALUE : string :=
  AGE_DEFAULT_VARNAME_PREFIX ++ "create_null_value".
Definition AGE_VARNAME_DELETE_CLAUSE : string :=
  AGE_DEFAULT_VARNAME_PREFIX ++ "delete_clause".
Definition AGE_VARNAME_SET_CLAUSE : string :=
  AGE_DEFAULT_VARNAME_PREFIX ++ "set_clause".
Definition PREV_CYPHER_CLAUSE_ALIAS : string := "_".

Definition add_volatile_wrapper (node : Node) : Node :=
  FuncExpr "agtype_volatile_wrapper" AGTYPEOID [node].

Definition set_te_expr (e : Node) (te : TargetEntry) : TargetEntry :=
  mk_TargetEntry e (resno te) (resname te) (resjunk te).

(** [get_target_entry_resno]: the [resno] of the first entry of that
    name, or [-1]; the entry found gets its expression wrapped, which is
    why the target list is returned as well. *)
Fixpoint get_target_entry_resno (target_list : list TargetEntry)
  (name : option string) : Result (Z * list TargetEntry) :=
  match target_list with
  | [] => OK (-1, [])
  | te :: rest =>
      match resname te, name with
      | Some n, Some m =>
          if streq n m then
            OK (resno te, set_te_expr (add_volatile_wrapper (te_expr te)) te :: rest)
          else
            '(r, rest') <- get_target_entry_resno rest name ;;
            OK (r, te :: rest')
      | _, _ => Undefined
      end
  end.

Definition placeholder_target_entry (cpstate : cypher_parsestate)
  (name : option string) : TargetEntry * cypher_parsestate :=
  let n := add_volatile_wrapper (Const_null AGTYPEOID) in
  let rn := p_next_resno cpstate in
  (makeTargetEntry n rn name false, set_p_next_resno (rn + 1) cpstate).

(** ** CREATE *)

Definition variable_exists (cpstate : cypher_parsestate) (name : option string)
  : Result bool :=
  match name with
  | None => OK false
  | Some n =>
      found <- find_rte cpstate (Some PREV_CYPHER_CLAUSE_ALIAS) ;;
      match found with
      | Some (rtindex, rte) =>
          id <- scanRTEForColumn rtindex 0 rte n ;;
          OK (is_Some id)
      | None => OK false
      end
  end.

Definition is_cypher_param (n : Node) : bool :=
  match n with cypher_param _ _ => true | _ => false end.

(** [param->location], of a node that is a [cypher_param]. *)
Definition param_location (n : Node) : Z :=
  match n with cypher_param _ location => location | _ => -1 end.

Definition cypher_create_properties (st : State) (label_relation : Relation)
  (props : option Node) (type : transform_entity_type) : Result Node :=
  let '(cat, cpstate) := st in
  match props with
  | Some p =>
      if is_cypher_param p then
        ereport ERRCODE_FEATURE_NOT_SUPPORTED
          "properties in a CREATE clause as a parameter is not supported"
          (Some (param_location p)) None
      else
        properties <- transform_cypher_expr cat cpstate p EXPR_KIND_INSERT_TARGET ;;
        OK (add_volatile_wrapper properties)
  | None =>
      match type with
      | ENT_VERTEX =>
          OK (add_volatile_wrapper
                (ColumnDefault (build_column_default (rd_id label_relation)
                                  Anum_ag_label_vertex_table_properties)))
      | ENT_EDGE =>
          OK (add_volatile_wrapper
                (ColumnDefault (build_column_default (rd_id label_relation)
                                  Anum_ag_label_edge_table_properties)))
      end
  end.

Definition transform_create_cypher_existing_node
  (target_list : list TargetEntry) (declared_in_current_clause : bool)
  (node : cypher_node) : Result (cypher_target_node * list TargetEntry) :=
  match node_props node with
  | Some _ =>
      ereport ERRCODE_FEATURE_NOT_SUPPORTED
        "previously declared nodes in a create clause cannot have properties"
        None None
  | None =>
      match node_label node with
      | Some _ =>
          ereport ERRCODE_FEATURE_NOT_SUPPORTED
            "previously declared variables cannot have a label" None None
      | None =>
          let flags := CYPHER_TARGET_NODE_FLAG_NONE in
          let flags :=
            if declared_in_current_clause
            then Z.lor flags EXISTING_VARAIBLE_DECLARED_SAME_CLAUSE
            else flags in
          '(pos, target_list) <-
             get_target_entry_resno target_list (node_name node) ;;
          OK (mk_cypher_target_node LABEL_KIND_VERTEX flags CYPHER_REL_DIR_NONE
                None 0 0 None (node_name node) (to_AttrNumber pos),
              target_list)
      end
  end.

(** Ensures the label exists, then opens and ranges over its relation:
    the catalog part shared by new vertices and new edges. *)
Definition open_label_relation (st : State) (label : string)
  (kind : label_kind) (default_label : string) : Result (Relation * State) :=
  let '(cat, cpstate) := st in
  cat <-
    (if negb (label_exists cat label (graph_oid cpstate)) then
       let rv := get_label_range_var cat (graph_name cpstate)
                   (graph_oid cpstate) default_label in
       create_label cat (graph_name cpstate) label kind [rv]
     else OK cat) ;;
  let rv := makeRangeVar (graph_name cpstate) label in
  label_relation <- parserOpenTable cat rv ;;
  let '(_, cpstate) := addRangeTableEntryForRelation cpstate rv label_relation in
  OK (label_relation, (cat, cpstate)).

Definition transform_create_cypher_new_node (st : State)
  (target_list : list TargetEntry) (node : cypher_node)
  : Result (cypher_target_node * cypher_node * list TargetEntry * State) :=
  let '(label_name, label, node) :=
    match node_label node with
    | None =>
        (Some "", AG_DEFAULT_LABEL_VERTEX,
         set_node_label (Some AG_DEFAULT_LABEL_VERTEX) node)
    | Some l => (Some l, l, node)
    end in
  '(label_relation, st) <-
     open_label_relation st label LABEL_KIND_VERTEX AG_DEFAULT_LABEL_VERTEX ;;
  let flags := CYPHER_TARGET_NODE_FLAG_INSERT in
  let id_expr :=
    build_column_default (rd_id label_relation) Anum_ag_label_vertex_table_id in
  let '(cat, cpstate) := st in
  let '(alias, cpstate) := get_next_default_alias cpstate in
  let rn := p_next_resno cpstate in
  let cpstate := set_p_next_resno (rn + 1) cpstate in
  props <- cypher_create_properties (cat, cpstate) label_relation
             (node_props node) ENT_VERTEX ;;
  let te := makeTargetEntry props rn (Some alias) false in
  let target_list := (target_list ++ [te])%list in
  match node_name node with
  | Some name =>
      let '(te, cpstate) := placeholder_target_entry cpstate (Some name) in
      OK (mk_cypher_target_node LABEL_KIND_VERTEX
            (Z.lor flags CYPHER_TARGET_NODE_IS_VAR) CYPHER_REL_DIR_NONE
            (Some id_expr) (to_AttrNumber (rn - 1)) (rd_id label_relation)
            label_name (Some name) (resno te),
          node, (target_list ++ [te])%list, (cat, cpstate))
  | None =>
      OK (mk_cypher_target_node LABEL_KIND_VERTEX flags CYPHER_REL_DIR_NONE
            (Some id_expr) (to_AttrNumber (rn - 1)) (rd_id label_relation)
            label_name None 0,
          node, target_list, (cat, cpstate))
  end.

Definition transform_create_cypher_node (st : State)
  (target_list : list TargetEntry) (node : cypher_node)
  : Result (cypher_target_node * cypher_node * list TargetEntry * State) :=
  let '(cat, cpstate) := st in
  let existing :=
    match node_name node with
    | Some name => find_variable cpstate name
    | None => None
    end in
  match existing with
  | Some ent =>
      if negb (is_ENT_VERTEX (ent_type ent)) then
        ereport ERRCODE_FEATURE_NOT_SUPPORTED
          ("variable " ++ match node_name node with Some n => n | None => "" end
           ++ " already exists")
          (Some (node_location node)) None
      else
        '(rel, target_list) <-
           transform_create_cypher_existing_node target_list
             (declared_in_current_clause ent) node ;;
        OK (rel, node, target_list, st)
  | None => transform_create_cypher_new_node st target_list node
  end.

Definition transform_create_cypher_edge (st : State)
  (target_list : list TargetEntry) (edge : cypher_relationship)
  : Result (cypher_target_node * list TargetEntry * State) :=
  let '(cat, cpstate) := st in
  let flags := CYPHER_TARGET_NODE_FLAG_INSERT in
  '(variable_name, tuple_position, flags, target_list, cpstate) <-
     match rel_name edge with
     | Some name =>
         exists_ <- variable_exists cpstate (Some name) ;;
         if (exists_ : bool) then
           ereport ERRCODE_FEATURE_NOT_SUPPORTED
             ("variable " ++ name ++ " already exists") None None
         else
           let '(te, cpstate) := placeholder_target_entry cpstate (Some name) in
           OK (Some name, resno te, Z.lor flags CYPHER_TARGET_NODE_IS_VAR,
               (target_list ++ [te])%list, cpstate)
     | None => OK (None, 0, flags, target_list, cpstate)
     end ;;
  match rel_dir edge with
  | CYPHER_REL_DIR_NONE =>
      ereport ERRCODE_FEATURE_NOT_SUPPORTED
        "only directed relationships are allowed in CREATE"
        (Some (rel_location edge)) None
  | dir =>
      match rel_label edge with
      | None =>
          ereport ERRCODE_FEATURE_NOT_SUPPORTED
            "relationships must be specify a label in CREATE."
            (Some (rel_location edge)) None
      | Some label =>
          '(label_relation, st) <-
             open_label_relation (cat, cpstate) label LABEL_KIND_EDGE
               AG_DEFAULT_LABEL_EDGE ;;
          let id_expr :=
            build_column_default (rd_id label_relation)
              Anum_ag_label_edge_table_id in
          let '(cat, cpstate) := st in
          let '(alias, cpstate) := get_next_default_alias cpstate in
          let rn := p_next_resno cpstate in
          let cpstate := set_p_next_resno (rn + 1) cpstate in
          props <- cypher_create_properties (cat, cpstate) label_relation
                     (rel_props edge) ENT_EDGE ;;
          let te := makeTargetEntry props rn (Some alias) false in
          OK (mk_cypher_target_node LABEL_KIND_EDGE flags dir (Some id_expr)
                (to_AttrNumber (rn - 1)) (rd_id label_relation)
                (Some label) variable_name tuple_position,
              (target_list ++ [te])%list, (cat, cpstate))
      end
  end.

Definition set_tn_flags (f : Z) (n : cypher_target_node) : cypher_target_node :=
  mk_cypher_target_node (tn_type n) f (tn_dir n) (tn_id_expr n)
    (tn_prop_attr_num n) (tn_relid n) (tn_label_name n) (tn_variable_name n)
    (tn_tuple_position n).

Definition mark_in_path (in_path : bool) (rel : cypher_target_node) :=
  if in_path
  then set_tn_flags (Z.lor (tn_flags rel) CYPHER_TARGET_NODE_IN_PATH_VAR) rel
  else rel.

Definition register_entity (ent : transform_entity) (st : State) : State :=
  let '(cat, cpstate) := st in
  (cat, set_entities (entities cpstate ++ [ent]) cpstate).

(** The loop of [transform_cypher_create_path] over the path elements. *)
Fixpoint transform_cypher_create_path_loop (st : State)
  (target_list : list TargetEntry) (in_path : bool)
  (elems : list path_element) (transformed_path : list cypher_target_node)
  : Result (list cypher_target_node * list TargetEntry * State) :=
  match elems with
  | [] => OK (transformed_path, target_list, st)
  | elem_node node :: rest =>
      '(rel, node, target_list, st) <-
         transform_create_cypher_node st target_list node ;;
      let rel := mark_in_path in_path rel in
      let ent := make_transform_entity ENT_VERTEX (elem_node node) None in
      transform_cypher_create_path_loop (register_entity ent st) target_list
        in_path rest (transformed_path ++ [rel])
  | elem_rel edge :: rest =>
      '(rel, target_list, st) <-
         transform_create_cypher_edge st target_list edge ;;
      let rel := mark_in_path in_path rel in
      let ent := make_transform_entity ENT_EDGE (elem_rel edge) None in
      transform_cypher_create_path_loop (register_entity ent st) target_list
        in_path rest (transformed_path ++ [rel])
  end.

Definition InvalidAttrNumber : Z := 0.

Definition transform_cypher_create_path (st : State)
  (target_list : list TargetEntry) (p : cypher_path)
  : Result (cypher_create_path * list TargetEntry * State) :=
  let in_path := is_Some (var_name p) in
  '(transformed_path, target_list, st) <-
     transform_cypher_create_path_loop st target_list in_path (path p) [] ;;
  match var_name p with
  | Some name =>
      if list_length transformed_path <? 3 then
        ereport ERRCODE_FEATURE_NOT_SUPPORTED
          "paths consist of alternating vertices and edges."
          (Some (path_location p))
          (Some "paths require at least 2 vertices and 1 edge")
      else
        let '(cat, cpstate) := st in
        let '(te, cpstate) := placeholder_target_entry cpstate (Some name) in
        OK (mk_cypher_create_path transformed_path (resno te),
            (target_list ++ [te])%list, (cat, cpstate))
  | None =>
      OK (mk_cypher_create_path transformed_path InvalidAttrNumber,
          target_list, st)
  end.

Fixpoint transform_cypher_create_pattern (st : State)
  (target_list : list TargetEntry) (pattern : list cypher_path)
  (transformed_pattern : list cypher_create_path)
  : Result (list cypher_create_path * list TargetEntry * State) :=
  match pattern with
  | [] => OK (transformed_pattern, target_list, st)
  | p :: rest =>
      '(transformed_path, target_list, st) <-
         transform_cypher_create_path st target_list p ;;
      transform_cypher_create_pattern st target_list rest
        (transformed_pattern ++ [transformed_path])
  end.

(** ** Nesting a clause as a subquery *)

(** A clause transformation: [Query *(*)(cypher_parsestate *, cypher_clause *)],
    with the state made explicit. *)
Definition transform_method : Type :=
  cypher_clause -> State -> Result (Query * State).

Definition advance_transform_entities_to_next_clause
  (ents : list transform_entity) : list transform_entity :=
  map (fun ent =>
         mk_transform_entity (ent_type ent) (in_join_tree ent) (ent_expr ent)
           false (entity ent))
      ents.

Definition analyze_cypher_clause (transform : transform_method)
  (clause : cypher_clause) (parent : State) : Result (Query * State) :=
  let '(cat, parent_cpstate) := parent in
  let cpstate := make_cypher_parsestate parent_cpstate in
  let cpstate := set_p_expr_kind (p_expr_kind parent_cpstate) cpstate in
  '(query, (cat, cpstate)) <- transform clause (cat, cpstate) ;;
  let ents := advance_transform_entities_to_next_clause (entities cpstate) in
  OK (query,
      (cat, set_entities (entities parent_cpstate ++ ents) parent_cpstate)).

(** [eref->aliasname] of a range-table entry. *)
Definition eref_aliasname (rte : RangeTblEntry) : string :=
  match rte_alias rte with
  | Some a => a
  | None =>
      match rte_relation rte with
      | Some rv => relname rv
      | None => ""
      end
  end.

(** [checkNameSpaceConflicts] of the namespace against the one new
    subquery entry named [aliasname]. *)
Fixpoint checkNameSpaceConflicts (rtable : list RangeTblEntry)
  (ns : list ParseNamespaceItem) (aliasname : string) : Result unit :=
  match ns with
  | [] => OK tt
  | nsitem :: rest =>
      if negb (p_rel_visible nsitem) then
        checkNameSpaceConflicts rtable rest aliasname
      else
        match rt_fetch (p_rte nsitem) rtable with
        | None => Undefined
        | Some rte1 =>
            if streq (eref_aliasname rte1) aliasname then
              ereport (ERRCODE_OTHER "duplicate_alias")
                ("table name " ++ aliasname ++ " specified more than once")
                None None
            else checkNameSpaceConflicts rtable rest aliasname
        end
  end.

Definition transform_cypher_clause_as_subquery (transform : transform_method)
  (clause : cypher_clause) (st : State)
  : Result (Z * RangeTblEntry * State) :=
  let '(cat, pstate) := st in
  let old_expr_kind := p_expr_kind pstate in
  let pstate :=
    match p_expr_kind pstate with
    | EXPR_KIND_NONE => set_p_expr_kind EXPR_KIND_FROM_SUBSELECT pstate
    | _ => pstate
    end in
  let lateral := is_EXPR_KIND_WHERE (p_expr_kind pstate) in
  let pstate := set_p_lateral_active lateral pstate in
  '(query, (cat, pstate)) <- analyze_cypher_clause transform clause (cat, pstate) ;;
  let pstate := set_p_expr_kind old_expr_kind pstate in
  '(rtindex, rte, pstate) <-
     addRangeTableEntryForSubquery pstate query PREV_CYPHER_CLAUSE_ALIAS
       lateral true ;;
  _ <- (if list_length (p_rtable pstate) >? 1
        then checkNameSpaceConflicts (p_rtable pstate) (p_namespace pstate)
               PREV_CYPHER_CLAUSE_ALIAS
        else OK tt) ;;
  let pstate := addRTEtoQuery pstate rtindex true false true in
  let pstate := set_p_lateral_active false pstate in
  OK (rtindex, rte, (cat, pstate)).

(** The common opening of MATCH, CREATE, SET and DELETE on a clause that
    has a predecessor: [transform_prev_cypher_clause] followed by
    [expandRelAttrs] of the new entry. ([rtindex] is asserted to be 1.) *)
Definition expand_prev_clause (transform_cypher_clause : transform_method)
  (prev_clause : cypher_clause) (st : State)
  : Result (list TargetEntry * State) :=
  '(_, rte, (cat, pstate)) <-
     transform_cypher_clause_as_subquery transform_cypher_clause prev_clause st ;;
  let rtindex := list_length (p_rtable pstate) in
  '(target_list, pstate) <- expandRelAttrs pstate rte rtindex ;;
  OK (target_list, (cat, pstate)).

(** ** DELETE *)

(** [errmsg("%s", str)] *)
Definition str_arg (s : option string) : string :=
  match s with Some v => v | None => "(null)" end.

Definition unexpected_node {A : Type} : Result A :=
  ereport ERRCODE_INTERNAL_ERROR "unexpected Node for cypher_clause" None None.

Fixpoint transform_cypher_delete_item_list (delete_item_list : list Node)
  (target_list : list TargetEntry) (items : list cypher_delete_item)
  : Result (list cypher_delete_item * list TargetEntry) :=
  match delete_item_list with
  | [] => OK (items, target_list)
  | expr :: rest =>
      match expr with
      | ColumnRef fields location =>
          match fields with
          | [val] =>
              match val with
              | T_String str =>
                  '(pos, target_list) <- get_target_entry_resno target_list str ;;
                  if pos =? -1 then
                    ereport ERRCODE_INVALID_COLUMN_REFERENCE
                      ("undefined reference to variable " ++ str_arg str
                       ++ " in DELETE clause")
                      (Some location) None
                  else
                    let item := mk_cypher_delete_item pos str in
                    transform_cypher_delete_item_list rest target_list
                      (items ++ [item])
              | _ => unexpected_node
              end
          | _ => unexpected_node
          end
      | _ => unexpected_node
      end
  end.

Definition transform_cypher_delete
  (transform_cypher_clause : transform_method) (clause : cypher_clause)
  (self_ : cypher_delete) (st : State) : Result (Query * State) :=
  let query := makeNode_Query in
  match prev clause with
  | None =>
      ereport ERRCODE_FEATURE_NOT_SUPPORTED
        "DELETE cannot be the first clause in a Cypher query"
        (Some (delete_location self_)) None
  | Some prev_clause =>
      '(target_list, (cat, cpstate)) <-
         expand_prev_clause transform_cypher_clause prev_clause st ;;
      '(items, target_list) <-
         transform_cypher_delete_item_list (delete_exprs self_) target_list [] ;;
      let flags :=
        if next_is_null clause then Z.lor 0 CYPHER_CLAUSE_FLAG_TERMINAL else 0 in
      let delete_data :=
        mk_cypher_delete_information items flags (graph_name cpstate)
          (graph_oid cpstate) (detach self_) in
      let pattern_const := Const_internal (out_delete delete_data) in
      let func_expr := FuncExpr DELETE_CLAUSE_FUNCTION_NAME AGTYPEOID [pattern_const] in
      let tle := makeTargetEntry func_expr (p_next_resno cpstate)
                   (Some AGE_VARNAME_DELETE_CLAUSE) false in
      let cpstate := set_p_next_resno (p_next_resno cpstate + 1) cpstate in
      let query := set_targetList (target_list ++ [tle]) query in
      let query := set_rtable_jointree (p_rtable cpstate)
                     (makeFromExpr (p_joinlist cpstate) None) query in
      OK (query, (cat, cpstate))
  end.

(** ** SET and REMOVE *)

(** Modelled from the spec: [transform_cypher_item] is defined in
    [cypher_item.c], which is not among the sources. It compiles an
    expression into a new projected column, numbered with [p_next_resno++];
    a column that is given no name and is not junk is named by
    [FigureColname]. *)
Definition transform_cypher_item (st : State) (node : Node)
  (expr : option Node) (expr_kind : ParseExprKind) (colname : option string)
  (junk : bool) : Result (TargetEntry * State) :=
  let '(cat, cpstate) := st in
  expr <- match expr with
          | Some e => OK e
          | None => transform_cypher_expr cat cpstate node expr_kind
          end ;;
  let colname :=
    match colname with
    | None => if junk then None else FigureColname node
    | Some c => Some c
    end in
  let rn := p_next_resno cpstate in
  OK (makeTargetEntry expr rn colname junk,
      (cat, set_p_next_resno (rn + 1) cpstate)).

Definition remove_format_error {A : Type} (location : Z) : Result A :=
  ereport ERRCODE_FEATURE_NOT_SUPPORTED
    "REMOVE clause must be in the format: REMOVE variable.property_name"
    (Some location) None.

Fixpoint transform_cypher_remove_item_list (remove_item_list : list cypher_set_item)
  (target_list : list TargetEntry) (items : list cypher_update_item)
  : Result (list cypher_update_item * list TargetEntry) :=
  match remove_item_list with
  | [] => OK (items, target_list)
  | set_item :: rest =>
      if si_is_add set_item then
        ereport ERRCODE_FEATURE_NOT_SUPPORTED
          "REMOVE clause does not support adding propereties from maps"
          (Some (si_location set_item)) None
      else
        match si_prop set_item with
        | A_Indirection arg indirection =>
            match arg with
            | ColumnRef fields _ =>
                match fields with
                | [] => Undefined
                | variable_node :: _ =>
                    match variable_node with
                    | T_String variable_name =>
                        '(pos, target_list) <-
                           get_target_entry_resno target_list variable_name ;;
                        if pos =? -1 then
                          ereport ERRCODE_INVALID_COLUMN_REFERENCE
                            ("undefined reference to variable "
                             ++ str_arg variable_name ++ " in REMOVE clause")
                            (Some (si_location set_item)) None
                        else
                          match indirection with
                          | [property_node] =>
                              match property_node with
                              | T_String property_name =>
                                  let item :=
                                    mk_cypher_update_item variable_name
                                      property_name pos 0 true in
                                  transform_cypher_remove_item_list rest
                                    target_list (items ++ [item])
                              | _ =>
                                  ereport ERRCODE_INVALID_COLUMN_REFERENCE
                                    "REMOVE clause expects a property name"
                                    (Some (si_location set_item)) None
                              end
                          | _ => remove_format_error (si_location set_item)
                          end
                    | _ => Undefined
                    end
                end
            | _ => remove_format_error (si_location set_item)
            end
        | _ => remove_format_error (si_location set_item)
        end
  end.

Fixpoint transform_cypher_set_item_list (st : State)
  (set_item_list : list cypher_set_item) (target_list : list TargetEntry)
  (items : list cypher_update_item)
  : Result (list cypher_update_item * list TargetEntry * State) :=
  match set_item_list with
  | [] => OK (items, target_list, st)
  | set_item :: rest =>
      if si_is_add set_item then
        ereport ERRCODE_FEATURE_NOT_SUPPORTED
          "SET clause does not yet support adding propereties from maps"
          (Some (si_location set_item)) None
      else
        match si_prop set_item with
        | A_Indirection (ColumnRef (variable_node :: _) _) indirection =>
            match variable_node with
            | T_String variable_name =>
                '(pos, target_list) <-
                   get_target_entry_resno target_list variable_name ;;
                if pos =? -1 then
                  ereport ERRCODE_INVALID_COLUMN_REFERENCE
                    ("undefined reference to variable "
                     ++ str_arg variable_name ++ " in SET clause")
                    (Some (si_location set_item)) None
                else
                  match indirection with
                  | [property_node] =>
                      match property_node with
                      | T_String property_name =>
                          let '(cat, cpstate) := st in
                          let prop_position := to_AttrNumber (p_next_resno cpstate) in
                          '(target_item, st) <-
                             transform_cypher_item st (si_expr set_item) None
                               EXPR_KIND_SELECT_TARGET None false ;;
                          let target_item :=
                            set_te_expr (add_volatile_wrapper (te_expr target_item))
                              target_item in
                          let item :=
                            mk_cypher_update_item variable_name property_name
                              pos prop_position false in
                          transform_cypher_set_item_list st rest
                            (target_list ++ [target_item]) (items ++ [item])
                      | _ =>
                          ereport ERRCODE_INVALID_COLUMN_REFERENCE
                            "SET clause expects a property name"
                            (Some (si_location set_item)) None
                      end
                  | _ =>
                      ereport ERRCODE_FEATURE_NOT_SUPPORTED
                        "SET clause doesnt not support updating maps or lists in a property"
                        (Some (si_location set_item)) None
                  end
            | _ =>
                ereport ERRCODE_INVALID_COLUMN_REFERENCE
                  "SET clause expects a variable name"
                  (Some (si_location set_item)) None
            end
        | _ => Undefined
        end
  end.

Definition transform_cypher_set
  (transform_cypher_clause : transform_method) (clause : cypher_clause)
  (self_ : cypher_set) (st : State) : Result (Query * State) :=
  let query := makeNode_Query in
  let clause_name :=
    if is_remove self_ then UPDATE_CLAUSE_REMOVE else UPDATE_CLAUSE_SET in
  match prev clause with
  | None =>
      ereport ERRCODE_FEATURE_NOT_SUPPORTED
        (clause_name ++ " cannot be the first clause in a Cypher query")
        (Some (set_location self_)) None
  | Some prev_clause =>
      '(target_list, st) <-
         expand_prev_clause transform_cypher_clause prev_clause st ;;
      if negb (list_length (set_items_list self_) =? 1) then
        ereport ERRCODE_FEATURE_NOT_SUPPORTED
          (clause_name
           ++ " clause does not yet support updating more than one property")
          (Some (set_location self_)) None
      else
        '(items, target_list, (cat, cpstate)) <-
           (if is_remove self_ then
              '(items, target_list) <-
                 transform_cypher_remove_item_list (set_items_list self_)
                   target_list [] ;;
              OK (items, target_list, st)
            else
              transform_cypher_set_item_list st (set_items_list self_)
                target_list []) ;;
        let flags :=
          if next_is_null clause then Z.lor 0 CYPHER_CLAUSE_FLAG_TERMINAL else 0 in
        let set_items_target_list :=
          mk_cypher_update_information items flags (Some (graph_name cpstate))
            (Some clause_name) in
        let pattern_const := Const_internal (out_update set_items_target_list) in
        let func_expr := FuncExpr "_cypher_set_clause" AGTYPEOID [pattern_const] in
        let tle := makeTargetEntry func_expr (p_next_resno cpstate)
                     (Some AGE_VARNAME_SET_CLAUSE) false in
        let cpstate := set_p_next_resno (p_next_resno cpstate + 1) cpstate in
        let query := set_targetList (target_list ++ [tle]) query in
        let query := set_rtable_jointree (p_rtable cpstate)
                       (makeFromExpr (p_joinlist cpstate) None) query in
        OK (query, (cat, cpstate))
  end.

(** ** CREATE, MATCH, RETURN and WITH as clauses *)

Definition transform_cypher_create
  (transform_cypher_clause : transform_method) (clause : cypher_clause)
  (self_ : cypher_create) (st : State) : Result (Query * State) :=
  let query := makeNode_Query in
  '(target_list, flags, (cat, cpstate)) <-
     match prev clause with
     | Some prev_clause =>
         '(target_list, st) <-
            expand_prev_clause transform_cypher_clause prev_clause st ;;
         OK (target_list,
             Z.lor CYPHER_CLAUSE_FLAG_NONE CYPHER_CLAUSE_FLAG_PREVIOUS_CLAUSE, st)
     | None => OK ([], CYPHER_CLAUSE_FLAG_NONE, st)
     end ;;
  let null_const := Const_null AGTYPEOID in
  let tle := makeTargetEntry null_const (p_next_resno cpstate)
               (Some AGE_VARNAME_CREATE_NULL_VALUE) false in
  let cpstate := set_p_next_resno (p_next_resno cpstate + 1) cpstate in
  let target_list := (target_list ++ [tle])%list in
  '(transformed_pattern, target_list, (cat, cpstate)) <-
     transform_cypher_create_pattern (cat, cpstate) target_list
       (create_pattern self_) [] ;;
  let flags :=
    if next_is_null clause then Z.lor flags CYPHER_CLAUSE_FLAG_TERMINAL
    else flags in
  let target_nodes :=
    mk_cypher_create_target_nodes transformed_pattern flags (graph_oid cpstate) in
  let pattern_const := Const_internal (out_create target_nodes) in
  let func_expr := FuncExpr CREATE_CLAUSE_FUNCTION_NAME AGTYPEOID [pattern_const] in
  let tle := makeTargetEntry func_expr (p_next_resno cpstate)
               (Some AGE_VARNAME_CREATE_CLAUSE) false in
  let cpstate := set_p_next_resno (p_next_resno cpstate + 1) cpstate in
  let query := set_targetList (target_list ++ [tle]) query in
  let query := set_rtable_jointree (p_rtable cpstate)
                 (makeFromExpr (p_joinlist cpstate) None) query in
  OK (query, (cat, cpstate)).

Definition transform_cypher_match_pattern
  (transform_cypher_clause : transform_method) (self_ : cypher_match)
  (clause : cypher_clause) (st : State) : Result (Query * State) :=
  let query := makeNode_Query in
  '(query, st) <-
     match prev clause with
     | Some prev_clause =>
         '(target_list, st) <-
            expand_prev_clause transform_cypher_clause prev_clause st ;;
         OK (set_targetList target_list query, st)
     | None => OK (query, st)
     end ;;
  transform_match_pattern st query (match_pattern self_).

Definition copy_has_flags (query : Query) (st : State) : Query :=
  let '(_, pstate) := st in
  set_has_flags (p_hasAggs pstate) (p_hasSubLinks pstate)
    (p_hasTargetSRFs pstate) query.

Definition transform_cypher_clause_with_where (transform : transform_method)
  (clause : cypher_clause) (where_ : option Node) (st : State)
  : Result (Query * State) :=
  '(query, st) <-
     match where_ with
     | Some w =>
         let query := makeNode_Query in
         '(_, rte, (cat, pstate)) <-
            transform_cypher_clause_as_subquery transform clause st ;;
         let rtindex := list_length (p_rtable pstate) in
         '(target_list, pstate) <- expandRelAttrs pstate rte rtindex ;;
         let query := set_targetList target_list query in
         qual <- transform_cypher_expr cat pstate w EXPR_KIND_WHERE ;;
         qual <- coerce_to_boolean qual "WHERE" ;;
         let query := set_rtable_jointree (p_rtable pstate)
                        (makeFromExpr (p_joinlist pstate) (Some qual)) query in
         OK (query, (cat, pstate))
     | None => transform clause st
     end ;;
  OK (copy_has_flags query st, st).

Definition transform_cypher_match
  (transform_cypher_clause : transform_method) (clause : cypher_clause)
  (self_ : cypher_match) (st : State) : Result (Query * State) :=
  transform_cypher_clause_with_where
    (transform_cypher_match_pattern transform_cypher_clause self_)
    clause (match_where self_) st.

Definition transform_cypher_limit (st : State) (node : option Node)
  (expr_kind : ParseExprKind) (construct_name : string) : Result (option Node) :=
  let '(cat, cpstate) := st in
  match node with
  | None => OK None
  | Some n =>
      qual <- transform_cypher_expr cat cpstate n expr_kind ;;
      qual <- coerce_to_specific_type qual INT8OID construct_name ;;
      if contain_vars_of_level qual 0 then
        ereport ERRCODE_INVALID_COLUMN_REFERENCE
          ("argument of " ++ construct_name ++ " must not contain variables")
          (Some (locate_var_of_level qual 0)) None
      else OK (Some qual)
  end.

(** The target list, ORDER BY, the automatic GROUP BY and DISTINCT of
    [transform_cypher_return] are left to [transform_cypher_item_list] and
    [transform_sort_group_distinct]; SKIP and LIMIT follow the code. *)
Definition transform_cypher_return
  (transform_cypher_clause : transform_method) (self_ : cypher_return)
  (clause : cypher_clause) (st : State) : Result (Query * State) :=
  let query := makeNode_Query in
  st <- match prev clause with
        | Some prev_clause =>
            '(_, _, st) <-
               transform_cypher_clause_as_subquery transform_cypher_clause
                 prev_clause st ;;
            OK st
        | None => OK st
        end ;;
  let '(cat, cpstate) := st in
  '(target_list, group_clause, cpstate) <-
     transform_cypher_item_list cat cpstate (ret_items self_)
       EXPR_KIND_SELECT_TARGET ;;
  '(target_list, srt, grp, gsets, dst, cpstate) <-
     transform_sort_group_distinct cat cpstate self_ target_list group_clause ;;
  let query := set_targetList target_list query in
  let query := set_sort_group_distinct srt grp gsets dst query in
  off <- transform_cypher_limit (cat, cpstate) (ret_skip self_)
           EXPR_KIND_OFFSET "SKIP" ;;
  cnt <- transform_cypher_limit (cat, cpstate) (ret_limit self_)
           EXPR_KIND_LIMIT "LIMIT" ;;
  let query := set_limits off cnt query in
  let query := set_rtable_jointree (p_rtable cpstate)
                 (makeFromExpr (p_joinlist cpstate) None) query in
  let query := set_has_flags (p_hasAggs cpstate) (hasSubLinks query)
                 (hasTargetSRFs query) query in
  _ <- (if p_hasAggs cpstate
           || match groupClause query with [] => false | _ => true end
           || match groupingSets query with [] => false | _ => true end
        then parse_check_aggregates cpstate query
        else OK tt) ;;
  OK (query, (cat, cpstate)).

(** The wrapper clause of [transform_cypher_with]: it copies [prev] and
    leaves [next] unset. *)
Definition transform_cypher_with
  (transform_cypher_clause : transform_method) (clause : cypher_clause)
  (self_ : cypher_with) (st : State) : Result (Query * State) :=
  let return_clause :=
    mk_cypher_return (with_distinct self_) (with_items self_)
      (with_order_by self_) (with_skip self_) (with_limit self_) in
  let wrapper :=
    mk_cypher_clause (self_return return_clause) (next_is_null clause)
      (prev clause) in
  transform_cypher_clause_with_where
    (transform_cypher_return transform_cypher_clause return_clause)
    wrapper (with_where self_) st.

Fixpoint makeTargetListFromRTE_loop (tl : list TargetEntry)
  (ln : list string) (rtindex varattno next_resno : Z)
  : Result (list TargetEntry * Z) :=
  match tl with
  | [] => OK ([], next_resno)
  | te :: rest =>
      if resjunk te then
        makeTargetListFromRTE_loop rest ln rtindex varattno next_resno
      else
        match ln with
        | [] => Undefined
        | name :: ln' =>
            let varnode := Var rtindex varattno 0 in
            let tmp := makeTargetEntry varnode next_resno (Some name) false in
            '(tes, n) <-
               makeTargetListFromRTE_loop rest ln' rtindex (varattno + 1)
                 (next_resno + 1) ;;
            OK (tmp :: tes, n)
        end
  end.

Definition makeTargetListFromRTE (pstate : cypher_parsestate) (rtindex : Z)
  (rte : RangeTblEntry) : Result (list TargetEntry * cypher_parsestate) :=
  match subquery rte with
  | None => Undefined
  | Some q =>
      '(tl, n) <-
         makeTargetListFromRTE_loop (targetList q) (eref_colnames rte) rtindex
           1 (p_next_resno pstate) ;;
      OK (tl, set_p_next_resno n pstate)
  end.

(** The wrapped clause [c] is a [cypher_match] without predecessor, on
    which [transform_cypher_clause] goes to [transform_cypher_match]. *)
Definition transform_cypher_sub_pattern
  (transform_cypher_clause : transform_method) (subpat : cypher_sub_pattern)
  (st : State) : Result (Query * State) :=
  let match_ := mk_cypher_match (sub_pattern subpat) None in
  let c := mk_cypher_clause (self_match match_) true None in
  let qry := makeNode_Query in
  '(rtindex, rte, (cat, pstate)) <-
     transform_cypher_clause_as_subquery
       (fun cl => transform_cypher_match transform_cypher_clause cl match_) c st ;;
  '(target_list, pstate) <- makeTargetListFromRTE pstate rtindex rte ;;
  let qry := set_targetList target_list qry in
  let qry := set_rtable_jointree (p_rtable pstate)
               (makeFromExpr (p_joinlist pstate) None) qry in
  let qry := copy_has_flags qry (cat, pstate) in
  _ <- (if hasAggs qry then parse_check_aggregates pstate qry else OK tt) ;;
  OK (qry, (cat, pstate)).

(** ** Vocabulary of the statements about join qualifiers *)

(** The header constants name the [id] column of vertices and of edges
    alike: [join_to_entity] asks for a vertex's [AG_EDGE_COLNAME_ID]. *)
Definition id_colnames_agree : Prop :=
  AG_VERTEX_COLNAME_ID = AG_EDGE_COLNAME_ID.

(** The three columns of an edge that take part in joins are told apart
    by name, and so are the accessors of its two endpoints. *)
Definition edge_columns_distinct : Prop :=
  AG_EDGE_COLNAME_ID <> AG_EDGE_COLNAME_START_ID /\
  AG_EDGE_COLNAME_ID <> AG_EDGE_COLNAME_END_ID /\
  AG_EDGE_COLNAME_START_ID <> AG_EDGE_COLNAME_END_ID /\
  AG_EDGE_ACCESS_FUNCTION_START_ID <> AG_EDGE_ACCESS_FUNCTION_END_ID.

(** The variable of the pattern element an entity stands for. *)
Definition entity_variable (ent : transform_entity) : option string :=
  match entity ent with
  | elem_node node => node_name node
  | elem_rel rel => rel_name rel
  end.

(** How a qualifier reads a column of an entity. An entity that is a
    variable of an earlier clause is read through the accessor function
    of the column, applied to that variable. Any other entity is a
    relation of the clause being compiled, named after the entity's
    variable, and is read as the column [variable.col_name], cast from
    graphid to agtype. *)
Definition column_access (accessor col_name : string) (ent : transform_entity)
  : Node :=
  match ent_expr ent with
  | None => NULLPTR
  | Some x =>
      if is_Var x
      then FuncCall ["ag_catalog"; accessor] [x]
      else FuncCall ["ag_catalog"; "graphid_to_agtype"]
             [ColumnRef [T_String (entity_variable ent);
                         T_String (Some col_name)] 0]
  end.

(** [A.id] of a vertex; [e.id], [e.start_id] and [e.end_id] of an edge. *)
Definition vertex_id (v : transform_entity) : Node :=
  column_access AG_VERTEX_ACCESS_FUNCTION_ID AG_VERTEX_COLNAME_ID v.
Definition edge_id (e : transform_entity) : Node :=
  column_access AG_EDGE_ACCESS_FUNCTION_ID AG_EDGE_COLNAME_ID e.
Definition edge_start (e : transform_entity) : Node :=
  column_access AG_EDGE_ACCESS_FUNCTION_START_ID AG_EDGE_COLNAME_START_ID e.
Definition edge_end (e : transform_entity) : Node :=
  column_access AG_EDGE_ACCESS_FUNCTION_END_ID AG_EDGE_COLNAME_END_ID e.

(** [l = r], as [makeSimpleA_Expr(AEXPR_OP, "=", l, r, -1)] builds it. *)
Definition eq_qual (l r : Node) : Node := A_Expr AEXPR_OP "=" l r.

(** A vertex that is part of the join tree, and an edge, as
    [transform_match_entities] registers them. *)
Definition vertex_entity (node : cypher_node) (expr : Node) : transform_entity :=
  make_transform_entity ENT_VERTEX (elem_node node) (Some expr).

Definition edge_entity (rel : cypher_relationship) (expr : Node) : transform_entity :=
  make_transform_entity ENT_EDGE (elem_rel rel) (Some expr).

(** The entity list of a path: its first vertex, then one (edge, vertex)
    pair per hop. *)
Definition path_entities (v0 : transform_entity)
  (hops : list (transform_entity * transform_entity)) : list transform_entity :=
  v0 :: flat_map (fun h => [fst h; snd h]) hops.

(** Two equalities per hop of a path of right-directed edges. *)
Fixpoint right_quals (prev_node : transform_entity)
  (hops : list (transform_entity * transform_entity)) : list Node :=
  match hops with
  | [] => []
  | (e, v) :: rest =>
      eq_qual (edge_start e) (vertex_id prev_node)
        :: eq_qual (edge_end e) (vertex_id v)
        :: right_quals v rest
  end.

Definition is_equality (n : Node) : bool :=
  match n with
  | A_Expr AEXPR_OP name _ _ => streq name "="
  | _ => false
  end.

(** Does an [OR] occur anywhere in the expression? *)
Fixpoint has_disjunction (n : Node) : bool :=
  let any := fix any (l : list Node) : bool :=
    match l with
    | [] => false
    | x :: rest => has_disjunction x || any rest
    end in
  match n with
  | BoolExpr OR_EXPR _ => true
  | BoolExpr _ args => any args
  | ColumnRef fields _ => any fields
  | A_Indirection arg indirection => has_disjunction arg || any indirection
  | FuncCall _ args => any args
  | FuncExpr _ _ args => any args
  | A_Expr _ _ l r => has_disjunction l || has_disjunction r
  | T_List elems => any elems
  | SubLink testexpr subselect => has_disjunction testexpr || any subselect
  | cypher_map keyvals => any keyvals
  | OtherExpr _ children => any children
  | _ => false
  end.

(** The shape of the qualifier of an undirected edge. *)
Definition undirected_qual (a e b : transform_entity) : Node :=
  BoolExpr OR_EXPR
    [BoolExpr AND_EXPR [eq_qual (edge_start e) (vertex_id a);
                        eq_qual (edge_end e) (vertex_id b)];
     BoolExpr AND_EXPR [eq_qual (edge_end e) (vertex_id a);
                        eq_qual (edge_start e) (vertex_id b)]].

(** One hop of a path, as parse nodes with the expressions they were
    compiled to: a relationship, then the vertex it leads to. *)
Definition hop : Type := ((cypher_relationship * Node) * (cypher_node * Node))%type.

Definition hop_dir (h : hop) : cypher_rel_dir := rel_dir (fst (fst h)).

Definition hop_entities (h : hop) : transform_entity * transform_entity :=
  (edge_entity (fst (fst h)) (snd (fst h)),
   vertex_entity (fst (snd h)) (snd (snd h))).

(** *** Vocabulary of the statements about whole paths *)

(** A path as the grammar builds it: a vertex, then (edge, vertex) pairs. *)
Definition path_of (n0 : cypher_node)
  (hops : list (cypher_relationship * cypher_node)) : list path_element :=
  elem_node n0 :: flat_map (fun h => [elem_rel (fst h); elem_node (snd h)]) hops.

Definition well_formed_path (elems : list path_element) : Prop :=
  exists n0 hops, elems = path_of n0 hops.

Definition is_elem_rel (e : path_element) : bool :=
  match e with elem_rel _ => true | elem_node _ => false end.

(** The number of edges of a path. *)
Definition num_edges (elems : list path_element) : Z :=
  list_length (filter is_elem_rel elems).

(** The identity expressions of the edges among the entities, in order. *)
Definition edge_ids (ents : list transform_entity) : list Node :=
  map edge_id (filter (fun ent => is_ENT_EDGE (ent_type ent)) ents).

(** The qualifier [prevent_duplicate_edges] builds over [ids]. *)
Definition edge_uniqueness_qual (ids : list Node) : Node :=
  FuncCall ["ag_catalog"; "_ag_enforce_edge_uniqueness"] ids.

Definition is_edge_uniqueness_qual (n : Node) : bool :=
  match n with
  | FuncCall [schema; fn] _ =>
      streq schema "ag_catalog" && streq fn "_ag_enforce_edge_uniqueness"
  | _ => false
  end.

(** A label that [filter_vertices_on_label_id] is never asked about, or
    can resolve: absent, the default vertex label, or known to the cache. *)
Definition label_resolves (cat : Catalog) (oid : Oid) (label : option string) : Prop :=
  match label with
  | None => True
  | Some l =>
      IS_DEFAULT_LABEL_VERTEX (Some l) = true
      \/ exists lcd, search_label_name_graph_cache cat l oid = Some lcd
  end.

(** What [transform_match_entities] registers for a vertex and for an edge. *)
Definition wf_vertex_entity (cat : Catalog) (oid : Oid) (ent : transform_entity) : Prop :=
  ent_type ent = ENT_VERTEX
  /\ (exists n, entity ent = elem_node n)
  /\ in_join_tree ent = is_Some (ent_expr ent)
  /\ label_resolves cat oid (union_label (entity ent)).

Definition wf_edge_entity (ent : transform_entity) : Prop :=
  ent_type ent = ENT_EDGE
  /\ (exists r, entity ent = elem_rel r)
  /\ (exists x, ent_expr ent = Some x)
  /\ in_join_tree ent = true.

Definition entity_for (cat : Catalog) (oid : Oid) (elem : path_element)
  (ent : transform_entity) : Prop :=
  match elem with
  | elem_node _ => wf_vertex_entity cat oid ent
  | elem_rel _ => wf_edge_entity ent
  end.

(** Join qualifiers are operator or boolean expressions. *)
Definition join_qual_shape (n : Node) : bool :=
  match n with
  | A_Expr _ _ _ _ => true
  | BoolExpr _ _ => true
  | _ => false
  end.

(** The state keeps its catalog and its graph. *)
Definition same_graph (s s' : State) : Prop :=
  fst s' = fst s /\ graph_oid (snd s') = graph_oid (snd s).

(** The output column of a named MATCH path. *)
Definition path_variable_entry (p : cypher_path) (ents : list transform_entity)
  (rn : Z) : TargetEntry :=
  makeTargetEntry
    (FuncExpr "_agtype_build_path" AGTYPEOID
       (map (fun ent => node_of_ptr (ent_expr ent)) ents))
    rn (var_name p) false.

(** The error raised for a named path that is too short. *)
Definition short_path_error (p : cypher_path) : ErrorData :=
  mkErrorData ERRCODE_FEATURE_NOT_SUPPORTED
    "paths consist of alternating vertices and edges."
    (Some (path_location p))
    (Some "paths require at least 2 vertices and 1 edge").

(** *** Vocabulary of the statements about bound variables *)


(** The label of a pattern element passes the catalog check made first. *)
Definition label_known (cat : Catalog) (oid : Oid) (kind : label_kind)
  (label : option string) : Prop :=
  match label with
  | None => True
  | Some l =>
      exists lcd,
        search_label_name_graph_cache cat l oid = Some lcd
        /\ lcd_kind lcd = kind
  end.

(** *** Vocabulary of the statements about output columns *)

(** The output columns of a compiled clause: its target entries that are
    not junk. The i-th of them (from 0) is attribute i + 1 of the clause
    seen as a relation. *)
Definition output_columns (q : Query) : list TargetEntry :=
  filter (fun te => negb (resjunk te)) (targetList q).

(** What identifies a column to the following clauses and to the
    executor: its name, its number, and whether it is junk. *)
Definition column_signature (te : TargetEntry) : option string * Z * bool :=
  (resname te, resno te, resjunk te).

(** The target entries [expandRelAttrs] makes for the columns [names] of
    entry [rtindex], the first numbered [next_resno]. *)
Fixpoint carried_columns (names : list string) (rtindex varattno next_resno : Z)
  : list TargetEntry :=
  match names with
  | [] => []
  | name :: rest =>
      makeTargetEntry (Var rtindex (varattno + 1) 0) next_resno (Some name) false
        :: carried_columns rest rtindex (varattno + 1) (next_resno + 1)
  end.

(** The parse state of a clause while its predecessor is compiled, and
    the child state the predecessor is compiled in. *)
Definition subquery_parent (pstate : cypher_parsestate) : cypher_parsestate :=
  let pstate :=
    match p_expr_kind pstate with
    | EXPR_KIND_NONE => set_p_expr_kind EXPR_KIND_FROM_SUBSELECT pstate
    | _ => pstate
    end in
  set_p_lateral_active (is_EXPR_KIND_WHERE (p_expr_kind pstate)) pstate.

Definition subquery_child (pstate : cypher_parsestate) : cypher_parsestate :=
  set_p_expr_kind (p_expr_kind (subquery_parent pstate))
    (make_cypher_parsestate (subquery_parent pstate)).

(** The range-table entry of the predecessor, compiled to [q]. *)
Definition prev_clause_rte (pstate : cypher_parsestate) (q : Query)
  (names : list string) : RangeTblEntry :=
  mk_RangeTblEntry RTE_SUBQUERY None 0 (Some q) (Some PREV_CYPHER_CLAUSE_ALIAS)
    names (is_EXPR_KIND_WHERE (p_expr_kind (subquery_parent pstate))) true.

(** The parse state of a clause that started with an empty range table,
    after its predecessor was nested and its columns were expanded;
    [child] is the state the predecessor's compilation ended in. *)
Definition after_prev_clause (pstate : cypher_parsestate) (q : Query)
  (names : list string) (child : cypher_parsestate) : cypher_parsestate :=
  let p1 := subquery_parent pstate in
  let p2 := set_entities
              (entities p1
               ++ advance_transform_entities_to_next_clause (entities child))
              p1 in
  let p3 := set_p_expr_kind (p_expr_kind pstate) p2 in
  let p4 := set_p_rtable (p_rtable p3 ++ [prev_clause_rte pstate q names]) p3 in
  let p5 := addRTEtoQuery p4 1 true false true in
  let p6 := set_p_lateral_active false p5 in
  set_p_next_resno (p_next_resno pstate + list_length names) p6.



(** The number [get_target_entry_resno] finds for [name] among the
    columns [names], the first of which is numbered [first]; [-1] when no
    column has the name. *)
Fixpoint carried_position (names : list string) (name : string) (first : Z) : Z :=
  match names with
  | [] => -1
  | n :: rest =>
      if streq n name then to_AttrNumber first
      else carried_position rest name (first + 1)
  end.

(** The place of the first column called [name], counted from [first]. *)
Fixpoint column_position (names : list string) (name : string) (first : Z)
  : option Z :=
  match names with
  | [] => None
  | n :: rest =>
      if streq n name then Some first else column_position rest name (first + 1)
  end.

(** A reference to a variable, as the grammar builds it. *)
Definition variable_reference (v : string * Z) : Node :=
  ColumnRef [T_String (Some (fst v))] (snd v).

(** A reference [variable.property], as the grammar builds it. *)
Definition property_reference (variable property : string) : Node :=
  A_Indirection (ColumnRef [T_String (Some variable)] 0) [T_String (Some property)].

(** The output column that carries the plan of a DELETE. *)
Definition delete_plan_entry (items : list cypher_delete_item)
  (clause : cypher_clause) (d : cypher_delete) (pstate : cypher_parsestate)
  (rn : Z) : TargetEntry :=
  makeTargetEntry
    (FuncExpr DELETE_CLAUSE_FUNCTION_NAME AGTYPEOID
       [Const_internal
          (out_delete
             (mk_cypher_delete_information items
                (if next_is_null clause
                 then Z.lor 0 CYPHER_CLAUSE_FLAG_TERMINAL else 0)
                (graph_name pstate) (graph_oid pstate) (detach d)))])
    rn (Some AGE_VARNAME_DELETE_CLAUSE) false.

(** The output column that carries the plan of a SET or REMOVE. *)
Definition update_plan_entry (items : list cypher_update_item)
  (clause : cypher_clause) (s_ : cypher_set) (pstate : cypher_parsestate)
  (rn : Z) : TargetEntry :=
  makeTargetEntry
    (FuncExpr "_cypher_set_clause" AGTYPEOID
       [Const_internal
          (out_update
             (mk_cypher_update_information items
                (if next_is_null clause
                 then Z.lor 0 CYPHER_CLAUSE_FLAG_TERMINAL else 0)
                (Some (graph_name pstate))
                (Some (if is_remove s_ then UPDATE_CLAUSE_REMOVE
                       else UPDATE_CLAUSE_SET))))])
    rn (Some AGE_VARNAME_SET_CLAUSE) false.

(** The errors of the update clauses. *)
Definition first_clause_error (clause_name : string) (location : Z) : ErrorData :=
  mkErrorData ERRCODE_FEATURE_NOT_SUPPORTED
    (clause_name ++ " cannot be the first clause in a Cypher query")
    (Some location) None.

Definition multiple_items_error (clause_name : string) (location : Z) : ErrorData :=
  mkErrorData ERRCODE_FEATURE_NOT_SUPPORTED
    (clause_name ++ " clause does not yet support updating more than one property")
    (Some location) None.

Definition undefined_reference_error (name clause_name : string) (location : Z)
  : ErrorData :=
  mkErrorData ERRCODE_INVALID_COLUMN_REFERENCE
    ("undefined reference to variable " ++ name ++ " in " ++ clause_name ++ " clause")
    (Some location) None.

Definition update_clause_name (s_ : cypher_set) : string :=
  if is_remove s_ then UPDATE_CLAUSE_REMOVE else UPDATE_CLAUSE_SET.

(** The DELETE item recorded for a variable found at [pos]. *)
Definition resolved_delete_items (names : list string) (first : Z)
  (vars : list (string * Z)) : list cypher_delete_item :=
  map (fun v => mk_cypher_delete_item (carried_position names (fst v) first)
                  (Some (fst v)))
      vars.

(** A single SET or REMOVE item [variable.property (= value)]. *)
Definition property_item (variable property : string) (value : Node)
  (location : Z) : cypher_set_item :=
  mk_cypher_set_item (property_reference variable property) value false location.

(** The signature of a column a clause adds itself. *)
Definition own_column (name : option string) (position : Z)
  : option string * Z * bool :=
  (name, to_AttrNumber position, false).

(** The columns of [Q], the first of them numbered [first], are the
    output columns of [q], under their names and in their order, followed
    by columns of signatures [own]. *)
Definition keeps_columns (q Q : Query) (first : Z)
  (own : list (option string * Z * bool)) : Prop :=
  exists names,
    map resname (output_columns q) = map Some names
    /\ map column_signature (targetList Q)
       = (map column_signature (carried_columns names 1 0 first) ++ own)%list
    /\ forall i te,
         nth_error (output_columns q) i = Some te ->
         exists te',
           nth_error (targetList Q) i = Some te'
           /\ resname te' = resname te
           /\ resno te' = to_AttrNumber (first + Z.of_nat i)
           /\ resjunk te' = false.





(** *** Vocabulary of the statements about MATCH elements *)

(** The errors of a MATCH element whose label the catalog does not have,
    or has for the other kind of element. *)
Definition unknown_label_error (label : string) (location : Z) : ErrorData :=
  mkErrorData ERRCODE_FEATURE_NOT_SUPPORTED
    ("label " ++ label ++ " does not exists") (Some location) None.

Definition label_kind_error (label : string) (kind : label_kind) (location : Z)
  : ErrorData :=
  mkErrorData ERRCODE_FEATURE_NOT_SUPPORTED
    ("label " ++ label
     ++ match kind with
        | LABEL_KIND_EDGE => " is for edges, not vertices"
        | LABEL_KIND_VERTEX => " is for vertices, not edges"
        end)
    (Some location) None.

Definition varlen_error (location : Z) : ErrorData :=
  mkErrorData ERRCODE_FEATURE_NOT_SUPPORTED
    "variable length relationships are not supported" (Some location) None.

(** The name is neither a column of the target list nor a visible column
    of the relations in scope. *)
Definition unbound_name (cpstate : cypher_parsestate) (tl : list TargetEntry)
  (name : string) : Prop :=
  findTarget tl (Some name) = OK None
  /\ colNameToVar cpstate name false = OK None.

(** *** Vocabulary of the statements about what a pattern adds *)

(** [l'] is [l] with elements added at its end. *)
Definition extends {A : Type} (l l' : list A) : Prop :=
  exists more, l' = (l ++ more)%list.

(** Columns that are not junk and are numbered one after the other, the
    first with [first]. *)
Definition numbered_columns (first : Z) (cols : list TargetEntry) : Prop :=
  forall i te,
    nth_error cols i = Some te ->
    resno te = to_AttrNumber (first + Z.of_nat i) /\ resjunk te = false.

(** From [(st, tl)] to [(st', tl')] columns were only added at the end of
    the target list, each numbered with the next free column number. *)
Definition appends_columns (st : State) (tl : list TargetEntry)
  (st' : State) (tl' : list TargetEntry) : Prop :=
  exists more,
    tl' = (tl ++ more)%list
    /\ p_next_resno (snd st') = p_next_resno (snd st) + list_length more
    /\ numbered_columns (p_next_resno (snd st)) more.

(** From [s] to [s'] nothing was taken out of the parse state: its lists
    were extended, its counters did not go back, and its scope and graph
    are the same. *)
Definition state_grows (s s' : cypher_parsestate) : Prop :=
  extends (p_rtable s) (p_rtable s')
  /\ extends (p_joinlist s) (p_joinlist s')
  /\ extends (p_namespace s) (p_namespace s')
  /\ extends (entities s) (entities s')
  /\ extends (property_constraint_quals s) (property_constraint_quals s')
  /\ p_next_resno s <= p_next_resno s'
  /\ default_alias_num s <= default_alias_num s'
  /\ parentParseState s' = parentParseState s
  /\ p_expr_kind s' = p_expr_kind s
  /\ graph_name s' = graph_name s
  /\ graph_oid s' = graph_oid s.

(** Both at once, with the catalog kept. *)
Definition pattern_frame (st : State) (tl : list TargetEntry)
  (st' : State) (tl' : list TargetEntry) : Prop :=
  appends_columns st tl st' tl'
  /\ state_grows (snd st) (snd st')
  /\ fst st' = fst st.

(** The kind of entity registered for a path element. *)
Definition entity_kind_of (elem : path_element) : transform_entity_type :=
  match elem with elem_node _ => ENT_VERTEX | elem_rel _ => ENT_EDGE end.

(** *** Vocabulary of the statements about vertices left out of the join *)

(** The entity of a vertex that is left out of the join tree: it has no
    expression. *)
Definition omitted_vertex (node : cypher_node) : transform_entity :=
  make_transform_entity ENT_VERTEX (elem_node node) None.

(** The qualifier that holds the vertex behind [id_field] to the label
    numbered [label_id]. *)
Definition label_filter (id_field : Node) (label_id : Z) : Node :=
  makeSimpleA_Expr AEXPR_OP "="
    (makeFuncCall ["ag_catalog"; "_extract_label_id"]
       [makeFuncCall ["ag_catalog"; "agtype_to_graphid"] [id_field]])
    (A_Const_Integer label_id).

(** The label of a vertex asks for no filter. *)
Definition unfiltered_label (label : option string) : Prop :=
  label = None \/ IS_DEFAULT_LABEL_VERTEX label = true.

(** *** Vocabulary of the statements about what CREATE adds *)

(** Signatures of columns that are not junk and are numbered one after
    the other, the first with [first]. *)
Definition numbered_signatures (first : Z)
  (sigs : list (option string * Z * bool)) : Prop :=
  forall i s,
    nth_error sigs i = Some s ->
    snd (fst s) = to_AttrNumber (first + Z.of_nat i) /\ snd s = false.

(** From [(st, tl)] to [(st', tl')] the columns kept their names, numbers
    and places, and columns were only added after them, each numbered
    with the next free column number. *)
Definition appends_signatures (st : State) (tl : list TargetEntry)
  (st' : State) (tl' : list TargetEntry) : Prop :=
  exists more,
    map column_signature tl' = (map column_signature tl ++ more)%list
    /\ p_next_resno (snd st') = p_next_resno (snd st) + list_length more
    /\ numbered_signatures (p_next_resno (snd st)) more.

Definition create_frame (st : State) (tl : list TargetEntry)
  (st' : State) (tl' : list TargetEntry) : Prop :=
  appends_signatures st tl st' tl' /\ state_grows (snd st) (snd st').

(** Among the columns [tl] there is the one a target node's property
    position points at: not junk, holding the properties wrapped against
    optimisation. Among them there is the one its tuple position points
    at, named by its variable and holding a wrapped null. *)
Definition properties_column_of (rel : cypher_target_node)
  (tl : list TargetEntry) : Prop :=
  exists te props,
    In te tl
    /\ resno te = tn_prop_attr_num rel + 1
    /\ te_expr te = add_volatile_wrapper props
    /\ resjunk te = false.

Definition variable_column_of (rel : cypher_target_node)
  (tl : list TargetEntry) : Prop :=
  match tn_variable_name rel with
  | Some name =>
      exists te,
        In te tl
        /\ resno te = tn_tuple_position rel
        /\ resname te = Some name
        /\ te_expr te = add_volatile_wrapper (Const_null AGTYPEOID)
  | None => tn_tuple_position rel = 0
  end.

(** The errors of an edge in CREATE. *)
Definition undirected_create_error (location : Z) : ErrorData :=
  mkErrorData ERRCODE_FEATURE_NOT_SUPPORTED
    "only directed relationships are allowed in CREATE" (Some location) None.

Definition unlabelled_create_error (location : Z) : ErrorData :=
  mkErrorData ERRCODE_FEATURE_NOT_SUPPORTED
    "relationships must be specify a label in CREATE." (Some location) None.

(** The check of [transform_create_cypher_edge] on the variable of the
    edge passes. *)
Definition fresh_edge_variable (cpstate : cypher_parsestate)
  (name : option string) : Prop :=
  variable_exists cpstate name = OK false.

(** The names of the output columns of the clause before the one being
    compiled: the column names of the range table entry that stands for
    the predecessor, when there is one. *)
Definition predecessor_columns (cpstate : cypher_parsestate)
  : option (list string) :=
  match find_rte cpstate (Some PREV_CYPHER_CLAUSE_ALIAS) with
  | OK (Some (_, rte)) => Some (eref_colnames rte)
  | _ => None
  end.

Definition occurrences (name : string) (cols : list string) : nat :=
  List.length (filter (fun c => streq c name) cols).

(** [name] names exactly one output column of the predecessor. *)
Definition predecessor_column (cpstate : cypher_parsestate) (name : string)
  : Prop :=
  exists cols,
    predecessor_columns cpstate = Some cols /\ occurrences name cols = 1%nat.

(** An edge without variable, or whose variable names no output column
    of the predecessor; in particular an edge of a first clause. *)
Definition no_predecessor_column (cpstate : cypher_parsestate)
  (name : option string) : Prop :=
  forall n cols,
    name = Some n -> predecessor_columns cpstate = Some cols ->
    occurrences n cols = 0%nat.

(** *** Vocabulary of the statements about entities and lookups *)

(** An entity as the clause after the one that declared it sees it. *)
Definition advanced (ent : transform_entity) : transform_entity :=
  mk_transform_entity (ent_type ent) (in_join_tree ent) (ent_expr ent) false
    (entity ent).

(** The parse state a nested clause is compiled in by
    [analyze_cypher_clause]. *)
Definition nested_scope (parent : cypher_parsestate) : cypher_parsestate :=
  set_p_expr_kind (p_expr_kind parent) (make_cypher_parsestate parent).

(** What a lookup by name returns, without the target list. *)
Definition lookup_position (tl : list TargetEntry) (name : option string)
  : Result Z :=
  '(pos, _) <- get_target_entry_resno tl name ;; OK pos.

(** ** The clause chain driver *)

Fixpoint transform_cypher_clause (clause : cypher_clause) (st : State)
  {struct clause} : Result (Query * State) :=
  let finish (r : Result (Query * State)) :=
    '(result, st) <- r ;; OK (set_source_tag QSRC_ORIGINAL true result, st) in
  match self clause with
  | self_return r =>
      finish (transform_cypher_return transform_cypher_clause r clause st)
  | self_with w => transform_cypher_with transform_cypher_clause clause w st
  | self_match m => transform_cypher_match transform_cypher_clause clause m st
  | self_create c =>
      finish (transform_cypher_create transform_cypher_clause clause c st)
  | self_set s_ => transform_cypher_set transform_cypher_clause clause s_ st
  | self_delete d => transform_cypher_delete transform_cypher_clause clause d st
  | self_sub_pattern sp =>
      finish (transform_cypher_sub_pattern transform_cypher_clause sp st)
  | self_other =>
      ereport ERRCODE_INTERNAL_ERROR "unexpected Node for cypher_clause" None None
  end.

End Model.

(** ** The headers' values and a list-backed catalog

    The values the AGE headers give the constants, a catalog kept as a list
    of labels, and a small expression compiler: the inputs of the examples
    further down. *)

Definition age_headers : AgeHeaders := {|
  AGE_DEFAULT_VARNAME_PREFIX := "_age_default_varname_";
  AGE_DEFAULT_ALIAS_PREFIX := "_age_default_alias_";
  AG_DEFAULT_LABEL_VERTEX := "_ag_label_vertex";
  AG_DEFAULT_LABEL_EDGE := "_ag_label_edge";
  AG_VERTEX_COLNAME_ID := "id";
  AG_VERTEX_COLNAME_PROPERTIES := "properties";
  AG_EDGE_COLNAME_ID := "id";
  AG_EDGE_COLNAME_START_ID := "start_id";
  AG_EDGE_COLNAME_END_ID := "end_id";
  AG_EDGE_COLNAME_PROPERTIES := "properties";
  AG_VERTEX_ACCESS_FUNCTION_ID := "age_id";
  AG_VERTEX_ACCESS_FUNCTION_PROPERTIES := "age_properties";
  AG_EDGE_ACCESS_FUNCTION_ID := "age_id";
  AG_EDGE_ACCESS_FUNCTION_START_ID := "age_start_id";
  AG_EDGE_ACCESS_FUNCTION_END_ID := "age_end_id";
  Anum_ag_label_vertex_table_id := 1;
  Anum_ag_label_vertex_table_properties := 2;
  Anum_ag_label_edge_table_id := 1;
  Anum_ag_label_edge_table_properties := 4;
  UPDATE_CLAUSE_SET := "SET";
  UPDATE_CLAUSE_REMOVE := "REMOVE";
  DELETE_CLAUSE_FUNCTION_NAME := "_cypher_delete_clause";
  CREATE_CLAUSE_FUNCTION_NAME := "_cypher_create_clause";
  CYPHER_CLAUSE_FLAG_NONE := 0;
  CYPHER_CLAUSE_FLAG_TERMINAL := 1;
  CYPHER_CLAUSE_FLAG_PREVIOUS_CLAUSE := 2;
  CYPHER_TARGET_NODE_FLAG_NONE := 0;
  CYPHER_TARGET_NODE_FLAG_INSERT := 1;
  EXISTING_VARAIBLE_DECLARED_SAME_CLAUSE := 2;
  CYPHER_TARGET_NODE_IS_VAR := 4;
  CYPHER_TARGET_NODE_IN_PATH_VAR := 8
|}.

(** A catalog as the list of its labels: name, cache entry. *)
Definition list_catalog : Type := list (string * label_cache_data).

Fixpoint lookup_label (cat : list_catalog) (name : string) : option label_cache_data :=
  match cat with
  | [] => None
  | (n, lcd) :: rest => if streq n name then Some lcd else lookup_label rest name
  end.

Definition label_attnames (k : label_kind) : list string :=
  match k with
  | LABEL_KIND_VERTEX => ["id"; "properties"]
  | LABEL_KIND_EDGE => ["id"; "start_id"; "end_id"; "properties"]
  end.

(** Column references become the visible column of that name; operators
    are compiled operand by operand; anything else is kept. *)
Fixpoint compile_expr (pstate : cypher_parsestate) (n : Node) : Result Node :=
  match n with
  | ColumnRef [T_String (Some v)] _ =>
      r <- colNameToVar pstate v false ;;
      match r with
      | Some var => OK var
      | None =>
          ereport (ERRCODE_OTHER "undefined_column")
            ("could not find rte for " ++ v) None None
      end
  | A_Expr k name l r =>
      l' <- compile_expr pstate l ;;
      r' <- compile_expr pstate r ;;
      OK (OtherExpr name [l'; r'])
  | _ => OK n
  end.

(** Items are compiled in order, each into one output column. *)
Fixpoint compile_item_list (pstate : cypher_parsestate) (items : list Node)
  : Result (list TargetEntry * cypher_parsestate) :=
  match items with
  | [] => OK ([], pstate)
  | item :: rest =>
      e <- compile_expr pstate item ;;
      let name :=
        match item with
        | ColumnRef [T_String (Some v)] _ => Some v
        | _ => Some "?column?"
        end in
      let te := makeTargetEntry e (p_next_resno pstate) name false in
      '(tes, pstate) <-
         compile_item_list (set_p_next_resno (p_next_resno pstate + 1) pstate) rest ;;
      OK (te :: tes, pstate)
  end.

Definition list_collaborators : Collaborators := {|
  Catalog := list_catalog;
  search_label_name_graph_cache := fun cat name _ => lookup_label cat name;
  label_exists := fun cat name _ =>
    match lookup_label cat name with Some _ => true | None => false end;
  create_label := fun cat _ name kind _ =>
    OK (cat ++ [(name, mk_label_cache_data (1 + list_length cat) kind
                         (16384 + list_length cat))])%list;
  get_label_range_var := fun _ graph _ label => makeRangeVar graph label;
  get_graph_namespace_name := fun _ graph => graph;
  get_label_relation_name := fun _ label _ => label;
  parserOpenTable := fun cat rv =>
    match lookup_label cat (relname rv) with
    | Some lcd => OK (mk_Relation (lcd_relation lcd) (label_attnames (lcd_kind lcd)))
    | None =>
        ereport (ERRCODE_OTHER "undefined_table")
          ("relation " ++ relname rv ++ " does not exist") None None
    end;
  transform_cypher_expr := fun _ pstate n _ => compile_expr pstate n;
  transformExpr := fun _ pstate n _ => OK n;
  coerce_to_boolean := fun n _ => OK n;
  coerce_to_specific_type := fun n _ _ => OK n;
  locate_var_of_level := fun _ _ => -1;
  FigureColname := fun n =>
    match n with
    | ColumnRef [T_String (Some v)] _ => Some v
    | _ => Some "?column?"
    end;
  transform_cypher_item_list := fun _ pstate items _ =>
    '(tl, pstate) <- compile_item_list pstate items ;;
    OK (tl, [], pstate);
  transform_sort_group_distinct := fun _ pstate _ tl _ =>
    OK (tl, [], [], [], [], pstate);
  parse_check_aggregates := fun _ _ => OK tt
|}.

(** A graph with the two default labels, a vertex label and an edge label. *)
Definition demo_catalog : list_catalog :=
  [ ("_ag_label_vertex", mk_label_cache_data 1 LABEL_KIND_VERTEX 16385);
    ("_ag_label_edge", mk_label_cache_data 2 LABEL_KIND_EDGE 16386);
    ("Person", mk_label_cache_data 3 LABEL_KIND_VERTEX 16387);
    ("KNOWS", mk_label_cache_data 4 LABEL_KIND_EDGE 16388) ].

(** The parse state a top-level clause chain starts in. *)
Definition top_cpstate : cypher_parsestate :=
  mk_cypher_parsestate None [] [] [] false 1 EXPR_KIND_NONE false false false
    "g" 16000 [] [] 0.

Definition demo_state : @State list_collaborators := (demo_catalog, top_cpstate).

Definition bare_node (name : string) : cypher_node :=
  mk_cypher_node (Some name) None None 0.

Definition bare_rel (name : string) (dir : cypher_rel_dir) : cypher_relationship :=
  mk_cypher_relationship (Some name) None None None dir 0.

Definition var_ref (name : string) : Node := ColumnRef [T_String (Some name)] 0.

(** MATCH (x) *)
Definition match_x : cypher_clause :=
  mk_cypher_clause
    (self_match (mk_cypher_match [mk_cypher_path [elem_node (bare_node "x")] None 0] None))
    false None.

(** MATCH (x) DELETE x *)
Definition match_x_delete_x : cypher_clause :=
  mk_cypher_clause (self_delete (mk_cypher_delete false [var_ref "x"] 0))
    true (Some match_x).

Definition node_a : cypher_node := bare_node "a".
Definition node_b : cypher_node := bare_node "b".
Definition node_c : cypher_node := bare_node "c".



Definition unnamed (elems : list path_element) : cypher_path :=
  mk_cypher_path elems None 0.

(** (a)-[e]-(b) *)
Definition undirected_hop : cypher_path :=
  unnamed [elem_node node_a; elem_rel (bare_rel "e" CYPHER_REL_DIR_NONE);
           elem_node node_b].

(** (a)-[e1]->(b)-[e2]->(c) *)
Definition two_right_hops : cypher_path :=
  unnamed [elem_node node_a; elem_rel (bare_rel "e1" CYPHER_REL_DIR_RIGHT);
           elem_node node_b; elem_rel (bare_rel "e2" CYPHER_REL_DIR_RIGHT);
           elem_node node_c].

(** p = (a)-[e]->(b) *)
Definition named_one_hop : cypher_path :=
  mk_cypher_path
    [elem_node node_a; elem_rel (bare_rel "e" CYPHER_REL_DIR_RIGHT);
     elem_node node_b]
    (Some "p") 0.

(** p = (a)-[e:KNOWS]->(b), for CREATE *)
Definition named_one_hop_to_create : cypher_path :=
  mk_cypher_path
    [elem_node node_a;
     elem_rel (mk_cypher_relationship (Some "e") (Some "KNOWS") None None
                 CYPHER_REL_DIR_RIGHT 0);
     elem_node node_b]
    (Some "p") 0.

(** MATCH (a), followed by another clause *)
Definition match_a : cypher_clause :=
  mk_cypher_clause (self_match (mk_cypher_match [unnamed [elem_node node_a]] None))
    false None.



(** DELETE x *)
Definition delete_x : cypher_delete := mk_cypher_delete false [var_ref "x"] 0.

(** SET x.p = 1 and SET x.p = 1, x.q = 2 *)
Definition set_x_p : cypher_set :=
  mk_cypher_set [property_item "x" "p" (A_Const_Integer 1) 0] false 0.

Definition set_x_p_x_q : cypher_set :=
  mk_cypher_set
    [property_item "x" "p" (A_Const_Integer 1) 0;
     property_item "x" "q" (A_Const_Integer 2) 0]
    false 0.

(** REMOVE x.p and REMOVE y.p *)
Definition remove_x_p : cypher_set :=
  mk_cypher_set [property_item "x" "p" NULLPTR 0] true 0.

Definition remove_y_p : cypher_set :=
  mk_cypher_set [property_item "y" "p" NULLPTR 0] true 0.

(** A clause after MATCH (x) *)
Definition after_match_x (s : clause_self) : cypher_clause :=
  mk_cypher_clause s true (Some match_x).


(** MATCH (a) WITH 1, followed by another clause, and a map-merge item
    [x += {}] *)
Definition match_a_with_1 : cypher_clause :=
  mk_cypher_clause
    (self_with (mk_cypher_with false [A_Const_Integer 1] [] None None None))
    false (Some match_a).

Definition set_x_merge : cypher_set :=
  mk_cypher_set [mk_cypher_set_item (var_ref "x") (cypher_map []) true 0] false 0.

(** (a:KNOWS), (a:Nowhere), -[e:Person]-> and a variable length edge *)
Definition knows_a : cypher_node := mk_cypher_node (Some "a") (Some "KNOWS") None 7.

Definition nowhere_a : cypher_node :=
  mk_cypher_node (Some "a") (Some "Nowhere") None 7.

Definition person_e : cypher_relationship :=
  mk_cypher_relationship (Some "e") (Some "Person") None None
    CYPHER_REL_DIR_RIGHT 9.

Definition varlen_e : cypher_relationship :=
  mk_cypher_relationship (Some "e") (Some "Nowhere") None (Some (A_Const_Integer 2))
    CYPHER_REL_DIR_RIGHT 9.

(** The parse state of a WHERE *)
Definition where_cpstate : cypher_parsestate :=
  set_p_expr_kind EXPR_KIND_WHERE top_cpstate.

(** MATCH (x) MATCH (y) *)
Definition match_y : cypher_match :=
  mk_cypher_match [unnamed [elem_node (bare_node "y")]] None.

Definition match_x_match_y : cypher_clause := after_match_x (self_match match_y).

(** () and (:Person) *)
Definition anonymous_node : cypher_node := mk_cypher_node None None None 0.

Definition anonymous_person : cypher_node :=
  mk_cypher_node None (Some "Person") None 0.

(** MATCH (x) WHERE x, as the last clause *)
Definition match_x_where_x : cypher_clause :=
  mk_cypher_clause
    (self_match
       (mk_cypher_match [unnamed [elem_node (bare_node "x")]] (Some (var_ref "x"))))
    true None.

(** -[e]- and -[e]-> without label, -[e:KNOWS]->, for CREATE *)
Definition undirected_e : cypher_relationship := bare_rel "e" CYPHER_REL_DIR_NONE.

Definition unlabelled_e : cypher_relationship := bare_rel "e" CYPHER_REL_DIR_RIGHT.

Definition knows_e : cypher_relationship :=
  mk_cypher_relationship (Some "e") (Some "KNOWS") None None
    CYPHER_REL_DIR_RIGHT 0.

(** MATCH (x) CREATE (x)-[e:KNOWS]->(b) *)
Definition create_x_knows_b : cypher_create :=
  mk_cypher_create
    [unnamed [elem_node (bare_node "x"); elem_rel knows_e; elem_node node_b]].

Definition match_x_create : cypher_clause :=
  after_match_x (self_create create_x_knows_b).

(** * Properties *)

Section Properties.

Context {headers : AgeHeaders} {collab : Collaborators}.

(** Tactics for runs in the result monad. *)
Ltac break_match_in H :=
  match type of H with
  | context [match ?x with _ => _ end] =>
      let E := fresh "E" in destruct x eqn:E; try discriminate H
  end.

Ltac inv_OK H := injection H as H; repeat match goal with
  | H' : (_, _) = (_, _) |- _ => injection H' as ? ?
  end; subst.

(** Decide the case distinctions at the head of a run that succeeded. *)
Ltac peel H :=
  repeat match type of H with
         | bindR _ _ = _ => fail 1
         | (match ?x with _ => _ end) = _ => destruct x; try discriminate H
         end.

Ltac run_step H pat E :=
  match type of H with
  | bindR ?c _ = _ => destruct c as pat eqn:E; try discriminate H
  end; cbn [bindR] in H.

(** Decide a goal about the fields of a parse state built by setters. *)
Ltac grows_field :=
  first [ reflexivity | lia
        | exists []; symmetry; apply app_nil_r
        | eexists; reflexivity ].

Ltac grows_by_fields :=
  unfold state_grows, extends; cbn;
  repeat (split; [grows_field|]); grows_field.

(** Follow a run that succeeded through every case distinction and every
    step of the result monad. *)
Ltac unroll H :=
  repeat match type of H with
         | bindR ?c _ = _ =>
             let E := fresh "E" in
             destruct c eqn:E; try discriminate H; cbn [bindR] in H
         | (match ?x with _ => _ end) = _ =>
             let E := fresh "E" in
             destruct x eqn:E; try discriminate H
         end.

Lemma bindR_OK {A B : Type} (r : Result A) (k : A -> Result B) (a : A) :
  r = OK a -> bindR r k = k a.
Proof. intros ->. reflexivity. Qed.

Lemma list_length_app {A : Type} (l1 l2 : list A) :
  list_length (l1 ++ l2) = list_length l1 + list_length l2.
Proof. unfold list_length. rewrite length_app. lia. Qed.

Lemma list_length_cons {A : Type} (x : A) (l : list A) :
  list_length (x :: l) = 1 + list_length l.
Proof. unfold list_length. simpl List.length. lia. Qed.

Lemma list_length_nonneg {A : Type} (l : list A) : 0 <= list_length l.
Proof. unfold list_length. lia. Qed.

Lemma to_AttrNumber_small (x : Z) :
  -32768 <= x <= 32767 -> to_AttrNumber x = x.
Proof.
  intros H. unfold to_AttrNumber.
  rewrite Z.mod_small by lia. lia.
Qed.

Lemma streq_refl (s : string) : streq s s = true.
Proof. apply String.eqb_refl. Qed.

Lemma streq_neq (a b : string) : a <> b -> streq a b = false.
Proof. intros H. apply String.eqb_neq. exact H. Qed.

(** *** Access expressions *)

Lemma make_qual_of_edge (ent : transform_entity) (x : Node) :
  ent_type ent = ENT_EDGE ->
  ent_expr ent = Some x ->
  make_qual ent AG_EDGE_COLNAME_ID = OK (edge_id ent)
  /\ (edge_columns_distinct ->
      make_qual ent AG_EDGE_COLNAME_START_ID = OK (edge_start ent)
      /\ make_qual ent AG_EDGE_COLNAME_END_ID = OK (edge_end ent)).
Proof.
  intros Ht Hx.
  unfold edge_id, edge_start, edge_end, column_access, make_qual,
    entity_variable, union_name.
  rewrite Hx, Ht. unfold get_accessor_function_name.
  split.
  - destruct (is_Var x); [|reflexivity]. rewrite streq_refl. reflexivity.
  - intros (Hs & He & Hse & _).
    destruct (is_Var x); [|split; reflexivity].
    rewrite (streq_neq _ _ Hs), (streq_neq _ _ He), (streq_neq _ _ Hse),
      !streq_refl.
    split; reflexivity.
Qed.

Lemma make_qual_edge_start (rel : cypher_relationship) (x : Node) :
  edge_columns_distinct ->
  make_qual (edge_entity rel x) AG_EDGE_COLNAME_START_ID
  = OK (edge_start (edge_entity rel x)).
Proof.
  intros Hcols.
  exact (proj1 (proj2 (make_qual_of_edge (edge_entity rel x) x
                         eq_refl eq_refl) Hcols)).
Qed.

Lemma make_qual_edge_end (rel : cypher_relationship) (x : Node) :
  edge_columns_distinct ->
  make_qual (edge_entity rel x) AG_EDGE_COLNAME_END_ID
  = OK (edge_end (edge_entity rel x)).
Proof.
  intros Hcols.
  exact (proj2 (proj2 (make_qual_of_edge (edge_entity rel x) x
                         eq_refl eq_refl) Hcols)).
Qed.

Lemma make_qual_vertex (node : cypher_node) (x : Node) :
  id_colnames_agree ->
  make_qual (vertex_entity node x) AG_EDGE_COLNAME_ID
  = OK (vertex_id (vertex_entity node x)).
Proof.
  intros Hid.
  unfold vertex_id, column_access, make_qual, entity_variable, union_name,
    vertex_entity, make_transform_entity.
  cbn [ent_expr ent_type entity].
  destruct (is_Var x); [|rewrite Hid; reflexivity].
  unfold get_accessor_function_name.
  rewrite Hid, streq_refl. reflexivity.
Qed.

Lemma edge_start_neq_end (rel : cypher_relationship) (x : Node) :
  edge_columns_distinct ->
  edge_start (edge_entity rel x) <> edge_end (edge_entity rel x).
Proof.
  intros (_ & _ & Hse & Hacc).
  unfold edge_start, edge_end, column_access, edge_entity,
    make_transform_entity.
  cbn [ent_expr].
  destruct (is_Var x); intros H; injection H as H.
  - apply Hacc. exact H.
  - apply Hse. exact H.
Qed.

Lemma join_to_vertex (node : cypher_node) (x qual : Node)
  (side : transform_entity_join_side) :
  id_colnames_agree ->
  join_to_entity (vertex_entity node x) qual side
  = OK [eq_qual qual (vertex_id (vertex_entity node x))].
Proof.
  intros Hid. unfold join_to_entity.
  change (ent_type (vertex_entity node x)) with ENT_VERTEX. cbv iota.
  rewrite (make_qual_vertex node x Hid). reflexivity.
Qed.

(** The conditions of one directed reading of an edge between two
    vertices of the join tree: no label filter, two equalities. *)
Lemma directed_between_vertices (st : State) (n1 n2 : cypher_node)
  (x1 x2 prev_qual next_qual : Node) :
  id_colnames_agree ->
  make_directed_edge_join_conditions st (vertex_entity n1 x1)
    (vertex_entity n2 x2) prev_qual next_qual None None
  = OK [eq_qual prev_qual (vertex_id (vertex_entity n1 x1));
        eq_qual next_qual (vertex_id (vertex_entity n2 x2))].
Proof.
  intros Hid. unfold make_directed_edge_join_conditions.
  change (in_join_tree (vertex_entity n1 x1)) with true.
  change (in_join_tree (vertex_entity n2 x2)) with true.
  cbv iota.
  rewrite (join_to_vertex n1 x1 prev_qual JOIN_SIDE_LEFT Hid).
  rewrite (join_to_vertex n2 x2 next_qual JOIN_SIDE_RIGHT Hid).
  reflexivity.
Qed.

(** *** Undirected edges *)

Lemma join_condition_undirected (st : State)
  (prev_edge next_edge : option transform_entity)
  (na nb : cypher_node) (rel : cypher_relationship) (xa xb xe : Node) :
  id_colnames_agree ->
  edge_columns_distinct ->
  rel_dir rel = CYPHER_REL_DIR_NONE ->
  make_join_condition_for_edge st prev_edge (vertex_entity na xa)
    (edge_entity rel xe) (Some (vertex_entity nb xb)) next_edge
  = OK [undirected_qual (vertex_entity na xa) (edge_entity rel xe)
          (vertex_entity nb xb)].
Proof.
  intros Hid Hcols Hdir. unfold make_join_condition_for_edge.
  change (in_join_tree (vertex_entity na xa)) with true.
  change (in_join_tree (vertex_entity nb xb)) with true.
  change (union_dir (entity (edge_entity rel xe))) with (OK (rel_dir rel)).
  rewrite Hdir. cbn [negb bindR].
  assert (Hprev : match prev_edge with
                  | Some _ => vertex_entity na xa
                  | None => vertex_entity na xa
                  end = vertex_entity na xa) by (destruct prev_edge; reflexivity).
  assert (Hnext : match next_edge with
                  | Some _ => vertex_entity nb xb
                  | None => vertex_entity nb xb
                  end = vertex_entity nb xb) by (destruct next_edge; reflexivity).
  assert (Hfilter : match next_edge with
                    | Some _ => @None string
                    | None => None
                    end = None) by (destruct next_edge; reflexivity).
  rewrite Hprev, Hnext, Hfilter.
  rewrite (make_qual_edge_start rel xe Hcols).
  rewrite (make_qual_edge_end rel xe Hcols).
  cbn [bindR].
  rewrite !directed_between_vertices by exact Hid.
  reflexivity.
Qed.

(** C1. For a MATCH path (A)-[e]-(B) whose edge is undirected and whose
    two vertices are part of the join tree, the join qualifier is one
    [OR] of exactly two [AND]s of two equalities each,
    (e.start_id = A.id AND e.end_id = B.id)
    OR (e.end_id = A.id AND e.start_id = B.id),
    where [A.id] and [B.id] read the id of the vertex the operand is
    named after and [e.start_id], [e.end_id] the start and the end of
    the edge; the same qualifier is produced for such an edge in the
    middle of a longer path. The start and end operands differ, so the
    two orientations are two different conjunctions. *)
Theorem undirected_edge_enumerates_both_orientations (st : State)
  (na nb : cypher_node) (rel : cypher_relationship) (xa xb xe : Node) :
  id_colnames_agree ->
  edge_columns_distinct ->
  rel_dir rel = CYPHER_REL_DIR_NONE ->
  let a := vertex_entity na xa in
  let b := vertex_entity nb xb in
  let e := edge_entity rel xe in
  make_path_join_quals st [a; e; b]
  = OK [BoolExpr OR_EXPR
          [BoolExpr AND_EXPR [eq_qual (edge_start e) (vertex_id a);
                              eq_qual (edge_end e) (vertex_id b)];
           BoolExpr AND_EXPR [eq_qual (edge_end e) (vertex_id a);
                              eq_qual (edge_start e) (vertex_id b)]]]
  /\ (forall prev_edge next_edge,
        make_join_condition_for_edge st prev_edge a e (Some b) next_edge
        = OK [undirected_qual a e b])
  /\ edge_start e <> edge_end e.
Proof.
  intros Hid Hcols Hdir a b e. subst a b e.
  repeat split.
  - unfold make_path_join_quals.
    change (list_length _ <? 3) with false. cbv iota.
    unfold make_path_join_quals_loop.
    rewrite (join_condition_undirected st None None) by assumption.
    reflexivity.
  - intros prev_edge next_edge. apply join_condition_undirected; assumption.
  - apply edge_start_neq_end. exact Hcols.
Qed.

(** *** Right-directed paths *)

Lemma join_condition_right (st : State)
  (prev_edge next_edge : option transform_entity)
  (na nb : cypher_node) (rel : cypher_relationship) (xa xb xe : Node) :
  id_colnames_agree ->
  edge_columns_distinct ->
  rel_dir rel = CYPHER_REL_DIR_RIGHT ->
  make_join_condition_for_edge st prev_edge (vertex_entity na xa)
    (edge_entity rel xe) (Some (vertex_entity nb xb)) next_edge
  = OK [eq_qual (edge_start (edge_entity rel xe)) (vertex_id (vertex_entity na xa));
        eq_qual (edge_end (edge_entity rel xe)) (vertex_id (vertex_entity nb xb))].
Proof.
  intros Hid Hcols Hdir. unfold make_join_condition_for_edge.
  change (in_join_tree (vertex_entity na xa)) with true.
  change (in_join_tree (vertex_entity nb xb)) with true.
  change (union_dir (entity (edge_entity rel xe))) with (OK (rel_dir rel)).
  rewrite Hdir. cbn [negb bindR].
  assert (Hprev : match prev_edge with
                  | Some _ => vertex_entity na xa
                  | None => vertex_entity na xa
                  end = vertex_entity na xa) by (destruct prev_edge; reflexivity).
  assert (Hfilter : match next_edge with
                    | Some _ => @None string
                    | None => None
                    end = None) by (destruct next_edge; reflexivity).
  rewrite Hprev, Hfilter.
  rewrite (make_qual_edge_start rel xe Hcols).
  rewrite (make_qual_edge_end rel xe Hcols).
  cbn [bindR].
  apply directed_between_vertices. exact Hid.
Qed.

Lemma has_disjunction_column_access (accessor col : string)
  (ent : transform_entity) :
  has_disjunction (column_access accessor col ent) = false.
Proof.
  unfold column_access.
  destruct (ent_expr ent) as [x|]; [|reflexivity].
  destruct x; reflexivity.
Qed.

Lemma eq_qual_pure (l r : Node) :
  has_disjunction l = false -> has_disjunction r = false ->
  is_equality (eq_qual l r) = true /\ has_disjunction (eq_qual l r) = false.
Proof.
  intros Hl Hr. split; [reflexivity|].
  cbn [eq_qual has_disjunction]. rewrite Hl, Hr. reflexivity.
Qed.

Lemma join_quals_loop_last (st : State) (prev_edge : option transform_entity)
  (prev_node edge next_node : transform_entity) (quals : list Node) :
  make_path_join_quals_loop st prev_edge prev_node edge [next_node] quals
  = (join_quals <- make_join_condition_for_edge st prev_edge prev_node edge
                     (Some next_node) None ;;
     OK (quals ++ join_quals)%list).
Proof. reflexivity. Qed.

Lemma join_quals_loop_step (st : State) (prev_edge : option transform_entity)
  (prev_node edge next_node next_edge : transform_entity)
  (rest : list transform_entity) (quals : list Node) :
  make_path_join_quals_loop st prev_edge prev_node edge
    (next_node :: next_edge :: rest) quals
  = (join_quals <- make_join_condition_for_edge st prev_edge prev_node edge
                     (Some next_node) (Some next_edge) ;;
     make_path_join_quals_loop st (Some edge) next_node next_edge rest
       (quals ++ join_quals)).
Proof. reflexivity. Qed.

Lemma join_quals_loop_right (st : State) (hops : list hop) :
  id_colnames_agree ->
  edge_columns_distinct ->
  Forall (fun h => hop_dir h = CYPHER_REL_DIR_RIGHT) hops ->
  forall (prev_edge : option transform_entity) (n n' : cypher_node)
         (rel : cypher_relationship) (x x' xe : Node) (quals : list Node),
    rel_dir rel = CYPHER_REL_DIR_RIGHT ->
    make_path_join_quals_loop st prev_edge (vertex_entity n x)
      (edge_entity rel xe)
      (vertex_entity n' x'
         :: flat_map (fun h => [fst h; snd h]) (map hop_entities hops))
      quals
    = OK (quals ++ right_quals (vertex_entity n x)
                     ((edge_entity rel xe, vertex_entity n' x')
                        :: map hop_entities hops))%list.
Proof.
  intros Hid Hcols Hall.
  induction Hall as [|[[rel2 xe2] [n2 x2]] hops Hdir2 Hall IH];
    intros prev_edge n n' rel x x' xe quals Hdir.
  - cbn [map flat_map]. rewrite join_quals_loop_last.
    rewrite (join_condition_right st prev_edge None) by assumption.
    reflexivity.
  - cbn [map flat_map hop_entities fst snd app].
    rewrite join_quals_loop_step.
    rewrite (join_condition_right st prev_edge
               (Some (edge_entity rel2 xe2))) by assumption.
    cbn [bindR].
    rewrite (IH (Some (edge_entity rel xe)) n' n2 rel2 x' x2 xe2) by exact Hdir2.
    cbn [right_quals]. rewrite <- app_assoc. reflexivity.
Qed.

Lemma right_quals_length (v0 : transform_entity)
  (hs : list (transform_entity * transform_entity)) :
  list_length (right_quals v0 hs) = 2 * list_length hs.
Proof.
  revert v0. induction hs as [|[e v] hs IH]; intros v0.
  - reflexivity.
  - cbn [right_quals]. rewrite !list_length_cons, IH. lia.
Qed.

Lemma right_quals_pure (v0 : transform_entity)
  (hs : list (transform_entity * transform_entity)) :
  Forall (fun q => is_equality q = true /\ has_disjunction q = false)
    (right_quals v0 hs).
Proof.
  revert v0. induction hs as [|[e v] hs IH]; intros v0.
  - constructor.
  - cbn [right_quals].
    constructor; [|constructor; [|apply IH]];
      apply eq_qual_pure; apply has_disjunction_column_access.
Qed.

(** C2, amended. For a MATCH path of k right-directed edges whose vertices
    are all part of the join tree, the join qualifiers are a plain list of
    equalities, to be taken conjunctively, with no [OR] anywhere: two per
    edge, [edge.start_id = previous vertex.id] and then
    [edge.end_id = next vertex.id], each operand reading the column of
    the entity it is named after, 2k in all. *)
Theorem right_path_is_conjunction_of_equalities (st : State)
  (n0 : cypher_node) (x0 : Node) (hops : list hop) :
  id_colnames_agree ->
  edge_columns_distinct ->
  Forall (fun h => hop_dir h = CYPHER_REL_DIR_RIGHT) hops ->
  let v0 := vertex_entity n0 x0 in
  let hs := map hop_entities hops in
  make_path_join_quals st (path_entities v0 hs) = OK (right_quals v0 hs)
  /\ list_length (right_quals v0 hs) = 2 * list_length hops
  /\ Forall (fun q => is_equality q = true /\ has_disjunction q = false)
       (right_quals v0 hs).
Proof.
  intros Hid Hcols Hall v0 hs. subst v0 hs. split; [|split].
  - destruct Hall as [|[[rel xe] [n x]] hops Hdir Hall].
    + reflexivity.
    + unfold make_path_join_quals, path_entities.
      cbn [map flat_map hop_entities fst snd app].
      rewrite !list_length_cons.
      assert (Hlen : (1 + (1 + (1 + list_length
                 (flat_map (fun h => [fst h; snd h]) (map hop_entities hops))))
                     <? 3) = false).
      { apply Z.ltb_ge.
        pose proof (list_length_nonneg
          (flat_map (fun h => [fst h; snd h]) (map hop_entities hops))). lia. }
      rewrite Hlen.
      rewrite (join_quals_loop_right st hops Hid Hcols Hall None) by exact Hdir.
      reflexivity.
  - rewrite right_quals_length. unfold list_length. rewrite length_map.
    reflexivity.
  - apply right_quals_pure.
Qed.

(** *** The entities of a MATCH path *)

(** Case analysis on the [match]es and [if]s of a hypothesis, dropping
    the branches that contradict it. *)
Lemma same_graph_refl (s : State) : same_graph s s.
Proof. split; reflexivity. Qed.

Lemma same_graph_trans (s1 s2 s3 : State) :
  same_graph s1 s2 -> same_graph s2 s3 -> same_graph s1 s3.
Proof. intros [H1 H2] [H3 H4]. split; congruence. Qed.

Lemma graph_oid_default_alias (cpstate : cypher_parsestate) :
  graph_oid (snd (get_next_default_alias cpstate)) = graph_oid cpstate.
Proof. reflexivity. Qed.

Lemma addRangeTableEntry_graph (cat : Catalog) (cpstate : cypher_parsestate)
  (rv : RangeVar) (alias : option string) (b : bool) rtindex rte st' :
  addRangeTableEntry (cat, cpstate) rv alias b = OK (rtindex, rte, st') ->
  same_graph (cat, cpstate) st'.
Proof.
  unfold addRangeTableEntry. intros H.
  destruct (parserOpenTable cat rv); try discriminate H.
  cbn [bindR] in H. inv_OK H. split; reflexivity.
Qed.

Lemma transform_cypher_node_new_spec (st : State) (node : cypher_node)
  (tl : list TargetEntry) expr node' tl' st' :
  transform_cypher_node_new st node tl = OK (expr, node', tl', st') ->
  same_graph st st' /\ node_label node' = node_label node
  /\ exists x, expr = Some x.
Proof.
  destruct st as [cat cpstate]. unfold transform_cypher_node_new. intros H.
  destruct (match node_name node with
            | Some n => (n, cpstate)
            | None => get_next_default_alias cpstate
            end) as [name cp1] eqn:Ename.
  assert (Hcp1 : graph_oid cp1 = graph_oid cpstate).
  { destruct (node_name node); inversion Ename; subst; reflexivity. }
  cbn [set_node_name node_label] in H.
  destruct (node_label node) as [label|] eqn:Elabel; try discriminate H.
  destruct (addRangeTableEntry (cat, cp1) _ (Some name) true)
    as [[[rtindex rte] [cat2 cp2]]| |] eqn:Eadd; try discriminate H.
  apply addRangeTableEntry_graph in Eadd. destruct Eadd as [Hc Ho].
  cbn [bindR fst snd] in *.
  destruct (make_vertex_expr _ rtindex rte _) eqn:Eexpr; try discriminate H.
  cbn [bindR] in H. inv_OK H.
  repeat split.
  - cbn. unfold addRTEtoQuery. cbn. congruence.
  - cbn. exact Elabel.
  - eexists. reflexivity.
Qed.

Lemma transform_cypher_node_spec (st : State) (node : cypher_node)
  (tl : list TargetEntry) (out : bool) expr node' tl' st' :
  transform_cypher_node st node tl out = OK (expr, node', tl', st') ->
  same_graph st st'
  /\ label_resolves (fst st) (graph_oid (snd st)) (node_label node').
Proof.
  destruct st as [cat cpstate]. unfold transform_cypher_node. intros H.
  match type of H with
  | bindR ?c _ = _ => destruct c as [node1| |] eqn:Elabel; try discriminate H
  end.
  cbn [bindR] in H.
  assert (Hres : label_resolves cat (graph_oid cpstate) (node_label node1)).
  { destruct (node_label node) as [label|] eqn:El.
    - destruct (search_label_name_graph_cache cat label (graph_oid cpstate))
        as [lcd|] eqn:Es; try discriminate Elabel.
      destruct (lcd_kind lcd); try discriminate Elabel.
      inv_OK Elabel. rewrite El. right. eexists. exact Es.
    - inv_OK Elabel. left. cbn. apply streq_refl. }
  assert (Hnew : forall e n t s,
             transform_cypher_node_new (cat, cpstate) node1 tl = OK (e, n, t, s) ->
             same_graph (cat, cpstate) s
             /\ label_resolves cat (graph_oid cpstate) (node_label n)).
  { intros e n t s Hn. apply transform_cypher_node_new_spec in Hn.
    destruct Hn as (Hg & Hl & _). split; [exact Hg|]. rewrite Hl. exact Hres. }
  destruct (negb out).
  { inv_OK H. split; [apply same_graph_refl | exact Hres]. }
  destruct (node_name node1) as [name|]; [|eapply Hnew; exact H].
  destruct (findTarget tl (Some name)) as [te| |]; try discriminate H.
  cbn [bindR] in H.
  destruct (colNameToVar cpstate name false) as [v| |]; try discriminate H.
  cbn [bindR] in H.
  destruct v as [e|].
  { inv_OK H. split; [apply same_graph_refl | exact Hres]. }
  destruct te as [te|].
  - break_match_in H. inv_OK H. split; [apply same_graph_refl | exact Hres].
  - destruct (is_EXPR_KIND_WHERE (p_expr_kind cpstate)); try discriminate H.
    eapply Hnew; exact H.
Qed.

Lemma transform_cypher_edge_new_spec (st : State) (rel : cypher_relationship)
  (tl : list TargetEntry) expr rel' tl' st' :
  transform_cypher_edge_new st rel tl = OK (expr, rel', tl', st') ->
  same_graph st st'.
Proof.
  destruct st as [cat cpstate]. unfold transform_cypher_edge_new. intros H.
  destruct (match rel_name rel with
            | Some n => (n, cpstate)
            | None => get_next_default_alias cpstate
            end) as [name cp1] eqn:Ename.
  assert (Hcp1 : graph_oid cp1 = graph_oid cpstate).
  { destruct (rel_name rel); inversion Ename; subst; reflexivity. }
  cbn [set_rel_name rel_label] in H.
  destruct (rel_label rel) as [label|]; try discriminate H.
  destruct (addRangeTableEntry (cat, cp1) _ (Some name) true)
    as [[[rtindex rte] [cat2 cp2]]| |] eqn:Eadd; try discriminate H.
  apply addRangeTableEntry_graph in Eadd. destruct Eadd as [Hc Ho].
  cbn [bindR fst snd] in *.
  destruct (make_edge_expr _ rtindex rte _) eqn:Eexpr; try discriminate H.
  cbn [bindR] in H. inv_OK H.
  split; cbn; [reflexivity|]. unfold addRTEtoQuery. cbn. congruence.
Qed.

Lemma transform_cypher_edge_spec (st : State) (rel : cypher_relationship)
  (tl : list TargetEntry) expr rel' tl' st' :
  transform_cypher_edge st rel tl = OK (expr, rel', tl', st') ->
  same_graph st st'.
Proof.
  destruct st as [cat cpstate]. unfold transform_cypher_edge. intros H.
  destruct (rel_varlen rel); try discriminate H.
  match type of H with
  | bindR ?c _ = _ => destruct c as [rel1| |]; try discriminate H
  end.
  cbn [bindR] in H.
  destruct (rel_name rel1) as [name|];
    [|eapply transform_cypher_edge_new_spec; exact H].
  destruct (findTarget tl (Some name)) as [te| |]; try discriminate H.
  cbn [bindR] in H.
  destruct (colNameToVar cpstate name false) as [v| |]; try discriminate H.
  cbn [bindR] in H.
  destruct v as [e|].
  { inv_OK H. apply same_graph_refl. }
  destruct te as [te|].
  - break_match_in H. inv_OK H. apply same_graph_refl.
  - destruct (is_EXPR_KIND_WHERE (p_expr_kind cpstate)); try discriminate H.
    eapply transform_cypher_edge_new_spec; exact H.
Qed.

Lemma register_match_entity_spec (st : State) (ent : transform_entity)
  (props : option Node) st' :
  register_match_entity st ent props = OK st' -> same_graph st st'.
Proof.
  destruct st as [cat cpstate]. unfold register_match_entity. intros H.
  destruct props.
  - match type of H with
    | bindR ?c _ = _ => destruct c; try discriminate H
    end.
    cbn [bindR] in H. injection H as <-. split; reflexivity.
  - injection H as <-. split; reflexivity.
Qed.

Lemma entity_for_same_graph (s s' : State) (elem : path_element)
  (ent : transform_entity) :
  same_graph s s' ->
  entity_for (fst s') (graph_oid (snd s')) elem ent ->
  entity_for (fst s) (graph_oid (snd s)) elem ent.
Proof. intros [-> ->]. exact (fun H => H). Qed.

Lemma transform_match_entities_loop_spec (p : cypher_path)
  (elems : list path_element) :
  forall (st : State) (tl : list TargetEntry) (i : Z)
         (ents0 : list transform_entity) ents tl' st',
    transform_match_entities_loop st tl p elems i ents0 = OK (ents, tl', st') ->
    same_graph st st'
    /\ exists new,
         ents = (ents0 ++ new)%list
         /\ Forall2 (entity_for (fst st) (graph_oid (snd st))) elems new.
Proof.
  induction elems as [|elem rest IH]; intros st tl i ents0 ents tl' st' H.
  - cbn in H. inv_OK H. split; [apply same_graph_refl|].
    exists []. rewrite app_nil_r. split; [reflexivity | constructor].
  - cbn [transform_match_entities_loop] in H.
    destruct (Z.rem i 2 =? 0).
    + destruct elem as [node|rel]; try discriminate H.
      destruct (transform_cypher_node st node tl (INCLUDE_NODE_IN_JOIN_TREE p node))
        as [[[[expr node'] tl1] st1]| |] eqn:En; try discriminate H.
      cbn [bindR] in H.
      apply transform_cypher_node_spec in En. destruct En as [Hg1 Hres].
      destruct (register_match_entity st1 _ (node_props node'))
        as [st2| |] eqn:Er; try discriminate H.
      cbn [bindR] in H.
      apply register_match_entity_spec in Er.
      pose proof (same_graph_trans _ _ _ Hg1 Er) as Hg2.
      apply IH in H. destruct H as (Hg3 & new & -> & Hall).
      split; [eapply same_graph_trans; eassumption|].
      exists (make_transform_entity ENT_VERTEX (elem_node node') expr :: new).
      split; [rewrite <- app_assoc; reflexivity|].
      constructor.
      * cbn [entity_for]. unfold wf_vertex_entity.
        split; [reflexivity|]. split; [eexists; reflexivity|].
        split; [destruct expr; reflexivity|]. exact Hres.
      * eapply Forall2_impl; [|exact Hall].
        intros a b. apply entity_for_same_graph. exact Hg2.
    + destruct elem as [node|rel]; try discriminate H.
      destruct (transform_cypher_edge st rel tl)
        as [[[[expr rel'] tl1] st1]| |] eqn:En; try discriminate H.
      cbn [bindR] in H.
      apply transform_cypher_edge_spec in En.
      destruct (register_match_entity st1 _ (rel_props rel'))
        as [st2| |] eqn:Er; try discriminate H.
      cbn [bindR] in H.
      apply register_match_entity_spec in Er.
      pose proof (same_graph_trans _ _ _ En Er) as Hg2.
      apply IH in H. destruct H as (Hg3 & new & -> & Hall).
      split; [eapply same_graph_trans; eassumption|].
      exists (make_transform_entity ENT_EDGE (elem_rel rel') (Some expr) :: new).
      split; [rewrite <- app_assoc; reflexivity|].
      constructor.
      * cbn [entity_for]. unfold wf_edge_entity.
        split; [reflexivity|]. split; [eexists; reflexivity|].
        split; [eexists; reflexivity | reflexivity].
      * eapply Forall2_impl; [|exact Hall].
        intros a b. apply entity_for_same_graph. exact Hg2.
Qed.

Lemma transform_match_entities_spec (st : State) (tl : list TargetEntry)
  (p : cypher_path) ents tl' st' :
  transform_match_entities st tl p = OK (ents, tl', st') ->
  same_graph st st'
  /\ Forall2 (entity_for (fst st) (graph_oid (snd st))) (path p) ents.
Proof.
  unfold transform_match_entities. intros H.
  apply transform_match_entities_loop_spec in H.
  destruct H as (Hg & new & -> & Hall). split; assumption.
Qed.

(** *** Join qualifiers of well-formed entities *)

Lemma make_qual_wf_edge (ent : transform_entity) (col : string) :
  wf_edge_entity ent ->
  col = AG_EDGE_COLNAME_ID \/ col = AG_EDGE_COLNAME_START_ID
  \/ col = AG_EDGE_COLNAME_END_ID ->
  exists q, make_qual ent col = OK q.
Proof.
  intros (Ht & _ & [x Hx] & _) Hcol. unfold make_qual.
  rewrite Hx, Ht.
  destruct (is_Var x); [|eexists; reflexivity].
  unfold get_accessor_function_name.
  destruct Hcol as [-> | [-> | ->]].
  - rewrite streq_refl. eexists. reflexivity.
  - destruct (streq AG_EDGE_COLNAME_ID AG_EDGE_COLNAME_START_ID);
      [eexists; reflexivity|]. rewrite streq_refl. eexists. reflexivity.
  - destruct (streq AG_EDGE_COLNAME_ID AG_EDGE_COLNAME_END_ID);
      [eexists; reflexivity|].
    destruct (streq AG_EDGE_COLNAME_START_ID AG_EDGE_COLNAME_END_ID);
      [eexists; reflexivity|]. rewrite streq_refl. eexists. reflexivity.
Qed.

Lemma make_qual_wf_edge_id (ent : transform_entity) :
  wf_edge_entity ent ->
  make_qual ent AG_EDGE_COLNAME_ID = OK (edge_id ent).
Proof.
  intros (Ht & _ & [x Hx] & _).
  exact (proj1 (make_qual_of_edge ent x Ht Hx)).
Qed.

Lemma join_to_entity_ok (cat : Catalog) (oid : Oid) (ent : transform_entity)
  (qual : Node) (side : transform_entity_join_side) :
  id_colnames_agree ->
  wf_vertex_entity cat oid ent \/ wf_edge_entity ent ->
  in_join_tree ent = true ->
  exists q, join_to_entity ent qual side = OK [q] /\ join_qual_shape q = true.
Proof.
  intros Hid [Hv | He] Htree.
  - destruct Hv as (Ht & _ & Hin & _).
    unfold join_to_entity. rewrite Ht.
    rewrite Htree in Hin.
    destruct (ent_expr ent) as [x|] eqn:Ex; try discriminate Hin.
    unfold make_qual. rewrite Ex, Ht.
    destruct (is_Var x).
    + unfold get_accessor_function_name. rewrite Hid, streq_refl.
      cbn [bindR]. eexists. split; reflexivity.
    + cbn [bindR]. eexists. split; reflexivity.
  - pose proof He as (Ht & [r Hr] & _ & _).
    unfold join_to_entity, make_edge_quals. rewrite Ht, Hr.
    cbn [union_dir bindR].
    destruct (make_qual_wf_edge ent AG_EDGE_COLNAME_START_ID He)
      as [qs Hqs]; [auto|].
    destruct (make_qual_wf_edge ent AG_EDGE_COLNAME_END_ID He)
      as [qe Hqe]; [auto|].
    destruct side; cbv iota beta;
      destruct (rel_dir r);
      rewrite ?Hqs, ?Hqe;
      cbn; eexists; split; reflexivity.
Qed.

Lemma filter_ok (cat : Catalog) (cpstate : cypher_parsestate) (qual : Node)
  (label : option string) :
  label_resolves cat (graph_oid cpstate) label ->
  exists qs,
    match label with
    | Some l =>
        if negb (IS_DEFAULT_LABEL_VERTEX label)
        then q <- filter_vertices_on_label_id (cat, cpstate) qual l ;; OK [q]
        else OK []
    | None => OK []
    end = OK qs
    /\ Forall (fun q => join_qual_shape q = true) qs.
Proof.
  intros Hres. destruct label as [l|].
  - destruct (IS_DEFAULT_LABEL_VERTEX (Some l)) eqn:Ed; cbn [negb].
    + exists []. split; [reflexivity | constructor].
    + destruct Hres as [Hd | [lcd Hs]]; [congruence|].
      unfold filter_vertices_on_label_id. rewrite Hs. cbn [bindR].
      eexists. split; [reflexivity|]. repeat constructor.
  - exists []. split; [reflexivity | constructor].
Qed.

Lemma directed_ok (cat : Catalog) (cpstate : cypher_parsestate)
  (prev_entity next_entity : transform_entity) (prev_qual next_qual : Node)
  (prev_filter next_filter : option string) :
  id_colnames_agree ->
  wf_vertex_entity cat (graph_oid cpstate) prev_entity \/ wf_edge_entity prev_entity ->
  wf_vertex_entity cat (graph_oid cpstate) next_entity \/ wf_edge_entity next_entity ->
  label_resolves cat (graph_oid cpstate) prev_filter ->
  label_resolves cat (graph_oid cpstate) next_filter ->
  exists qs,
    make_directed_edge_join_conditions (cat, cpstate) prev_entity next_entity
      prev_qual next_qual prev_filter next_filter = OK qs
    /\ Forall (fun q => join_qual_shape q = true) qs.
Proof.
  intros Hid Hp Hn Hpf Hnf. unfold make_directed_edge_join_conditions.
  assert (H1 : exists qs,
             (if in_join_tree prev_entity
              then join_to_entity prev_entity prev_qual JOIN_SIDE_LEFT
              else OK []) = OK qs
             /\ Forall (fun q => join_qual_shape q = true) qs).
  { destruct (in_join_tree prev_entity) eqn:Et.
    - destruct (join_to_entity_ok cat _ prev_entity prev_qual JOIN_SIDE_LEFT
                  Hid Hp Et) as (q & -> & Hq).
      eexists. split; [reflexivity|]. repeat constructor. exact Hq.
    - exists []. split; [reflexivity | constructor]. }
  assert (H2 : exists qs,
             (if in_join_tree next_entity
              then join_to_entity next_entity next_qual JOIN_SIDE_RIGHT
              else OK []) = OK qs
             /\ Forall (fun q => join_qual_shape q = true) qs).
  { destruct (in_join_tree next_entity) eqn:Et.
    - destruct (join_to_entity_ok cat _ next_entity next_qual JOIN_SIDE_RIGHT
                  Hid Hn Et) as (q & -> & Hq).
      eexists. split; [reflexivity|]. repeat constructor. exact Hq.
    - exists []. split; [reflexivity | constructor]. }
  destruct H1 as (qs1 & -> & F1). destruct H2 as (qs2 & -> & F2).
  destruct (filter_ok cat cpstate prev_qual prev_filter Hpf) as (qs3 & -> & F3).
  destruct (filter_ok cat cpstate next_qual next_filter Hnf) as (qs4 & -> & F4).
  cbn [bindR]. eexists. split; [reflexivity|].
  repeat (apply Forall_app; split); assumption.
Qed.

Lemma join_condition_ok (cat : Catalog) (cpstate : cypher_parsestate)
  (prev_edge next_edge : option transform_entity)
  (pv e nv : transform_entity) :
  id_colnames_agree ->
  wf_vertex_entity cat (graph_oid cpstate) pv ->
  wf_edge_entity e ->
  wf_vertex_entity cat (graph_oid cpstate) nv ->
  (forall pe, prev_edge = Some pe -> wf_edge_entity pe) ->
  (forall ne, next_edge = Some ne -> wf_edge_entity ne) ->
  exists qs,
    make_join_condition_for_edge (cat, cpstate) prev_edge pv e (Some nv)
      next_edge = OK qs
    /\ Forall (fun q => join_qual_shape q = true) qs.
Proof.
  intros Hid Hpv He Hnv Hpe Hne.
  assert (Hpl : label_resolves cat (graph_oid cpstate)
                  (if negb (in_join_tree pv)
                   then union_label (entity pv) else None)).
  { destruct (negb (in_join_tree pv)); [apply Hpv | exact I]. }
  assert (Hnl : label_resolves cat (graph_oid cpstate)
                  match next_edge with
                  | None => if negb (in_join_tree nv)
                            then union_label (entity nv) else None
                  | Some _ => None
                  end).
  { destruct next_edge; [exact I|].
    destruct (negb (in_join_tree nv)); [apply Hnv | exact I]. }
  assert (Hpj : let x := match prev_edge with
                         | Some pe => if negb (in_join_tree pv) then pe else pv
                         | None => pv
                         end in
                wf_vertex_entity cat (graph_oid cpstate) x \/ wf_edge_entity x).
  { destruct prev_edge as [pe|]; cbv zeta; [|left; exact Hpv].
    destruct (negb (in_join_tree pv)); [right; apply Hpe; reflexivity|].
    left; exact Hpv. }
  assert (Hnj : let x := match next_edge with
                         | Some ne => if negb (in_join_tree nv) then ne else nv
                         | None => nv
                         end in
                wf_vertex_entity cat (graph_oid cpstate) x \/ wf_edge_entity x).
  { destruct next_edge as [ne|]; cbv zeta; [|left; exact Hnv].
    destruct (negb (in_join_tree nv)); [right; apply Hne; reflexivity|].
    left; exact Hnv. }
  cbv zeta in Hpj, Hnj.
  unfold make_join_condition_for_edge.
  pose proof He as (_ & [r Hr] & _ & _). rewrite Hr.
  cbn [union_dir bindR].
  destruct (make_qual_wf_edge e AG_EDGE_COLNAME_START_ID He)
    as [qs ->]; [auto|].
  destruct (make_qual_wf_edge e AG_EDGE_COLNAME_END_ID He)
    as [qe ->]; [auto|].
  destruct (rel_dir r); cbn [bindR].
  - apply directed_ok; auto.
  - match goal with
    | |- context [make_directed_edge_join_conditions ?s ?a ?b ?c ?d ?f ?g] =>
        destruct (directed_ok cat cpstate a b c d f g Hid Hpj Hnj Hpl Hnl)
          as (qs1 & -> & F1)
    end.
    cbn [bindR].
    match goal with
    | |- context [make_directed_edge_join_conditions ?s ?a ?b ?c ?d ?f ?g] =>
        destruct (directed_ok cat cpstate a b c d f g Hid Hpj Hnj Hpl Hnl)
          as (qs2 & -> & F2)
    end.
    cbn [bindR]. eexists. split; [reflexivity|]. repeat constructor.
  - apply directed_ok; auto.
Qed.

Lemma join_quals_loop_ok (cat : Catalog) (cpstate : cypher_parsestate)
  (hops : list (transform_entity * transform_entity)) :
  id_colnames_agree ->
  Forall (fun h => wf_edge_entity (fst h)
                   /\ wf_vertex_entity cat (graph_oid cpstate) (snd h)) hops ->
  forall (prev_edge : option transform_entity) (pv e nv : transform_entity)
         (quals : list Node),
    wf_vertex_entity cat (graph_oid cpstate) pv ->
    wf_edge_entity e ->
    wf_vertex_entity cat (graph_oid cpstate) nv ->
    (forall pe, prev_edge = Some pe -> wf_edge_entity pe) ->
    Forall (fun q => join_qual_shape q = true) quals ->
    exists qs,
      make_path_join_quals_loop (cat, cpstate) prev_edge pv e
        (nv :: flat_map (fun h => [fst h; snd h]) hops) quals = OK qs
      /\ Forall (fun q => join_qual_shape q = true) qs.
Proof.
  intros Hid Hall.
  induction Hall as [|[e2 v2] hops [He2 Hv2] Hall IH];
    intros prev_edge pv e nv quals Hpv He Hnv Hpe Hq.
  - cbn [flat_map]. rewrite join_quals_loop_last.
    destruct (join_condition_ok cat cpstate prev_edge None pv e nv)
      as (qs & -> & F); auto; [discriminate|].
    cbn [bindR]. eexists. split; [reflexivity|].
    apply Forall_app. split; assumption.
  - cbn [flat_map fst snd app]. rewrite join_quals_loop_step.
    destruct (join_condition_ok cat cpstate prev_edge (Some e2) pv e nv)
      as (qs & -> & F); auto.
    { intros ne Hne. injection Hne as <-. exact He2. }
    cbn [bindR]. apply IH; auto.
    + intros pe Hpe'. injection Hpe' as <-. exact He.
    + apply Forall_app. split; assumption.
Qed.

Lemma make_path_join_quals_ok (cat : Catalog) (cpstate : cypher_parsestate)
  (v0 : transform_entity) (hops : list (transform_entity * transform_entity)) :
  id_colnames_agree ->
  wf_vertex_entity cat (graph_oid cpstate) v0 ->
  Forall (fun h => wf_edge_entity (fst h)
                   /\ wf_vertex_entity cat (graph_oid cpstate) (snd h)) hops ->
  exists qs,
    make_path_join_quals (cat, cpstate) (path_entities v0 hops) = OK qs
    /\ Forall (fun q => join_qual_shape q = true) qs.
Proof.
  intros Hid Hv0 Hall. unfold make_path_join_quals, path_entities.
  destruct Hall as [|[e v] hops [He Hv] Hall].
  - exists []. split; [reflexivity | constructor].
  - cbn [flat_map fst snd app]. rewrite !list_length_cons.
    assert (Hlen : (1 + (1 + (1 + list_length
                      (flat_map (fun h => [fst h; snd h]) hops))) <? 3) = false).
    { apply Z.ltb_ge.
      pose proof (list_length_nonneg
                    (flat_map (fun h : transform_entity * transform_entity =>
                                 [fst h; snd h]) hops)). lia. }
    rewrite Hlen.
    apply join_quals_loop_ok; auto; discriminate.
Qed.

(** *** From the shape of the path to the shape of the entity list *)

Lemma entities_of_hops (cat : Catalog) (oid : Oid)
  (hops : list (cypher_relationship * cypher_node)) :
  forall ents,
    Forall2 (entity_for cat oid)
      (flat_map (fun h => [elem_rel (fst h); elem_node (snd h)]) hops) ents ->
    exists ehops,
      ents = flat_map (fun h => [fst h; snd h]) ehops
      /\ Forall (fun h => wf_edge_entity (fst h)
                          /\ wf_vertex_entity cat oid (snd h)) ehops
      /\ List.length ehops = List.length hops.
Proof.
  induction hops as [|[r n] hops IH]; intros ents H.
  - inversion H; subst. exists []. repeat split. constructor.
  - cbn [flat_map fst snd app] in H.
    inversion H as [|? e ? ents1 He H1]; subst.
    inversion H1 as [|? v ? ents2 Hv H2]; subst.
    destruct (IH _ H2) as (ehops & -> & Hall & Hlen).
    exists ((e, v) :: ehops). split; [reflexivity|]. split.
    + constructor; [split; assumption | exact Hall].
    + cbn [List.length]. rewrite Hlen. reflexivity.
Qed.

Lemma entities_of_path (cat : Catalog) (oid : Oid) (n0 : cypher_node)
  (hops : list (cypher_relationship * cypher_node)) (ents : list transform_entity) :
  Forall2 (entity_for cat oid) (path_of n0 hops) ents ->
  exists v0 ehops,
    ents = path_entities v0 ehops
    /\ wf_vertex_entity cat oid v0
    /\ Forall (fun h => wf_edge_entity (fst h)
                        /\ wf_vertex_entity cat oid (snd h)) ehops
    /\ List.length ehops = List.length hops.
Proof.
  unfold path_of. intros H.
  inversion H as [|? v0 ? ents1 Hv0 H1]; subst.
  destruct (entities_of_hops cat oid hops _ H1) as (ehops & -> & Hall & Hlen).
  exists v0, ehops.
  split; [reflexivity|]. split; [exact Hv0|]. split; assumption.
Qed.

Lemma prevent_duplicate_edges_ok (cat : Catalog) (oid : Oid)
  (elems : list path_element) (ents : list transform_entity) :
  Forall2 (entity_for cat oid) elems ents ->
  prevent_duplicate_edges_loop ents = OK (edge_ids ents)
  /\ list_length (edge_ids ents) = num_edges elems
  /\ list_length ents = list_length elems.
Proof.
  unfold edge_ids, num_edges.
  induction 1 as [|elem ent elems ents Hent Hall (IH1 & IH2 & IH3)].
  - repeat split.
  - rewrite !(list_length_cons _ ents), !(list_length_cons _ elems), IH3.
    split; [|split; [|reflexivity]].
    + destruct elem as [n|r]; cbn [entity_for] in Hent.
      * destruct Hent as (Ht & _). cbn [prevent_duplicate_edges_loop filter].
        rewrite Ht. cbn [is_ENT_EDGE]. exact IH1.
      * pose proof Hent as (Ht & _). cbn [prevent_duplicate_edges_loop filter].
        rewrite Ht. cbn [is_ENT_EDGE map].
        rewrite (make_qual_wf_edge_id ent Hent).
        rewrite IH1. reflexivity.
    + destruct elem as [n|r]; cbn [entity_for] in Hent.
      * destruct Hent as (Ht & _). cbn [filter is_elem_rel].
        rewrite Ht. cbn [is_ENT_EDGE]. exact IH2.
      * destruct Hent as (Ht & _). cbn [filter is_elem_rel].
        rewrite Ht. cbn [is_ENT_EDGE map].
        rewrite !list_length_cons, IH2. reflexivity.
Qed.

Lemma num_edges_path_of (n0 : cypher_node)
  (hops : list (cypher_relationship * cypher_node)) :
  num_edges (path_of n0 hops) = list_length hops
  /\ list_length (path_of n0 hops) = 1 + 2 * list_length hops.
Proof.
  unfold num_edges, path_of. cbn [filter is_elem_rel].
  rewrite list_length_cons.
  induction hops as [|[r n] hops [IH1 IH2]].
  - split; reflexivity.
  - cbn [flat_map fst snd app filter is_elem_rel].
    rewrite !list_length_cons. split; lia.
Qed.

Lemma shape_not_uniqueness (q : Node) :
  join_qual_shape q = true -> is_edge_uniqueness_qual q = false.
Proof. destruct q; cbn; congruence. Qed.

(** What [transform_match_path] returns for a well-formed path whose
    elements compile. *)
Lemma transform_match_path_run (st : State) (tl : list TargetEntry)
  (p : cypher_path) (ents : list transform_entity) (tl1 : list TargetEntry)
  (st1 : State) :
  id_colnames_agree ->
  well_formed_path (path p) ->
  transform_match_entities st tl p = OK (ents, tl1, st1) ->
  var_name p = None \/ 3 <= list_length (path p) ->
  exists join_quals st2,
    transform_match_path st tl p
    = OK ((join_quals
           ++ (if 2 <=? num_edges (path p)
               then [edge_uniqueness_qual (edge_ids ents)] else []))%list,
          match var_name p with
          | Some _ =>
              (tl1 ++ [path_variable_entry p ents (p_next_resno (snd st1))])%list
          | None => tl1
          end,
          st2)
    /\ make_path_join_quals st2 ents = OK join_quals
    /\ Forall (fun q => join_qual_shape q = true) join_quals.
Proof.
  intros Hid (n0 & hops & Hpath) Hents Hnamed.
  pose proof (transform_match_entities_spec _ _ _ _ _ _ Hents) as [Hg Hall].
  destruct (prevent_duplicate_edges_ok _ _ _ _ Hall) as (Hdup & Hids & Hlen).
  rewrite Hpath in Hall, Hnamed, Hids, Hlen.
  destruct (num_edges_path_of n0 hops) as [Hne Hpl].
  destruct (entities_of_path _ _ _ _ _ Hall) as (v0 & ehops & He & Hv0 & Hh & Hl).
  destruct st1 as [cat1 cp1]. destruct Hg as [Hcat Hoid]. cbn [fst snd] in *.
  assert (Hpv : exists cp2,
             (match var_name p with
              | Some _ =>
                  '(path_te, st) <-
                     transform_match_create_path_variable (cat1, cp1) p ents ;;
                  OK ((tl1 ++ [path_te])%list, st)
              | None => OK (tl1, (cat1, cp1))
              end)
             = OK (match var_name p with
                   | Some _ =>
                       (tl1 ++ [path_variable_entry p ents (p_next_resno cp1)])%list
                   | None => tl1
                   end, (cat1, cp2))
             /\ graph_oid cp2 = graph_oid cp1).
  { destruct (var_name p) as [name|] eqn:En.
    - destruct Hnamed as [Hn | Hn]; [discriminate|].
      unfold transform_match_create_path_variable.
      assert (Hlt : (list_length ents <? 3) = false)
        by (apply Z.ltb_ge; lia).
      rewrite Hlt. cbn [bindR]. eexists.
      split; [unfold path_variable_entry; rewrite En; reflexivity|].
      reflexivity.
    - eexists. split; reflexivity. }
  destruct Hpv as (cp2 & Hpv & Hoid2).
  assert (Hjq : exists qs,
             make_path_join_quals (cat1, cp2) ents = OK qs
             /\ Forall (fun q => join_qual_shape q = true) qs).
  { rewrite He. apply make_path_join_quals_ok; try assumption.
    - rewrite Hcat, Hoid2, Hoid. exact Hv0.
    - rewrite Hcat, Hoid2, Hoid. exact Hh. }
  destruct Hjq as (qs & Hqs & Hshape).
  assert (Hgt : (list_length ents >? 3) = (2 <=? num_edges (path p))).
  { rewrite Hpath, Hne.
    destruct (2 <=? list_length hops) eqn:E2.
    - apply Z.leb_le in E2. apply Z.gtb_lt. lia.
    - apply Z.leb_gt in E2. rewrite Z.gtb_ltb. apply Z.ltb_ge. lia. }
  exists qs, (cat1, cp2).
  split; [|split; [exact Hqs | exact Hshape]].
  unfold transform_match_path. rewrite Hents. cbn [bindR].
  match goal with
  | |- bindR ?c _ = _ =>
      match type of Hpv with
      | _ = ?rhs => assert (Hc : c = rhs) by exact Hpv; rewrite Hc
      end
  end.
  cbn [bindR]. rewrite Hqs. cbn [bindR].
  rewrite Hgt. unfold prevent_duplicate_edges. rewrite Hdup. cbn [bindR].
  destruct (2 <=? num_edges (path p)); [reflexivity|].
  rewrite app_nil_r. reflexivity.
Qed.

(** C3. For a well-formed MATCH path (a vertex followed by (edge, vertex)
    pairs) whose elements compile, the path compiles (if it is named, it
    has to have at least three elements) and its qualifiers are the join
    qualifiers followed, exactly when the path has at least two edges, by
    one call of [_ag_enforce_edge_uniqueness] whose arguments are the
    identity expressions of all edges of the path, one per edge, each
    reading the id of the edge it stands for ([edge_id]); none of the
    join qualifiers is such a call, so a path with no or one edge gets
    none. *)
Theorem duplicate_edge_qual_iff_two_edges (st : State)
  (tl : list TargetEntry) (p : cypher_path)
  (ents : list transform_entity) (tl1 : list TargetEntry) (st1 : State) :
  id_colnames_agree ->
  well_formed_path (path p) ->
  transform_match_entities st tl p = OK (ents, tl1, st1) ->
  var_name p = None \/ 3 <= list_length (path p) ->
  exists join_quals tl2 st2,
    transform_match_path st tl p
    = OK ((join_quals
           ++ (if 2 <=? num_edges (path p)
               then [edge_uniqueness_qual (edge_ids ents)] else []))%list,
          tl2, st2)
    /\ make_path_join_quals st2 ents = OK join_quals
    /\ Forall (fun q => is_edge_uniqueness_qual q = false) join_quals
    /\ prevent_duplicate_edges ents = OK (edge_uniqueness_qual (edge_ids ents))
    /\ list_length (edge_ids ents) = num_edges (path p).
Proof.
  intros Hid Hwf Hents Hnamed.
  destruct (transform_match_path_run st tl p ents tl1 st1 Hid Hwf Hents Hnamed)
    as (qs & st2 & Hrun & Hqs & Hshape).
  pose proof (transform_match_entities_spec _ _ _ _ _ _ Hents) as [_ Hall].
  destruct (prevent_duplicate_edges_ok _ _ _ _ Hall) as (Hdup & Hids & _).
  exists qs. eexists. exists st2.
  split; [exact Hrun|]. split; [exact Hqs|]. split; [|split].
  - eapply Forall_impl; [|exact Hshape]. intros q. apply shape_not_uniqueness.
  - unfold prevent_duplicate_edges. rewrite Hdup. reflexivity.
  - exact Hids.
Qed.

(** *** Variables bound earlier in the same clause *)




(** *** Named paths *)

Lemma create_path_loop_length (in_path : bool) (elems : list path_element) :
  forall (st : State) (tl : list TargetEntry) (tp0 : list cypher_target_node)
         tp tl' st',
    transform_cypher_create_path_loop st tl in_path elems tp0 = OK (tp, tl', st') ->
    list_length tp = list_length tp0 + list_length elems.
Proof.
  induction elems as [|elem rest IH]; intros st tl tp0 tp tl' st' H.
  - cbn in H. inv_OK H. unfold list_length. cbn [List.length]. lia.
  - cbn [transform_cypher_create_path_loop] in H.
    destruct elem as [node|edge].
    + destruct (transform_create_cypher_node st tl node)
        as [[[[rel node'] tl1] st1]| |]; try discriminate H.
      cbn [bindR] in H. apply IH in H.
      rewrite H, list_length_app. unfold list_length. cbn [List.length]. lia.
    + destruct (transform_create_cypher_edge st tl edge)
        as [[[rel tl1] st1]| |]; try discriminate H.
      cbn [bindR] in H. apply IH in H.
      rewrite H, list_length_app. unfold list_length. cbn [List.length]. lia.
Qed.

(** C5, amended. A path that carries a variable needs at least three
    elements (two vertices and one edge), in MATCH and in CREATE alike.
    In MATCH, building the path variable fails with the "paths consist of
    alternating vertices and edges" error exactly when there are fewer
    than three entities, and otherwise yields the output column of the
    variable over the expressions of all entities, in order; so a named
    path of fewer than three elements fails once its elements compiled,
    and a well-formed one of at least three compiles with that column
    appended. In CREATE, once the elements of a named path compiled, the
    path fails with the same error exactly when it has fewer than three
    elements, and otherwise gets a placeholder column of the variable's
    name appended, whose number the plan records. *)
Theorem named_path_needs_three_elements :
  (forall (st : State) (p : cypher_path) (ents : list transform_entity),
     transform_match_create_path_variable st p ents
     = if list_length ents <? 3
       then ERROR (short_path_error p)
       else OK (path_variable_entry p ents (p_next_resno (snd st)),
                (fst st, set_p_next_resno (p_next_resno (snd st) + 1) (snd st))))
  /\ (forall (st : State) (tl : list TargetEntry) (p : cypher_path)
             (name : string) ents tl1 st1,
        var_name p = Some name ->
        transform_match_entities st tl p = OK (ents, tl1, st1) ->
        (list_length (path p) < 3 ->
         transform_match_path st tl p = ERROR (short_path_error p))
        /\ (3 <= list_length (path p) -> id_colnames_agree ->
            well_formed_path (path p) ->
            exists quals st2,
              transform_match_path st tl p
              = OK (quals,
                    (tl1 ++ [path_variable_entry p ents (p_next_resno (snd st1))])%list,
                    st2)))
  /\ (forall (st : State) (tl : list TargetEntry) (p : cypher_path)
             (name : string) tp tl1 st1,
        var_name p = Some name ->
        transform_cypher_create_path_loop st tl true (path p) [] = OK (tp, tl1, st1) ->
        transform_cypher_create_path st tl p
        = if list_length (path p) <? 3
          then ERROR (short_path_error p)
          else OK (mk_cypher_create_path tp
                     (resno (fst (placeholder_target_entry (snd st1) (Some name)))),
                   (tl1 ++ [fst (placeholder_target_entry (snd st1) (Some name))])%list,
                   (fst st1, snd (placeholder_target_entry (snd st1) (Some name))))).
Proof.
  split; [|split].
  - intros [cat cpstate] p ents. unfold transform_match_create_path_variable.
    destruct (list_length ents <? 3); reflexivity.
  - intros st tl p name ents tl1 st1 Hname Hents. split.
    + intros Hshort.
      pose proof (transform_match_entities_spec _ _ _ _ _ _ Hents) as [_ Hall].
      destruct (prevent_duplicate_edges_ok _ _ _ _ Hall) as (_ & _ & Hlen).
      unfold transform_match_path. rewrite Hents. cbn [bindR]. rewrite Hname.
      destruct st1 as [cat1 cp1]. unfold transform_match_create_path_variable.
      assert (Hlt : (list_length ents <? 3) = true) by (apply Z.ltb_lt; lia).
      rewrite Hlt. reflexivity.
    + intros Hlong Hid Hwf.
      destruct (transform_match_path_run st tl p ents tl1 st1 Hid Hwf Hents
                  (or_intror Hlong)) as (qs & st2 & Hrun & _).
      rewrite Hname in Hrun. do 2 eexists. exact Hrun.
  - intros st tl p name tp tl1 st1 Hname Hloop.
    pose proof (create_path_loop_length _ _ _ _ _ _ _ _ Hloop) as Hlen.
    unfold transform_cypher_create_path. rewrite Hname.
    cbn [is_Some]. rewrite Hloop. cbn [bindR].
    replace (list_length tp) with (list_length (path p))
      by (rewrite Hlen; unfold list_length; cbn [List.length]; lia).
    destruct (list_length (path p) <? 3); [reflexivity|].
    destruct st1 as [cat1 cp1]. reflexivity.
Qed.

(** *** The columns of the predecessor *)

Lemma expand_subquery_columns (tl : list TargetEntry) :
  forall (names : list string) (rtindex varattno next_resno : Z),
    subquery_colnames tl = OK names ->
    expandRelAttrs_loop (expandRTE_subquery tl names rtindex varattno) next_resno
    = (carried_columns names rtindex varattno next_resno,
       next_resno + list_length names).
Proof.
  induction tl as [|te tl IH]; intros names rtindex varattno next_resno H.
  - cbn in H. inv_OK H. cbn. f_equal. unfold list_length. cbn. lia.
  - cbn [subquery_colnames] in H. cbn [expandRTE_subquery].
    destruct (resjunk te); [apply IH; exact H|].
    destruct (resname te) as [n|]; try discriminate H.
    destruct (subquery_colnames tl) as [names'| |] eqn:E; try discriminate H.
    cbn [bindR] in H. inv_OK H.
    cbn [expandRelAttrs_loop carried_columns].
    rewrite (IH names' rtindex (varattno + 1) (next_resno + 1) eq_refl).
    rewrite list_length_cons. f_equal. lia.
Qed.

Lemma expand_prev_clause_fresh (transform : transform_method)
  (pc : cypher_clause) (cat : Catalog) (pstate : cypher_parsestate) :
  p_rtable pstate = [] ->
  expand_prev_clause transform pc (cat, pstate)
  = ('(q, (cat', child)) <- transform pc (cat, subquery_child pstate) ;;
     names <- subquery_colnames (targetList q) ;;
     OK (carried_columns names 1 0 (p_next_resno pstate),
         (cat', after_prev_clause pstate q names child))).
Proof.
  intros Hrt. destruct pstate. cbn [p_rtable] in Hrt. subst.
  unfold expand_prev_clause, transform_cypher_clause_as_subquery,
    analyze_cypher_clause, after_prev_clause, prev_clause_rte,
    subquery_child, subquery_parent.
  destruct p_expr_kind0; cbn;
    (match goal with
     | |- context [transform pc ?s] =>
         destruct (transform pc s) as [[q [cat' child]]| |];
         [|reflexivity|reflexivity]
     end);
    cbn; unfold addRangeTableEntryForSubquery;
    (destruct (subquery_colnames (targetList q)) as [names| |] eqn:En;
     [|reflexivity|reflexivity]);
    cbn; unfold expandRelAttrs, expandRTE; cbn;
    rewrite (expand_subquery_columns (targetList q) names 1 0 _ En);
    reflexivity.
Qed.

Lemma after_prev_clause_fields (pstate : cypher_parsestate) (q : Query)
  (names : list string) (child : cypher_parsestate) :
  p_next_resno (after_prev_clause pstate q names child)
  = p_next_resno pstate + list_length names
  /\ graph_name (after_prev_clause pstate q names child) = graph_name pstate
  /\ graph_oid (after_prev_clause pstate q names child) = graph_oid pstate.
Proof.
  destruct pstate. unfold after_prev_clause, subquery_parent.
  destruct p_expr_kind0; repeat split.
Qed.

Lemma get_target_entry_resno_signature (tl : list TargetEntry)
  (name : option string) pos tl' :
  get_target_entry_resno tl name = OK (pos, tl') ->
  map column_signature tl' = map column_signature tl.
Proof.
  revert pos tl'. induction tl as [|te tl IH]; intros pos tl' H.
  - cbn in H. inv_OK H. reflexivity.
  - cbn [get_target_entry_resno] in H.
    destruct (resname te) as [n|]; try discriminate H.
    destruct name as [m|]; try discriminate H.
    destruct (streq n m).
    + inv_OK H. reflexivity.
    + destruct (get_target_entry_resno tl (Some m)) as [[r rest']| |] eqn:E;
        try discriminate H.
      cbn [bindR] in H. inv_OK H. cbn [map]. f_equal. eapply IH. reflexivity.
Qed.

(** Looking a name up among the carried columns, also after some of
    their expressions were wrapped. *)
Lemma lookup_carried (names : list string) (name : string) :
  forall (rtindex varattno next_resno : Z) (tl : list TargetEntry),
    map column_signature tl
    = map column_signature (carried_columns names rtindex varattno next_resno) ->
    exists tl',
      get_target_entry_resno tl (Some name)
      = OK (carried_position names name next_resno, tl')
      /\ map column_signature tl' = map column_signature tl.
Proof.
  induction names as [|n names IH]; intros rtindex varattno next_resno tl H.
  - destruct tl; [|discriminate H]. exists []. split; reflexivity.
  - destruct tl as [|te tl]; [discriminate H|].
    cbn [carried_columns map] in H.
    unfold column_signature at 1 3, makeTargetEntry in H.
    cbn [resname resno resjunk] in H. injection H as Hn Hr Hj Hrest.
    cbn [get_target_entry_resno carried_position]. rewrite Hn.
    destruct (streq n name).
    + eexists. split; [rewrite Hr; reflexivity|].
      cbn [map]. f_equal.
    + destruct (IH _ _ _ _ Hrest) as (tl' & -> & Hsig').
      cbn [bindR]. eexists. split; [reflexivity|].
      cbn [map]. rewrite Hsig'. reflexivity.
Qed.

Lemma carried_position_found (names : list string) (name : string) :
  forall first : Z,
    In name names -> 1 <= first -> first + list_length names <= 32768 ->
    exists pos,
      column_position names name first = Some pos
      /\ carried_position names name first = pos
      /\ first <= pos < first + list_length names.
Proof.
  induction names as [|n names IH]; intros first Hin H1 H2; [destruct Hin|].
  rewrite list_length_cons in H2. pose proof (list_length_nonneg names).
  cbn [column_position carried_position].
  destruct (streq n name) eqn:E.
  - exists first. rewrite to_AttrNumber_small by lia.
    rewrite list_length_cons. repeat split; lia.
  - destruct Hin as [-> | Hin]; [rewrite streq_refl in E; discriminate|].
    destruct (IH (first + 1) Hin) as (pos & Hp & Hc & Hb); try lia.
    exists pos. rewrite list_length_cons. repeat split; try assumption; lia.
Qed.

Lemma carried_position_missing (names : list string) (name : string) :
  forall first : Z,
    ~ In name names -> carried_position names name first = -1.
Proof.
  induction names as [|n names IH]; intros first Hin; [reflexivity|].
  cbn [carried_position].
  destruct (streq n name) eqn:E.
  - apply String.eqb_eq in E. subst. exfalso. apply Hin. left. reflexivity.
  - apply IH. intros H. apply Hin. right. exact H.
Qed.

Lemma subquery_colnames_output (tl : list TargetEntry) :
  forall names,
    subquery_colnames tl = OK names ->
    map resname (filter (fun te => negb (resjunk te)) tl) = map Some names.
Proof.
  induction tl as [|te tl IH]; intros names H.
  - cbn in H. inv_OK H. reflexivity.
  - cbn [subquery_colnames] in H. cbn [filter].
    destruct (resjunk te); cbn [negb]; [exact (IH _ H)|].
    destruct (resname te) as [n|] eqn:En; [|discriminate H].
    destruct (subquery_colnames tl) as [names'| |]; try discriminate H.
    cbn [bindR] in H. inv_OK H. cbn [map]. rewrite En, (IH _ eq_refl).
    reflexivity.
Qed.

(** *** Resolving the references of DELETE, SET and REMOVE *)

Lemma delete_items_resolved (names : list string) (rtindex varattno first : Z)
  (vars : list (string * Z)) :
  Forall (fun v => In (fst v) names) vars ->
  1 <= first -> first + list_length names <= 32768 ->
  forall (tl : list TargetEntry) (items0 : list cypher_delete_item),
    map column_signature tl
    = map column_signature (carried_columns names rtindex varattno first) ->
    exists tl',
      transform_cypher_delete_item_list (map variable_reference vars) tl items0
      = OK ((items0 ++ resolved_delete_items names first vars)%list, tl')
      /\ map column_signature tl' = map column_signature tl.
Proof.
  intros Hall H1 H2.
  induction Hall as [|[v loc] vars Hin Hall IH]; intros tl items0 Hsig.
  - exists tl. cbn. rewrite app_nil_r. split; reflexivity.
  - cbn [map variable_reference fst snd transform_cypher_delete_item_list].
    destruct (lookup_carried names v _ _ _ _ Hsig) as (tl1 & -> & Hsig1).
    cbn [bindR].
    destruct (carried_position_found names v first Hin H1 H2)
      as (pos & _ & Hc & Hb).
    assert (Hne : (carried_position names v first =? -1) = false)
      by (apply Z.eqb_neq; lia).
    rewrite Hne.
    destruct (IH tl1 (items0 ++ [mk_cypher_delete_item
                                   (carried_position names v first) (Some v)])%list)
      as (tl' & -> & Hsig'); [congruence|].
    exists tl'. split; [|congruence].
    unfold resolved_delete_items. cbn [map fst].
    rewrite <- app_assoc. reflexivity.
Qed.

Lemma remove_item_resolved (names : list string) (rtindex varattno first : Z)
  (v prop : string) (value : Node) (loc : Z) (tl : list TargetEntry) :
  map column_signature tl
  = map column_signature (carried_columns names rtindex varattno first) ->
  exists tl',
    transform_cypher_remove_item_list [property_item v prop value loc] tl []
    = (if carried_position names v first =? -1
       then ERROR (undefined_reference_error v "REMOVE" loc)
       else OK ([mk_cypher_update_item (Some v) (Some prop)
                   (carried_position names v first) 0 true], tl'))
    /\ map column_signature tl' = map column_signature tl.
Proof.
  intros Hsig.
  destruct (lookup_carried names v _ _ _ _ Hsig) as (tl1 & Hl & Hsig1).
  exists tl1. split; [|exact Hsig1].
  cbn [transform_cypher_remove_item_list property_item property_reference
         si_is_add si_prop si_location].
  rewrite Hl. cbn [bindR].
  destruct (carried_position names v first =? -1); reflexivity.
Qed.

Lemma set_item_resolved (cat : Catalog) (cpstate : cypher_parsestate)
  (names : list string) (rtindex varattno first : Z)
  (v prop : string) (value e : Node) (loc : Z) (tl : list TargetEntry) :
  map column_signature tl
  = map column_signature (carried_columns names rtindex varattno first) ->
  transform_cypher_expr cat cpstate value EXPR_KIND_SELECT_TARGET = OK e ->
  exists tl',
    transform_cypher_set_item_list (cat, cpstate)
      [property_item v prop value loc] tl []
    = (if carried_position names v first =? -1
       then ERROR (undefined_reference_error v "SET" loc)
       else OK ([mk_cypher_update_item (Some v) (Some prop)
                   (carried_position names v first)
                   (to_AttrNumber (p_next_resno cpstate)) false],
                (tl' ++ [makeTargetEntry (add_volatile_wrapper e)
                           (p_next_resno cpstate) (FigureColname value) false])%list,
                (cat, set_p_next_resno (p_next_resno cpstate + 1) cpstate)))
    /\ map column_signature tl' = map column_signature tl.
Proof.
  intros Hsig He.
  destruct (lookup_carried names v _ _ _ _ Hsig) as (tl1 & Hl & Hsig1).
  exists tl1. split; [|exact Hsig1].
  cbn [transform_cypher_set_item_list property_item property_reference
         si_is_add si_prop si_location si_expr].
  rewrite Hl. cbn [bindR].
  destruct (carried_position names v first =? -1); [reflexivity|].
  unfold transform_cypher_item. rewrite He. reflexivity.
Qed.

Lemma expand_prev_clause_run (transform : transform_method)
  (pc : cypher_clause) (cat : Catalog) (pstate : cypher_parsestate)
  (q : Query) (cat' : Catalog) (child : cypher_parsestate)
  (names : list string) :
  p_rtable pstate = [] ->
  transform pc (cat, subquery_child pstate) = OK (q, (cat', child)) ->
  subquery_colnames (targetList q) = OK names ->
  expand_prev_clause transform pc (cat, pstate)
  = OK (carried_columns names 1 0 (p_next_resno pstate),
        (cat', after_prev_clause pstate q names child)).
Proof.
  intros Hrt Hrun Hnames.
  rewrite expand_prev_clause_fresh by exact Hrt.
  match goal with
  | |- bindR ?c _ = _ =>
      match type of Hrun with
      | _ = ?rhs => assert (Hc : c = rhs) by exact Hrun; rewrite Hc
      end
  end.
  cbn [bindR]. rewrite Hnames. reflexivity.
Qed.

Lemma remove_after_predecessor (transform : transform_method)
  (clause : cypher_clause) (cat : Catalog) (pstate : cypher_parsestate)
  (pc : cypher_clause) (q : Query) (cat' : Catalog) (child : cypher_parsestate)
  (names : list string) (s : cypher_set) (v prop : string) (value : Node)
  (loc : Z) :
  prev clause = Some pc ->
  p_rtable pstate = [] ->
  1 <= p_next_resno pstate ->
  p_next_resno pstate + list_length names <= 32768 ->
  transform pc (cat, subquery_child pstate) = OK (q, (cat', child)) ->
  subquery_colnames (targetList q) = OK names ->
  is_remove s = true ->
  set_items_list s = [property_item v prop value loc] ->
  In v names ->
  exists Q st' tl' pos,
    transform_cypher_set transform clause s (cat, pstate) = OK (Q, st')
    /\ column_position names v (p_next_resno pstate) = Some pos
    /\ p_next_resno pstate <= pos < p_next_resno pstate + list_length names
    /\ targetList Q
       = (tl' ++ [update_plan_entry
                    [mk_cypher_update_item (Some v) (Some prop) pos 0 true]
                    clause s pstate
                    (p_next_resno pstate + list_length names)])%list
    /\ map column_signature tl'
       = map column_signature (carried_columns names 1 0 (p_next_resno pstate)).
Proof.
  intros Hprev Hrt H1 H2 Hrun Hnames Hrm Hitems Hin.
  pose proof (expand_prev_clause_run transform pc cat pstate q cat' child
                names Hrt Hrun Hnames) as Hexp.
  destruct (after_prev_clause_fields pstate q names child) as (Hn & Hg & Ho).
  destruct (remove_item_resolved names 1 0 (p_next_resno pstate) v prop value
              loc (carried_columns names 1 0 (p_next_resno pstate)) eq_refl)
    as (tl' & Hl & Hsig).
  destruct (carried_position_found names v (p_next_resno pstate) Hin H1 H2)
    as (pos & Hp & Hc & Hb).
  assert (Hne : (carried_position names v (p_next_resno pstate) =? -1) = false)
    by (apply Z.eqb_neq; lia).
  rewrite Hne in Hl.
  unfold transform_cypher_set. rewrite Hprev, Hexp. cbn [bindR].
  rewrite Hitems, Hrm. cbn [list_length List.length Z.of_nat Z.eqb
                             Pos.eqb Pos.of_succ_nat negb].
  rewrite Hl. cbn [bindR].
  eexists. eexists. exists tl', pos.
  split; [reflexivity|].
  split; [exact Hp|]. split; [exact Hb|]. split; [|exact Hsig].
  unfold update_plan_entry.
  cbn [targetList set_rtable_jointree set_targetList p_next_resno
         set_p_next_resno graph_name].
  rewrite Hrm, Hn, Hg, Hc. reflexivity.
Qed.

(** C6. DELETE, SET and REMOVE read an incoming row stream. Without a
    preceding clause each of them is rejected, with the error that the
    clause "cannot be the first clause in a Cypher query". With a
    preceding clause that compiles, the columns of that clause are the
    variables in scope: a DELETE whose references all name such columns
    compiles, and each recorded item holds the position of the column of
    its variable; a SET of one property of such a variable compiles to
    one item with the position of the variable's column and the position
    of the new value column. A reference to a name that is not a column
    of the preceding clause is rejected as an undefined reference. *)
Theorem update_clauses_read_their_predecessor
  (transform : transform_method) (clause : cypher_clause)
  (cat : Catalog) (pstate : cypher_parsestate) :
  (prev clause = None ->
   (forall d,
       transform_cypher_delete transform clause d (cat, pstate)
       = ERROR (first_clause_error "DELETE" (delete_location d)))
   /\ (forall s,
          transform_cypher_set transform clause s (cat, pstate)
          = ERROR (first_clause_error (update_clause_name s) (set_location s))))
  /\ (forall pc q cat' child names,
         prev clause = Some pc ->
         p_rtable pstate = [] ->
         1 <= p_next_resno pstate ->
         p_next_resno pstate + list_length names <= 32768 ->
         transform pc (cat, subquery_child pstate) = OK (q, (cat', child)) ->
         subquery_colnames (targetList q) = OK names ->
         let first := p_next_resno pstate in
         let last := p_next_resno pstate + list_length names in
         let carried := carried_columns names 1 0 first in
         (forall d vars,
             delete_exprs d = map variable_reference vars ->
             Forall (fun v => In (fst v) names) vars ->
             exists Q st' tl',
               transform_cypher_delete transform clause d (cat, pstate)
               = OK (Q, st')
               /\ targetList Q
                  = (tl' ++ [delete_plan_entry
                               (resolved_delete_items names first vars)
                               clause d pstate last])%list
               /\ map column_signature tl' = map column_signature carried
               /\ Forall (fun v =>
                            exists pos,
                              column_position names (fst v) first = Some pos
                              /\ carried_position names (fst v) first = pos
                              /\ first <= pos < last)
                         vars)
         /\ (forall d v loc rest,
                delete_exprs d = variable_reference (v, loc) :: rest ->
                ~ In v names ->
                transform_cypher_delete transform clause d (cat, pstate)
                = ERROR (undefined_reference_error v "DELETE" loc))
         /\ (forall s v prop value loc e,
                is_remove s = false ->
                set_items_list s = [property_item v prop value loc] ->
                In v names ->
                transform_cypher_expr cat'
                  (after_prev_clause pstate q names child) value
                  EXPR_KIND_SELECT_TARGET = OK e ->
                exists Q st' tl' pos,
                  transform_cypher_set transform clause s (cat, pstate)
                  = OK (Q, st')
                  /\ column_position names v first = Some pos
                  /\ first <= pos < last
                  /\ targetList Q
                     = (tl'
                        ++ [makeTargetEntry (add_volatile_wrapper e) last
                              (FigureColname value) false;
                            update_plan_entry
                              [mk_cypher_update_item (Some v) (Some prop) pos
                                 (to_AttrNumber last) false]
                              clause s pstate (last + 1)])%list
                  /\ map column_signature tl' = map column_signature carried)
         /\ (forall s v prop value loc,
                is_remove s = false ->
                set_items_list s = [property_item v prop value loc] ->
                ~ In v names ->
                transform_cypher_set transform clause s (cat, pstate)
                = ERROR (undefined_reference_error v "SET" loc))
         /\ (forall s v prop value loc,
                is_remove s = true ->
                set_items_list s = [property_item v prop value loc] ->
                In v names ->
                exists Q st' tl' pos,
                  transform_cypher_set transform clause s (cat, pstate)
                  = OK (Q, st')
                  /\ column_position names v first = Some pos
                  /\ first <= pos < last
                  /\ targetList Q
                     = (tl'
                        ++ [update_plan_entry
                              [mk_cypher_update_item (Some v) (Some prop) pos
                                 0 true]
                              clause s pstate last])%list
                  /\ map column_signature tl' = map column_signature carried)).
Proof.
  split.
  - intros Hprev. split; intros x.
    + unfold transform_cypher_delete. rewrite Hprev. reflexivity.
    + unfold transform_cypher_set. rewrite Hprev. reflexivity.
  - intros pc q cat' child names Hprev Hrt H1 H2 Hrun Hnames first last carried.
    pose proof (expand_prev_clause_run transform pc cat pstate q cat' child
                  names Hrt Hrun Hnames) as Hexp.
    change (carried_columns names 1 0 (p_next_resno pstate)) with carried in Hexp.
    destruct (after_prev_clause_fields pstate q names child) as (Hn & Hg & Ho).
    split; [|split; [|split; [|split]]].
    + intros d vars Hd Hall.
      destruct (delete_items_resolved names 1 0 first vars Hall H1 H2 carried []
                  eq_refl) as (tl' & Hl & Hsig).
      unfold transform_cypher_delete. rewrite Hprev, Hexp. cbn [bindR].
      rewrite Hd, Hl. cbn [bindR app].
      eexists. eexists. exists tl'.
      split; [reflexivity|].
      split; [|split; [exact Hsig|]].
      * unfold delete_plan_entry. rewrite Hn, Hg, Ho. reflexivity.
      * apply Forall_forall. intros v Hv.
        rewrite Forall_forall in Hall.
        exact (carried_position_found names (fst v) first (Hall v Hv) H1 H2).
    + intros d v loc rest Hd Hin.
      unfold transform_cypher_delete. rewrite Hprev, Hexp. cbn [bindR].
      rewrite Hd.
      cbn [variable_reference fst snd transform_cypher_delete_item_list].
      destruct (lookup_carried names v 1 0 first carried eq_refl)
        as (tl1 & -> & _).
      cbn [bindR]. rewrite (carried_position_missing names v first Hin).
      reflexivity.
    + intros s v prop value loc e Hrm Hitems Hin He.
      destruct (carried_position_found names v first Hin H1 H2)
        as (pos & Hp & Hc & Hb).
      destruct (set_item_resolved cat' (after_prev_clause pstate q names child)
                  names 1 0 first v prop value e loc carried eq_refl He)
        as (tl' & Hl & Hsig).
      assert (Hne : (carried_position names v first =? -1) = false)
        by (apply Z.eqb_neq; lia).
      rewrite Hne in Hl.
      unfold transform_cypher_set. rewrite Hprev, Hexp. cbn [bindR].
      rewrite Hitems, Hrm. cbn [list_length List.length Z.of_nat Z.eqb
                                 Pos.eqb Pos.of_succ_nat negb].
      rewrite Hl. cbn [bindR].
      eexists. eexists. exists tl', pos.
      split; [reflexivity|].
      split; [exact Hp|]. split; [exact Hb|]. split; [|exact Hsig].
      unfold update_plan_entry.
      cbn [targetList set_rtable_jointree set_targetList p_next_resno
             set_p_next_resno graph_name].
      rewrite Hrm, Hn, Hg, Hc.
      rewrite <- app_assoc. reflexivity.
    + intros s v prop value loc Hrm Hitems Hin.
      unfold transform_cypher_set. rewrite Hprev, Hexp. cbn [bindR].
      rewrite Hitems, Hrm. cbn [list_length List.length Z.of_nat Z.eqb
                                 Pos.eqb Pos.of_succ_nat negb].
      cbn [transform_cypher_set_item_list property_item property_reference
             si_is_add si_prop si_location si_expr].
      destruct (lookup_carried names v 1 0 first carried eq_refl)
        as (tl1 & -> & _).
      cbn [bindR]. rewrite (carried_position_missing names v first Hin).
      reflexivity.
    + intros s v prop value loc Hrm Hitems Hin.
      exact (remove_after_predecessor transform clause cat pstate pc q cat'
               child names s v prop value loc Hprev Hrt H1 H2 Hrun Hnames Hrm
               Hitems Hin).
Qed.

(** C7. A SET or REMOVE clause whose item list does not have exactly one
    item never compiles: after a predecessor that compiles it is rejected
    as an unsupported feature ("does not yet support updating more than
    one property"). A REMOVE of one [variable.property] after a
    predecessor that compiles looks the variable up by its name among the
    output columns of that predecessor: when a column has the name, the
    clause compiles and its one item records the position of the first
    such column; when none has, the clause is rejected as an undefined
    reference. *)
Theorem set_and_remove_take_one_item
  (transform : transform_method) (clause : cypher_clause)
  (cat : Catalog) (pstate : cypher_parsestate) :
  (forall s,
      list_length (set_items_list s) <> 1 ->
      is_OK (transform_cypher_set transform clause s (cat, pstate)) = false
      /\ (forall pc tl st1,
             prev clause = Some pc ->
             expand_prev_clause transform pc (cat, pstate) = OK (tl, st1) ->
             transform_cypher_set transform clause s (cat, pstate)
             = ERROR (multiple_items_error (update_clause_name s)
                        (set_location s))))
  /\ (forall pc q cat' child names s v prop value loc,
         prev clause = Some pc ->
         p_rtable pstate = [] ->
         1 <= p_next_resno pstate ->
         p_next_resno pstate + list_length names <= 32768 ->
         transform pc (cat, subquery_child pstate) = OK (q, (cat', child)) ->
         subquery_colnames (targetList q) = OK names ->
         is_remove s = true ->
         set_items_list s = [property_item v prop value loc] ->
         let first := p_next_resno pstate in
         let last := p_next_resno pstate + list_length names in
         map resname (output_columns q) = map Some names
         /\ (In v names ->
             exists Q st' tl' pos,
               transform_cypher_set transform clause s (cat, pstate)
               = OK (Q, st')
               /\ column_position names v first = Some pos
               /\ first <= pos < last
               /\ targetList Q
                  = (tl' ++ [update_plan_entry
                               [mk_cypher_update_item (Some v) (Some prop)
                                  pos 0 true]
                               clause s pstate last])%list
               /\ map column_signature tl'
                  = map column_signature (carried_columns names 1 0 first))
         /\ (~ In v names ->
             transform_cypher_set transform clause s (cat, pstate)
             = ERROR (undefined_reference_error v "REMOVE" loc))).
Proof.
  split.
  - intros s Hlen.
    assert (Hne : negb (list_length (set_items_list s) =? 1) = true)
      by (apply negb_true_iff, Z.eqb_neq; exact Hlen).
    split.
    + unfold transform_cypher_set.
      destruct (prev clause) as [pc|]; [|reflexivity].
      destruct (expand_prev_clause transform pc (cat, pstate))
        as [[tl st1]| |]; [|reflexivity|reflexivity].
      cbn [bindR]. rewrite Hne. reflexivity.
    + intros pc tl st1 Hprev Hexp.
      unfold transform_cypher_set. rewrite Hprev, Hexp. cbn [bindR].
      rewrite Hne. reflexivity.
  - intros pc q cat' child names s v prop value loc Hprev Hrt H1 H2 Hrun
      Hnames Hrm Hitems first last.
    pose proof (expand_prev_clause_run transform pc cat pstate q cat' child
                  names Hrt Hrun Hnames) as Hexp.
    change (p_next_resno pstate) with first in Hexp.
    destruct (remove_item_resolved names 1 0 first v prop value loc
                (carried_columns names 1 0 first) eq_refl)
      as (tl' & Hl & Hsig).
    split; [exact (subquery_colnames_output _ _ Hnames)|]. split.
    + intros Hin.
      exact (remove_after_predecessor transform clause cat pstate pc q cat'
               child names s v prop value loc Hprev Hrt H1 H2 Hrun Hnames Hrm
               Hitems Hin).
    + intros Hin.
      rewrite (carried_position_missing names v first Hin) in Hl.
      unfold transform_cypher_set. rewrite Hprev, Hexp. cbn [bindR].
      rewrite Hitems, Hrm. cbn [list_length List.length Z.of_nat Z.eqb
                                 Pos.eqb Pos.of_succ_nat negb].
      rewrite Hl. reflexivity.
Qed.

(** *** The columns DELETE, SET and REMOVE pass on *)

Lemma delete_item_list_signature (exprs : list Node) :
  forall tl items items' tl',
    transform_cypher_delete_item_list exprs tl items = OK (items', tl') ->
    map column_signature tl' = map column_signature tl.
Proof.
  induction exprs as [|expr exprs IH]; intros tl items items' tl' H.
  - cbn in H. inv_OK H. reflexivity.
  - cbn [transform_cypher_delete_item_list] in H. peel H.
    run_step H ipattern:([[pos tl1]| |]) E. peel H.
    rewrite (IH _ _ _ _ H).
    exact (get_target_entry_resno_signature _ _ _ _ E).
Qed.

Lemma remove_item_list_signature (its : list cypher_set_item) :
  forall tl items items' tl',
    transform_cypher_remove_item_list its tl items = OK (items', tl') ->
    map column_signature tl' = map column_signature tl.
Proof.
  induction its as [|it its IH]; intros tl items items' tl' H.
  - cbn in H. inv_OK H. reflexivity.
  - cbn [transform_cypher_remove_item_list] in H. peel H.
    run_step H ipattern:([[pos tl1]| |]) E. peel H.
    rewrite (IH _ _ _ _ H).
    exact (get_target_entry_resno_signature _ _ _ _ E).
Qed.

Lemma set_item_signature (cat : Catalog) (cpstate : cypher_parsestate)
  (it : cypher_set_item) (tl : list TargetEntry) items' tl' cat' cpstate' :
  transform_cypher_set_item_list (cat, cpstate) [it] tl []
  = OK (items', tl', (cat', cpstate')) ->
  exists value_name,
    map column_signature tl'
    = (map column_signature tl
       ++ [own_column value_name (p_next_resno cpstate)])%list
    /\ p_next_resno cpstate' = p_next_resno cpstate + 1.
Proof.
  intros H. cbn [transform_cypher_set_item_list] in H. peel H.
  run_step H ipattern:([[pos tl1]| |]) E. peel H.
  unfold transform_cypher_item in H.
  destruct (transform_cypher_expr cat cpstate (si_expr it)
              EXPR_KIND_SELECT_TARGET) as [e| |]; try discriminate H.
  cbn [bindR] in H. inv_OK H.
  exists (FigureColname (si_expr it)).
  split; [|reflexivity].
  rewrite map_app. rewrite (get_target_entry_resno_signature _ _ _ _ E).
  reflexivity.
Qed.

Lemma carried_nth (names : list string) :
  forall (rtindex varattno first : Z) (i : nat) (n : string),
    nth_error names i = Some n ->
    nth_error (map column_signature
                 (carried_columns names rtindex varattno first)) i
    = Some (Some n, to_AttrNumber (first + Z.of_nat i), false).
Proof.
  induction names as [|m names IH]; intros rtindex varattno first i n H.
  - destruct i; discriminate H.
  - destruct i as [|i].
    + cbn in H. inv_OK H. cbn [carried_columns map nth_error].
      unfold column_signature, makeTargetEntry. cbn [resname resno resjunk].
      rewrite Z.add_0_r. reflexivity.
    + cbn [nth_error] in H. cbn [carried_columns map nth_error].
      rewrite (IH _ _ _ _ _ H).
      replace (first + 1 + Z.of_nat i) with (first + Z.of_nat (S i)) by lia.
      reflexivity.
Qed.

Lemma keeps_columns_intro (q Q : Query) (first : Z) (names : list string)
  (own : list (option string * Z * bool)) :
  subquery_colnames (targetList q) = OK names ->
  map column_signature (targetList Q)
  = (map column_signature (carried_columns names 1 0 first) ++ own)%list ->
  keeps_columns q Q first own.
Proof.
  intros Hnames Hsig.
  pose proof (subquery_colnames_output _ _ Hnames) as Hout.
  exists names. split; [exact Hout|]. split; [exact Hsig|].
  intros i te Hi.
  assert (Hn : nth_error names i
               = match resname te with Some n => Some n | None => None end
               /\ resname te <> None).
  { pose proof (map_nth_error resname _ _ Hi) as H1.
    unfold output_columns in H1. rewrite Hout in H1.
    rewrite nth_error_map in H1.
    destruct (nth_error names i) as [n|]; [|discriminate H1].
    cbn in H1. injection H1 as H1. rewrite <- H1. split; [reflexivity|discriminate]. }
  destruct Hn as [Hn Hsome].
  destruct (resname te) as [n|] eqn:En; [|contradiction].
  pose proof (carried_nth names 1 0 first i n Hn) as Hc.
  assert (Hq : nth_error (map column_signature (targetList Q)) i
               = Some (Some n, to_AttrNumber (first + Z.of_nat i), false)).
  { rewrite Hsig. rewrite nth_error_app1; [exact Hc|].
    apply nth_error_Some. rewrite Hc. discriminate. }
  rewrite nth_error_map in Hq.
  destruct (nth_error (targetList Q) i) as [te'|]; [|discriminate Hq].
  cbn in Hq. unfold column_signature in Hq. injection Hq as H1 H2 H3.
  exists te'. repeat split; assumption.
Qed.

(** C10. A DELETE, SET or REMOVE clause that compiles passes on every
    output column of its predecessor: the i-th output column of the
    predecessor is the i-th column of the clause, under the same name and
    not junk, numbered from the first free column number of the clause (1
    in a clause of its own), and the columns the clause adds itself come
    after them: for DELETE and REMOVE the plan column, for SET the value
    column and, last, the plan column. *)
Theorem update_clauses_keep_predecessor_columns
  (transform : transform_method) (clause pc : cypher_clause)
  (cat : Catalog) (pstate : cypher_parsestate) :
  prev clause = Some pc ->
  p_rtable pstate = [] ->
  let first := p_next_resno pstate in
  (forall d Q st',
      transform_cypher_delete transform clause d (cat, pstate) = OK (Q, st') ->
      exists q st1,
        transform pc (cat, subquery_child pstate) = OK (q, st1)
        /\ keeps_columns q Q first
             [own_column (Some AGE_VARNAME_DELETE_CLAUSE)
                (first + list_length (output_columns q))])
  /\ (forall s Q st',
         transform_cypher_set transform clause s (cat, pstate) = OK (Q, st') ->
         exists q st1,
           transform pc (cat, subquery_child pstate) = OK (q, st1)
           /\ if is_remove s
              then keeps_columns q Q first
                     [own_column (Some AGE_VARNAME_SET_CLAUSE)
                        (first + list_length (output_columns q))]
              else exists value_name,
                     keeps_columns q Q first
                       [own_column value_name
                          (first + list_length (output_columns q));
                        own_column (Some AGE_VARNAME_SET_CLAUSE)
                          (first + list_length (output_columns q) + 1)]).
Proof.
  intros Hprev Hrt first.
  assert (Hlen : forall q names,
             subquery_colnames (targetList q) = OK names ->
             list_length (output_columns q) = list_length names).
  { intros q names Hn. pose proof (subquery_colnames_output _ _ Hn) as Ho.
    unfold list_length, output_columns.
    rewrite <- (length_map resname), Ho, length_map. reflexivity. }
  split.
  - intros d Q st' H.
    unfold transform_cypher_delete in H. rewrite Hprev in H.
    rewrite expand_prev_clause_fresh in H by exact Hrt.
    destruct (transform pc (cat, subquery_child pstate))
      as [[q [cat' child]]| |] eqn:Erun; try discriminate H.
    cbn [bindR] in H.
    destruct (subquery_colnames (targetList q)) as [names| |] eqn:En;
      try discriminate H.
    cbn [bindR] in H.
    destruct (transform_cypher_delete_item_list (delete_exprs d) _ [])
      as [[items tl']| |] eqn:Ei; try discriminate H.
    cbn [bindR] in H. inv_OK H.
    exists q, (cat', child). split; [reflexivity|].
    apply (keeps_columns_intro _ _ _ names); [exact En|].
    cbn [targetList set_rtable_jointree set_targetList].
    rewrite map_app, (delete_item_list_signature _ _ _ _ _ Ei).
    rewrite (Hlen _ _ En).
    reflexivity.
  - intros s Q st' H.
    unfold transform_cypher_set in H. rewrite Hprev in H.
    rewrite expand_prev_clause_fresh in H by exact Hrt.
    destruct (transform pc (cat, subquery_child pstate))
      as [[q [cat' child]]| |] eqn:Erun; try discriminate H.
    cbn [bindR] in H.
    destruct (subquery_colnames (targetList q)) as [names| |] eqn:En;
      try discriminate H.
    cbn [bindR] in H.
    destruct (list_length (set_items_list s) =? 1) eqn:El;
      cbn [negb] in H; try discriminate H.
    destruct (after_prev_clause_fields pstate q names child) as (Hn & _).
    exists q, (cat', child). split; [reflexivity|].
    destruct (is_remove s).
    + destruct (transform_cypher_remove_item_list (set_items_list s) _ [])
        as [[items tl']| |] eqn:Ei; try discriminate H.
      cbn [bindR] in H. inv_OK H.
      apply (keeps_columns_intro _ _ _ names); [exact En|].
      cbn [targetList set_rtable_jointree set_targetList].
      rewrite map_app, (remove_item_list_signature _ _ _ _ _ Ei).
      rewrite (Hlen _ _ En), ?Hn. reflexivity.
    + destruct (set_items_list s) as [|it [|it' its]] eqn:Es.
      * discriminate El.
      * destruct (transform_cypher_set_item_list _ [it] _ [])
          as [[[items tl'] [cat2 cpstate2]]| |] eqn:Ei; try discriminate H.
        cbn [bindR] in H. inv_OK H.
        destruct (set_item_signature _ _ _ _ _ _ _ _ Ei) as (vn & Hsig & Hnext).
        exists vn.
        apply (keeps_columns_intro _ _ _ names); [exact En|].
        cbn [targetList set_rtable_jointree set_targetList].
        rewrite map_app, Hsig, <- app_assoc.
        rewrite (Hlen _ _ En), ?Hnext, ?Hn. reflexivity.
      * exfalso. unfold list_length in El. cbn [List.length] in El.
        apply Z.eqb_eq in El. lia.
Qed.

(** *** CREATE on a declared vertex *)


Lemma lookup_absent (tl : list TargetEntry) (name : string) :
  Forall (fun te => exists n, resname te = Some n /\ n <> name) tl ->
  get_target_entry_resno tl (Some name) = OK (-1, tl).
Proof.
  induction 1 as [|t tl (n & Hn & Hne) _ IH]; [reflexivity|].
  cbn [get_target_entry_resno]. rewrite Hn, (streq_neq _ _ Hne), IH.
  reflexivity.
Qed.



(** *** SKIP and LIMIT *)



(** *** Further properties of the same functions *)

(** X1. A left-directed edge (A)<-[e]-(B) between two vertices of the
    join tree is joined the other way round than a right-directed one:
    its end to A and its start to B, two equalities and no disjunction. *)
Theorem left_edge_mirrors_right_edge (st : State) (na nb : cypher_node)
  (rel : cypher_relationship) (xa xb xe : Node) :
  id_colnames_agree ->
  edge_columns_distinct ->
  rel_dir rel = CYPHER_REL_DIR_LEFT ->
  let a := vertex_entity na xa in
  let b := vertex_entity nb xb in
  let e := edge_entity rel xe in
  make_path_join_quals st [a; e; b]
  = OK [eq_qual (edge_end e) (vertex_id a); eq_qual (edge_start e) (vertex_id b)].
Proof.
  intros Hid Hcols Hdir a b e.
  unfold make_path_join_quals.
  change (list_length [a; e; b] <? 3) with false. cbv iota.
  rewrite join_quals_loop_last.
  unfold make_join_condition_for_edge, a, b, e.
  change (in_join_tree (vertex_entity na xa)) with true.
  change (in_join_tree (vertex_entity nb xb)) with true.
  change (union_dir (entity (edge_entity rel xe))) with (OK (rel_dir rel)).
  rewrite Hdir. cbn [negb bindR].
  rewrite (make_qual_edge_start rel xe Hcols).
  rewrite (make_qual_edge_end rel xe Hcols).
  cbn [bindR].
  rewrite (directed_between_vertices st na nb xa xb _ _ Hid).
  reflexivity.
Qed.

(** X2. A path of fewer than three entities, that is a single vertex, has
    no join qualifiers. *)
Theorem vertex_only_path_has_no_join_quals (st : State)
  (ents : list transform_entity) :
  list_length ents < 3 -> make_path_join_quals st ents = OK [].
Proof.
  intros H. unfold make_path_join_quals.
  apply Z.ltb_lt in H. rewrite H. reflexivity.
Qed.

(** X3. A SET or REMOVE whose one item is a map merge ([+=]) is rejected
    as an unsupported feature once its predecessor compiled. *)
Theorem map_merge_items_are_rejected (transform : transform_method)
  (clause pc : cypher_clause) (s : cypher_set) (it : cypher_set_item)
  (st st1 : State) (tl : list TargetEntry) :
  prev clause = Some pc ->
  expand_prev_clause transform pc st = OK (tl, st1) ->
  set_items_list s = [it] ->
  si_is_add it = true ->
  transform_cypher_set transform clause s st
  = ERROR (mkErrorData ERRCODE_FEATURE_NOT_SUPPORTED
             (if is_remove s
              then "REMOVE clause does not support adding propereties from maps"
              else "SET clause does not yet support adding propereties from maps")
             (Some (si_location it)) None).
Proof.
  intros Hprev Hexp Hitems Hadd.
  unfold transform_cypher_set. rewrite Hprev, Hexp. cbn [bindR].
  rewrite Hitems.
  change (list_length [it] =? 1) with true. cbn [negb].
  destruct (is_remove s).
  - cbn [transform_cypher_remove_item_list]. rewrite Hadd. reflexivity.
  - destruct st1 as [cat1 cp1].
    cbn [transform_cypher_set_item_list]. rewrite Hadd. reflexivity.
Qed.

(** X4. The number [get_target_entry_resno] returns for a name that no
    column has is -1. DELETE turns it into an undefined-reference error;
    CREATE on a variable registered as a vertex stores it as the tuple
    position of the target node and raises no error. *)
Theorem missing_column_is_checked_by_delete_only (cat : Catalog)
  (cpstate : cypher_parsestate) (tl : list TargetEntry) (node : cypher_node)
  (name : string) (ent : transform_entity) :
  node_name node = Some name ->
  node_label node = None -> node_props node = None ->
  find_variable cpstate name = Some ent ->
  ent_type ent = ENT_VERTEX ->
  Forall (fun te => exists n, resname te = Some n /\ n <> name) tl ->
  get_target_entry_resno tl (Some name) = OK (-1, tl)
  /\ (forall loc items,
         transform_cypher_delete_item_list [variable_reference (name, loc)]
           tl items
         = ERROR (undefined_reference_error name "DELETE" loc))
  /\ exists rel,
       transform_create_cypher_node (cat, cpstate) tl node
       = OK (rel, node, tl, (cat, cpstate))
       /\ tn_variable_name rel = Some name
       /\ tn_tuple_position rel = -1.
Proof.
  intros Hname Hl Hp Hfind Ht Hall.
  pose proof (lookup_absent tl name Hall) as Hlook.
  split; [exact Hlook|]. split.
  - intros loc items.
    cbn [transform_cypher_delete_item_list variable_reference fst snd].
    rewrite Hlook. reflexivity.
  - unfold transform_create_cypher_node. rewrite Hname, Hfind, Ht.
    cbn [is_ENT_VERTEX negb].
    unfold transform_create_cypher_existing_node.
    rewrite Hl, Hp, Hname, Hlook. cbn [bindR].
    eexists. split; [reflexivity|]. split; reflexivity.
Qed.

(** *** The checks on the elements of a MATCH *)

(** X5. The label of a MATCH element is checked against the catalog
    before anything else is done with the element, also when the element
    is left out of the join tree: a label the catalog does not have is
    rejected with "label ... does not exists", a vertex with the label of
    an edge with "label ... is for edges, not vertices", an edge with the
    label of a vertex with "label ... is for vertices, not edges". A
    variable length relationship is rejected before its label is looked
    at. *)
Theorem match_labels_are_checked (cat : Catalog) (cpstate : cypher_parsestate)
  (tl : list TargetEntry) :
  (forall node label out,
      node_label node = Some label ->
      (search_label_name_graph_cache cat label (graph_oid cpstate) = None ->
       transform_cypher_node (cat, cpstate) node tl out
       = ERROR (unknown_label_error label (node_location node)))
      /\ (forall lcd,
             search_label_name_graph_cache cat label (graph_oid cpstate)
             = Some lcd ->
             lcd_kind lcd = LABEL_KIND_EDGE ->
             transform_cypher_node (cat, cpstate) node tl out
             = ERROR (label_kind_error label LABEL_KIND_EDGE
                        (node_location node))))
  /\ (forall rel,
         rel_varlen rel <> None ->
         transform_cypher_edge (cat, cpstate) rel tl
         = ERROR (varlen_error (rel_location rel)))
  /\ (forall rel label,
         rel_varlen rel = None ->
         rel_label rel = Some label ->
         (search_label_name_graph_cache cat label (graph_oid cpstate) = None ->
          transform_cypher_edge (cat, cpstate) rel tl
          = ERROR (unknown_label_error label (rel_location rel)))
         /\ (forall lcd,
                search_label_name_graph_cache cat label (graph_oid cpstate)
                = Some lcd ->
                lcd_kind lcd = LABEL_KIND_VERTEX ->
                transform_cypher_edge (cat, cpstate) rel tl
                = ERROR (label_kind_error label LABEL_KIND_VERTEX
                           (rel_location rel)))).
Proof.
  split; [|split].
  - intros node label out Hl. unfold transform_cypher_node. rewrite Hl.
    split.
    + intros ->. reflexivity.
    + intros lcd -> ->. reflexivity.
  - intros rel Hv. unfold transform_cypher_edge.
    destruct (rel_varlen rel); [reflexivity|contradiction].
  - intros rel label Hv Hl. unfold transform_cypher_edge. rewrite Hv, Hl.
    split.
    + intros ->. reflexivity.
    + intros lcd -> ->. reflexivity.
Qed.

(** X6. While a WHERE is compiled, a pattern cannot declare a variable:
    a named vertex or edge whose name is neither in the target list nor a
    visible column, and whose label passes the catalog check, is
    rejected with "variable ... does not exist". *)
Theorem where_cannot_declare_variables (cat : Catalog)
  (cpstate : cypher_parsestate) (tl : list TargetEntry) (name : string) :
  p_expr_kind cpstate = EXPR_KIND_WHERE ->
  unbound_name cpstate tl name ->
  (forall node,
      node_name node = Some name ->
      label_known cat (graph_oid cpstate) LABEL_KIND_VERTEX (node_label node) ->
      transform_cypher_node (cat, cpstate) node tl true
      = ERROR (mkErrorData ERRCODE_FEATURE_NOT_SUPPORTED
                 ("variable `" ++ name ++ "` does not exist")
                 (Some (node_location node)) None))
  /\ (forall rel,
         rel_name rel = Some name ->
         rel_varlen rel = None ->
         label_known cat (graph_oid cpstate) LABEL_KIND_EDGE (rel_label rel) ->
         transform_cypher_edge (cat, cpstate) rel tl
         = ERROR (mkErrorData ERRCODE_FEATURE_NOT_SUPPORTED
                    ("variable " ++ name ++ " does not exist")
                    (Some (rel_location rel)) None)).
Proof.
  intros Hk [Hte Hcol]. split.
  - intros node Hn Hl. unfold transform_cypher_node.
    destruct (node_label node) as [label|] eqn:El.
    + destruct Hl as (lcd & -> & ->). cbn [bindR negb].
      rewrite Hn, Hte. cbn [bindR]. rewrite Hcol. cbn [bindR].
      rewrite Hk. reflexivity.
    + cbn [bindR negb set_node_label node_name]. rewrite Hn, Hte.
      cbn [bindR]. rewrite Hcol. cbn [bindR]. rewrite Hk. reflexivity.
  - intros rel Hn Hv Hl. unfold transform_cypher_edge. rewrite Hv.
    destruct (rel_label rel) as [label|] eqn:El.
    + destruct Hl as (lcd & -> & ->). cbn [bindR].
      rewrite Hn, Hte. cbn [bindR]. rewrite Hcol. cbn [bindR].
      rewrite Hk. reflexivity.
    + cbn [bindR set_rel_label rel_name]. rewrite Hn, Hte.
      cbn [bindR]. rewrite Hcol. cbn [bindR]. rewrite Hk. reflexivity.
Qed.

(** *** What a MATCH pattern adds *)

Lemma extends_refl {A : Type} (l : list A) : extends l l.
Proof. exists []. rewrite app_nil_r. reflexivity. Qed.

Lemma extends_trans {A : Type} (l1 l2 l3 : list A) :
  extends l1 l2 -> extends l2 l3 -> extends l1 l3.
Proof.
  intros [m1 ->] [m2 ->]. exists (m1 ++ m2)%list. rewrite app_assoc. reflexivity.
Qed.

Lemma extends_one {A : Type} (l : list A) (x : A) : extends l (l ++ [x]).
Proof. exists [x]. reflexivity. Qed.

Lemma numbered_columns_nil (first : Z) : numbered_columns first [].
Proof. intros i te H. destruct i; discriminate H. Qed.

Lemma numbered_columns_one (first : Z) (e : Node) (name : option string) :
  numbered_columns first [makeTargetEntry e first name false].
Proof.
  intros i te H. destruct i as [|i].
  - injection H as <-. cbn. rewrite Z.add_0_r. split; reflexivity.
  - destruct i; discriminate H.
Qed.

Lemma numbered_columns_app (first : Z) (l1 l2 : list TargetEntry) :
  numbered_columns first l1 ->
  numbered_columns (first + list_length l1) l2 ->
  numbered_columns first (l1 ++ l2).
Proof.
  intros H1 H2 i te Hi.
  destruct (Nat.lt_ge_cases i (List.length l1)) as [Hlt | Hge].
  - rewrite nth_error_app1 in Hi by exact Hlt. exact (H1 i te Hi).
  - rewrite nth_error_app2 in Hi by exact Hge.
    destruct (H2 _ _ Hi) as [Hr Hj]. split; [|exact Hj].
    rewrite Hr. f_equal. unfold list_length. lia.
Qed.

Lemma appends_columns_refl (st st' : State) (tl : list TargetEntry) :
  p_next_resno (snd st') = p_next_resno (snd st) ->
  appends_columns st tl st' tl.
Proof.
  intros H. exists []. rewrite app_nil_r. split; [reflexivity|].
  split; [rewrite H; unfold list_length; cbn; lia | apply numbered_columns_nil].
Qed.

Lemma appends_columns_one (st st' : State) (tl : list TargetEntry)
  (e : Node) (name : option string) :
  p_next_resno (snd st') = p_next_resno (snd st) + 1 ->
  appends_columns st tl st'
    (tl ++ [makeTargetEntry e (p_next_resno (snd st)) name false]).
Proof.
  intros H. eexists. split; [reflexivity|].
  split; [exact H | apply numbered_columns_one].
Qed.

Lemma appends_columns_trans (st1 st2 st3 : State) (tl1 tl2 tl3 : list TargetEntry) :
  appends_columns st1 tl1 st2 tl2 ->
  appends_columns st2 tl2 st3 tl3 ->
  appends_columns st1 tl1 st3 tl3.
Proof.
  intros (m1 & -> & Hn1 & Hc1) (m2 & -> & Hn2 & Hc2).
  exists (m1 ++ m2)%list. rewrite app_assoc. split; [reflexivity|].
  split.
  - rewrite Hn2, Hn1, list_length_app. lia.
  - apply numbered_columns_app; [exact Hc1|]. rewrite <- Hn1. exact Hc2.
Qed.

Lemma state_grows_refl (s : cypher_parsestate) : state_grows s s.
Proof.
  unfold state_grows.
  repeat (split; [first [apply extends_refl | reflexivity | lia]|]).
  reflexivity.
Qed.

Lemma state_grows_trans (s1 s2 s3 : cypher_parsestate) :
  state_grows s1 s2 -> state_grows s2 s3 -> state_grows s1 s3.
Proof.
  unfold state_grows.
  intros (A1 & A2 & A3 & A4 & A5 & A6 & A7 & A8 & A9 & A10 & A11)
         (B1 & B2 & B3 & B4 & B5 & B6 & B7 & B8 & B9 & B10 & B11).
  repeat (split; [first [eapply extends_trans; eassumption | congruence | lia]|]).
  congruence.
Qed.

Lemma pattern_frame_refl (st : State) (tl : list TargetEntry) :
  pattern_frame st tl st tl.
Proof.
  split; [apply appends_columns_refl; reflexivity|].
  split; [apply state_grows_refl | reflexivity].
Qed.

Lemma pattern_frame_trans (st1 st2 st3 : State) (tl1 tl2 tl3 : list TargetEntry) :
  pattern_frame st1 tl1 st2 tl2 ->
  pattern_frame st2 tl2 st3 tl3 ->
  pattern_frame st1 tl1 st3 tl3.
Proof.
  intros (A1 & A2 & A3) (B1 & B2 & B3).
  split; [eapply appends_columns_trans; eassumption|].
  split; [eapply state_grows_trans; eassumption | congruence].
Qed.

Lemma transform_cypher_node_new_frame (st : State) (node : cypher_node)
  (tl : list TargetEntry) expr node' tl' st' :
  transform_cypher_node_new st node tl = OK (expr, node', tl', st') ->
  pattern_frame st tl st' tl'
  /\ entities (snd st') = entities (snd st).
Proof.
  destruct st as [cat cpstate]. unfold transform_cypher_node_new. intros H.
  destruct cpstate.
  destruct (node_name node) as [name|];
    cbn [get_next_default_alias set_node_name node_label] in H;
    (destruct (node_label node) as [label|]; [|discriminate H]);
    unfold addRangeTableEntry in H;
    (match type of H with
     | context [parserOpenTable ?c ?rv] =>
         destruct (parserOpenTable c rv) as [rel| |]; try discriminate H
     end);
    cbn [bindR] in H;
    (match type of H with
     | bindR ?c _ = _ => destruct c as [x| |]; try discriminate H
     end);
    cbn [bindR] in H; inv_OK H;
    (split; [|reflexivity]);
    (split; [apply appends_columns_one; reflexivity|]);
    (split; [grows_by_fields | reflexivity]).
Qed.

Lemma transform_cypher_edge_new_frame (st : State) (rel : cypher_relationship)
  (tl : list TargetEntry) expr rel' tl' st' :
  transform_cypher_edge_new st rel tl = OK (expr, rel', tl', st') ->
  pattern_frame st tl st' tl'
  /\ entities (snd st') = entities (snd st).
Proof.
  destruct st as [cat cpstate]. unfold transform_cypher_edge_new. intros H.
  destruct cpstate.
  destruct (rel_name rel) as [name|];
    cbn [get_next_default_alias set_rel_name rel_label] in H;
    (destruct (rel_label rel) as [label|]; [|discriminate H]);
    unfold addRangeTableEntry in H;
    (match type of H with
     | context [parserOpenTable ?c ?rv] =>
         destruct (parserOpenTable c rv) as [r| |]; try discriminate H
     end);
    cbn [bindR] in H;
    (match type of H with
     | bindR ?c _ = _ => destruct c as [x| |]; try discriminate H
     end);
    cbn [bindR] in H; inv_OK H;
    (split; [|reflexivity]);
    (split; [apply appends_columns_one; reflexivity|]);
    (split; [grows_by_fields | reflexivity]).
Qed.

Lemma transform_cypher_node_frame (st : State) (node : cypher_node)
  (tl : list TargetEntry) (out : bool) expr node' tl' st' :
  transform_cypher_node st node tl out = OK (expr, node', tl', st') ->
  pattern_frame st tl st' tl'
  /\ entities (snd st') = entities (snd st).
Proof.
  destruct st as [cat cpstate]. unfold transform_cypher_node. intros H.
  run_step H ipattern:([node1| |]) Elabel.
  destruct (negb out); [inv_OK H; split; [apply pattern_frame_refl|reflexivity]|].
  destruct (node_name node1) as [name|];
    [|exact (transform_cypher_node_new_frame _ _ _ _ _ _ _ H)].
  run_step H ipattern:([te| |]) Ete.
  run_step H ipattern:([v| |]) Ev.
  destruct v as [e|]; [inv_OK H; split; [apply pattern_frame_refl|reflexivity]|].
  destruct te as [te|].
  - break_match_in H. inv_OK H. split; [apply pattern_frame_refl|reflexivity].
  - destruct (is_EXPR_KIND_WHERE (p_expr_kind cpstate)); [discriminate H|].
    exact (transform_cypher_node_new_frame _ _ _ _ _ _ _ H).
Qed.

Lemma transform_cypher_edge_frame (st : State) (rel : cypher_relationship)
  (tl : list TargetEntry) expr rel' tl' st' :
  transform_cypher_edge st rel tl = OK (expr, rel', tl', st') ->
  pattern_frame st tl st' tl'
  /\ entities (snd st') = entities (snd st).
Proof.
  destruct st as [cat cpstate]. unfold transform_cypher_edge. intros H.
  destruct (rel_varlen rel); [discriminate H|].
  run_step H ipattern:([rel1| |]) Elabel.
  destruct (rel_name rel1) as [name|];
    [|exact (transform_cypher_edge_new_frame _ _ _ _ _ _ _ H)].
  run_step H ipattern:([te| |]) Ete.
  run_step H ipattern:([v| |]) Ev.
  destruct v as [e|]; [inv_OK H; split; [apply pattern_frame_refl|reflexivity]|].
  destruct te as [te|].
  - break_match_in H. inv_OK H. split; [apply pattern_frame_refl|reflexivity].
  - destruct (is_EXPR_KIND_WHERE (p_expr_kind cpstate)); [discriminate H|].
    exact (transform_cypher_edge_new_frame _ _ _ _ _ _ _ H).
Qed.

Lemma register_match_entity_frame (st : State) (ent : transform_entity)
  (props : option Node) (tl : list TargetEntry) st' :
  register_match_entity st ent props = OK st' ->
  pattern_frame st tl st' tl
  /\ entities (snd st') = (entities (snd st) ++ [ent])%list.
Proof.
  destruct st as [cat cpstate]. unfold register_match_entity. intros H.
  destruct cpstate.
  destruct props.
  - run_step H ipattern:([pc| |]) Epc. inv_OK H.
    split; [|reflexivity].
    split; [apply appends_columns_refl; reflexivity|].
    split; [grows_by_fields | reflexivity].
  - inv_OK H. split; [|reflexivity].
    split; [apply appends_columns_refl; reflexivity|].
    split; [grows_by_fields | reflexivity].
Qed.

Lemma transform_match_entities_loop_frame (p : cypher_path)
  (elems : list path_element) :
  forall (st : State) (tl : list TargetEntry) (i : Z)
         (ents0 : list transform_entity) ents tl' st',
    transform_match_entities_loop st tl p elems i ents0 = OK (ents, tl', st') ->
    pattern_frame st tl st' tl'
    /\ exists new,
         ents = (ents0 ++ new)%list
         /\ entities (snd st') = (entities (snd st) ++ new)%list
         /\ Forall2 (fun elem ent =>
                       ent_type ent = entity_kind_of elem
                       /\ declared_in_current_clause ent = true)
                    elems new.
Proof.
  induction elems as [|elem rest IH]; intros st tl i ents0 ents tl' st' H.
  - cbn in H. inv_OK H. split; [apply pattern_frame_refl|].
    exists []. rewrite !app_nil_r. repeat split. constructor.
  - cbn [transform_match_entities_loop] in H.
    destruct (Z.rem i 2 =? 0).
    + destruct elem as [node|rel]; try discriminate H.
      run_step H ipattern:([[[[expr node'] tl1] st1]| |]) En.
      destruct (transform_cypher_node_frame _ _ _ _ _ _ _ _ En) as [F1 E1].
      run_step H ipattern:([st2| |]) Er.
      destruct (register_match_entity_frame _ _ _ tl1 _ Er) as [F2 E2].
      destruct (IH _ _ _ _ _ _ _ H) as (F3 & new & -> & E3 & Hall).
      split.
      { eapply pattern_frame_trans; [exact F1|].
        eapply pattern_frame_trans; [exact F2|exact F3]. }
      eexists (_ :: new). split; [rewrite <- app_assoc; reflexivity|].
      split; [rewrite E3, E2, E1, <- app_assoc; reflexivity|].
      constructor; [split; reflexivity|exact Hall].
    + destruct elem as [node|rel]; try discriminate H.
      run_step H ipattern:([[[[expr rel'] tl1] st1]| |]) En.
      destruct (transform_cypher_edge_frame _ _ _ _ _ _ _ En) as [F1 E1].
      run_step H ipattern:([st2| |]) Er.
      destruct (register_match_entity_frame _ _ _ tl1 _ Er) as [F2 E2].
      destruct (IH _ _ _ _ _ _ _ H) as (F3 & new & -> & E3 & Hall).
      split.
      { eapply pattern_frame_trans; [exact F1|].
        eapply pattern_frame_trans; [exact F2|exact F3]. }
      eexists (_ :: new). split; [rewrite <- app_assoc; reflexivity|].
      split; [rewrite E3, E2, E1, <- app_assoc; reflexivity|].
      constructor; [split; reflexivity|exact Hall].
Qed.

Lemma transform_match_path_frame (st : State) (tl : list TargetEntry)
  (p : cypher_path) quals tl' st' :
  transform_match_path st tl p = OK (quals, tl', st') ->
  pattern_frame st tl st' tl'.
Proof.
  unfold transform_match_path, transform_match_entities. intros H.
  run_step H ipattern:([[[ents tl1] st1]| |]) Ee.
  destruct (transform_match_entities_loop_frame _ _ _ _ _ _ _ _ _ Ee)
    as [F1 _].
  run_step H ipattern:([[tl2 st2]| |]) Ev.
  assert (F2 : pattern_frame st1 tl1 st2 tl2).
  { destruct (var_name p).
    - destruct st1 as [cat1 cp1].
      unfold transform_match_create_path_variable in Ev.
      destruct (list_length ents <? 3); [discriminate Ev|].
      cbn [bindR] in Ev. inv_OK Ev. destruct cp1.
      split; [apply appends_columns_one; reflexivity|].
      split; [grows_by_fields | reflexivity].
    - inv_OK Ev. apply pattern_frame_refl. }
  run_step H ipattern:([jq| |]) Ej.
  destruct (list_length ents >? 3).
  - run_step H ipattern:([dq| |]) Ed. inv_OK H.
    eapply pattern_frame_trans; eassumption.
  - inv_OK H. eapply pattern_frame_trans; eassumption.
Qed.

Lemma numbered_carried (names : list string) :
  forall rtindex varattno first,
    numbered_columns first (carried_columns names rtindex varattno first).
Proof.
  induction names as [|n names IH]; intros rtindex varattno first i te H.
  - destruct i; discriminate H.
  - destruct i as [|i].
    + injection H as <-. cbn. rewrite Z.add_0_r. split; reflexivity.
    + cbn [carried_columns nth_error] in H.
      destruct (IH _ _ _ _ _ H) as [Hr Hj]. split; [|exact Hj].
      rewrite Hr. f_equal. lia.
Qed.

Lemma carried_length (names : list string) :
  forall rtindex varattno first,
    list_length (carried_columns names rtindex varattno first)
    = list_length names.
Proof.
  induction names as [|n names IH]; intros rtindex varattno first;
    [reflexivity|].
  cbn [carried_columns]. rewrite !list_length_cons, IH. reflexivity.
Qed.

(** X7. Compiling the paths of a MATCH only adds: the target list it is
    given comes back as the front of the result, entry for entry, with
    the new columns after it, none junk and numbered one after the other
    from the next free column number; the range table, the join list,
    the namespace, the entity registry and the property constraints of
    the parse state are extended and never shortened; the scope, the
    graph and the catalog stay the same; the qualifiers collected so far
    are kept in front of the new ones. *)
Theorem match_pattern_only_adds (pattern : list cypher_path) :
  forall (st : State) (tl : list TargetEntry) (quals0 : list Node)
         quals tl' st',
    transform_match_pattern_loop st tl pattern quals0 = OK (quals, tl', st') ->
    appends_columns st tl st' tl'
    /\ state_grows (snd st) (snd st')
    /\ fst st' = fst st
    /\ extends quals0 quals.
Proof.
  induction pattern as [|p rest IH]; intros st tl quals0 quals tl' st' H.
  - cbn in H. inv_OK H.
    destruct (pattern_frame_refl st' tl') as (A & B & C).
    split; [exact A|]. split; [exact B|]. split; [exact C|].
    apply extends_refl.
  - cbn [transform_match_pattern_loop] in H.
    run_step H ipattern:([[[qual tl1] st1]| |]) Ep.
    pose proof (transform_match_path_frame _ _ _ _ _ _ Ep) as F1.
    destruct (IH _ _ _ _ _ _ H) as (A & B & C & D).
    destruct (pattern_frame_trans _ _ _ _ _ _ F1 (conj A (conj B C)))
      as (A' & B' & C').
    split; [exact A'|]. split; [exact B'|]. split; [exact C'|].
    eapply extends_trans; [|exact D]. eexists. reflexivity.
Qed.

(** X8. A MATCH after another clause passes on every output column of
    that clause: the columns of the predecessor come first, under their
    names and in their order, and the columns of the variables the MATCH
    declares come after them; the whole target list is numbered one
    after the other from the first free column number, with no junk
    column. *)
Theorem match_keeps_predecessor_columns (transform : transform_method)
  (m : cypher_match) (clause pc : cypher_clause) (cat : Catalog)
  (pstate : cypher_parsestate) (Q : Query) (st' : State) :
  prev clause = Some pc ->
  p_rtable pstate = [] ->
  transform_cypher_match_pattern transform m clause (cat, pstate) = OK (Q, st') ->
  exists q st1 names more,
    transform pc (cat, subquery_child pstate) = OK (q, st1)
    /\ map resname (output_columns q) = map Some names
    /\ targetList Q
       = (carried_columns names 1 0 (p_next_resno pstate) ++ more)%list
    /\ numbered_columns (p_next_resno pstate) (targetList Q)
    /\ keeps_columns q Q (p_next_resno pstate) (map column_signature more).
Proof.
  intros Hprev Hrt H.
  unfold transform_cypher_match_pattern in H. rewrite Hprev in H.
  rewrite expand_prev_clause_fresh in H by exact Hrt.
  destruct (transform pc (cat, subquery_child pstate))
    as [[q [cat' child]]| |] eqn:Erun; try discriminate H.
  cbn [bindR] in H.
  destruct (subquery_colnames (targetList q)) as [names| |] eqn:En;
    try discriminate H.
  cbn [bindR] in H.
  unfold transform_match_pattern in H.
  cbn [targetList set_targetList] in H.
  run_step H ipattern:([[[quals tl1] [cat1 cp1]]| |]) Ep.
  run_step H ipattern:([expr| |]) Ee. inv_OK H.
  destruct (match_pattern_only_adds _ _ _ _ _ _ _ Ep)
    as ((more & -> & Hn & Hc) & _).
  destruct (after_prev_clause_fields pstate q names child) as (Hnext & _).
  cbn [snd] in Hn, Hc. rewrite Hnext in Hc.
  exists q, (cat', child), names, more.
  split; [reflexivity|].
  split; [exact (subquery_colnames_output _ _ En)|].
  cbn [targetList set_rtable_jointree set_targetList].
  split; [reflexivity|]. split.
  - apply numbered_columns_app; [apply numbered_carried|].
    rewrite carried_length. exact Hc.
  - apply (keeps_columns_intro _ _ _ names); [exact En|].
    cbn [targetList set_rtable_jointree set_targetList].
    apply map_app.
Qed.

(** X9. Compiling the elements of a MATCH path registers one entity per
    element, in the order of the path: the entities returned are exactly
    what is added at the end of the entity registry, a vertex entity for
    a node and an edge entity for a relationship, each marked as declared
    in the clause being compiled. *)
Theorem match_registers_its_entities (st : State) (tl : list TargetEntry)
  (p : cypher_path) ents tl' st' :
  transform_match_entities st tl p = OK (ents, tl', st') ->
  entities (snd st') = (entities (snd st) ++ ents)%list
  /\ list_length ents = list_length (path p)
  /\ Forall2 (fun elem ent =>
                ent_type ent = entity_kind_of elem
                /\ declared_in_current_clause ent = true)
             (path p) ents.
Proof.
  unfold transform_match_entities. intros H.
  destruct (transform_match_entities_loop_frame _ _ _ _ _ _ _ _ _ H)
    as (_ & new & -> & He & Hall).
  cbn [app] in *. split; [exact He|]. split; [|exact Hall].
  unfold list_length. rewrite (Forall2_length Hall). reflexivity.
Qed.

(** *** Vertices left out of the join tree *)

Lemma join_edge_to_right_edge (rel : cypher_relationship) (x qual : Node) :
  edge_columns_distinct ->
  rel_dir rel = CYPHER_REL_DIR_RIGHT ->
  join_to_entity (edge_entity rel x) qual JOIN_SIDE_LEFT
  = OK [eq_qual qual (edge_end (edge_entity rel x))].
Proof.
  intros Hcols Hdir. unfold join_to_entity.
  change (ent_type (edge_entity rel x)) with ENT_EDGE. cbv iota.
  unfold make_edge_quals.
  change (union_dir (entity (edge_entity rel x))) with (OK (rel_dir rel)).
  rewrite Hdir. cbn [bindR].
  rewrite (make_qual_edge_end rel x Hcols).
  reflexivity.
Qed.

Lemma no_filter_for (st : State) (label : option string) (qual : Node) :
  unfiltered_label label ->
  match label with
  | Some l =>
      if negb (IS_DEFAULT_LABEL_VERTEX label)
      then q <- filter_vertices_on_label_id st qual l ;; OK [q]
      else OK []
  | None => OK []
  end = OK [].
Proof.
  intros [-> | H]; [reflexivity|].
  destruct label; [|reflexivity]. rewrite H. reflexivity.
Qed.

Lemma join_before_omitted_vertex (st : State)
  (prev_edge : option transform_entity) (na nv : cypher_node)
  (rel : cypher_relationship) (xa xe : Node) (next_edge : transform_entity) :
  id_colnames_agree ->
  edge_columns_distinct ->
  rel_dir rel = CYPHER_REL_DIR_RIGHT ->
  make_join_condition_for_edge st prev_edge (vertex_entity na xa)
    (edge_entity rel xe) (Some (omitted_vertex nv)) (Some next_edge)
  = OK [eq_qual (edge_start (edge_entity rel xe))
          (vertex_id (vertex_entity na xa))].
Proof.
  intros Hid Hcols Hdir. unfold make_join_condition_for_edge.
  change (in_join_tree (vertex_entity na xa)) with true.
  change (in_join_tree (omitted_vertex nv)) with false.
  change (union_dir (entity (edge_entity rel xe))) with (OK (rel_dir rel)).
  rewrite Hdir. cbn [negb bindR].
  assert (Hprev : match prev_edge with
                  | Some _ => vertex_entity na xa
                  | None => vertex_entity na xa
                  end = vertex_entity na xa) by (destruct prev_edge; reflexivity).
  rewrite Hprev.
  rewrite (make_qual_edge_start rel xe Hcols).
  rewrite (make_qual_edge_end rel xe Hcols).
  cbn [bindR]. unfold make_directed_edge_join_conditions.
  change (in_join_tree (vertex_entity na xa)) with true.
  change (in_join_tree (omitted_vertex nv)) with false.
  cbv iota. rewrite (join_to_vertex na xa _ JOIN_SIDE_LEFT Hid).
  reflexivity.
Qed.

(** The edge after a vertex that is left out of the join tree is joined
    to the edge before the vertex, then to the vertex after it, and then
    holds the label of the vertex left out. *)
Lemma join_after_omitted_vertex (st : State) (nv nc : cypher_node)
  (rel1 rel2 : cypher_relationship) (x1 x2 xc : Node) :
  id_colnames_agree ->
  edge_columns_distinct ->
  rel_dir rel1 = CYPHER_REL_DIR_RIGHT ->
  rel_dir rel2 = CYPHER_REL_DIR_RIGHT ->
  make_join_condition_for_edge st (Some (edge_entity rel1 x1))
    (omitted_vertex nv) (edge_entity rel2 x2) (Some (vertex_entity nc xc)) None
  = (filter <-
       match node_label nv with
       | Some l =>
           if negb (IS_DEFAULT_LABEL_VERTEX (node_label nv))
           then q <- filter_vertices_on_label_id st
                       (edge_start (edge_entity rel2 x2)) l ;;
                OK [q]
           else OK []
       | None => OK []
       end ;;
     OK ([eq_qual (edge_start (edge_entity rel2 x2))
            (edge_end (edge_entity rel1 x1));
          eq_qual (edge_end (edge_entity rel2 x2))
            (vertex_id (vertex_entity nc xc))] ++ filter)%list).
Proof.
  intros Hid Hcols Hd1 Hd2. unfold make_join_condition_for_edge.
  change (in_join_tree (vertex_entity nc xc)) with true.
  change (in_join_tree (omitted_vertex nv)) with false.
  change (union_dir (entity (edge_entity rel2 x2))) with (OK (rel_dir rel2)).
  change (union_label (entity (omitted_vertex nv))) with (node_label nv).
  rewrite Hd2. cbn [negb bindR].
  rewrite (make_qual_edge_start rel2 x2 Hcols).
  rewrite (make_qual_edge_end rel2 x2 Hcols).
  cbn [bindR]. unfold make_directed_edge_join_conditions.
  change (in_join_tree (vertex_entity nc xc)) with true.
  change (in_join_tree (edge_entity rel1 x1)) with true.
  cbv iota.
  rewrite (join_edge_to_right_edge rel1 x1 _ Hcols Hd1).
  rewrite (join_to_vertex nc xc _ JOIN_SIDE_RIGHT Hid).
  cbn [bindR].
  destruct (node_label nv) as [l|]; [|reflexivity].
  destruct (negb (IS_DEFAULT_LABEL_VERTEX (Some l))); [|reflexivity].
  destruct (filter_vertices_on_label_id st (edge_start (edge_entity rel2 x2)) l);
    reflexivity.
Qed.

(** X10. A vertex of a MATCH path that has no variable and no properties,
    in a path without variable, is left out of the join tree: compiling
    it adds no relation and no column. In a path of right-directed edges
    the edge before such a vertex is then joined to the edge after it:
    (a)-[e1]->()-[e2]->(c) gives the three equalities e1.start_id = a.id,
    e2.start_id = e1.end_id and e2.end_id = c.id. *)
Theorem omitted_vertex_joins_its_edges (st : State)
  (na nv nc : cypher_node) (rel1 rel2 : cypher_relationship)
  (xa xc x1 x2 : Node) :
  id_colnames_agree ->
  edge_columns_distinct ->
  rel_dir rel1 = CYPHER_REL_DIR_RIGHT ->
  rel_dir rel2 = CYPHER_REL_DIR_RIGHT ->
  unfiltered_label (node_label nv) ->
  let a := vertex_entity na xa in
  let c := vertex_entity nc xc in
  let e1 := edge_entity rel1 x1 in
  let e2 := edge_entity rel2 x2 in
  make_path_join_quals st [a; e1; omitted_vertex nv; e2; c]
  = OK [eq_qual (edge_start e1) (vertex_id a);
        eq_qual (edge_start e2) (edge_end e1);
        eq_qual (edge_end e2) (vertex_id c)]
  /\ (forall p tl,
         var_name p = None -> node_name nv = None -> node_props nv = None ->
         node_label nv = None ->
         INCLUDE_NODE_IN_JOIN_TREE p nv = false
         /\ transform_cypher_node st nv tl (INCLUDE_NODE_IN_JOIN_TREE p nv)
            = OK (None, set_node_label (Some AG_DEFAULT_LABEL_VERTEX) nv, tl, st)).
Proof.
  intros Hid Hcols Hd1 Hd2 Hlabel a c e1 e2. split.
  - unfold make_path_join_quals.
    change (list_length [a; e1; omitted_vertex nv; e2; c] <? 3) with false.
    cbv iota. rewrite join_quals_loop_step.
    unfold a, c, e1, e2.
    rewrite (join_before_omitted_vertex st None na nv rel1 xa x1 _ Hid Hcols Hd1).
    cbn [bindR app]. rewrite join_quals_loop_last.
    rewrite (join_after_omitted_vertex st nv nc rel1 rel2 x1 x2 xc
               Hid Hcols Hd1 Hd2).
    rewrite (no_filter_for st _ _ Hlabel). reflexivity.
  - intros p tl Hp Hn Hprops Hl.
    assert (Hinc : INCLUDE_NODE_IN_JOIN_TREE p nv = false)
      by (unfold INCLUDE_NODE_IN_JOIN_TREE; rewrite Hp, Hn, Hprops; reflexivity).
    split; [exact Hinc|]. rewrite Hinc.
    destruct st as [cat cpstate]. unfold transform_cypher_node.
    rewrite Hl. reflexivity.
Qed.

(** X11. In a path of right-directed edges the label of a vertex that
    is left out of the join tree is not lost, wherever the vertex
    stands: when it is not the default label it becomes a filter on the
    endpoint of an edge next to the vertex. For (a)-[e]->(:L) the
    qualifiers are e.start_id = a.id and a label filter on e.end_id; for
    (:L)-[e]->(b) they are e.end_id = b.id and a label filter on
    e.start_id; for (a)-[e1]->(:L)-[e2]->(c), where the vertex has an edge
    on both sides, they are e1.start_id = a.id, e2.start_id = e1.end_id,
    e2.end_id = c.id and a label filter on e2.start_id: the edge before
    the vertex leaves the filter to the edge after it. The filter
    compares the label id extracted from the edge's endpoint with the id
    the catalog has for L. *)
Theorem omitted_vertex_label_becomes_filter (st : State)
  (n nv nc : cypher_node) (rel rel2 : cypher_relationship) (x xe xe2 xc : Node)
  (label : string) (lcd : label_cache_data) :
  id_colnames_agree ->
  edge_columns_distinct ->
  rel_dir rel = CYPHER_REL_DIR_RIGHT ->
  rel_dir rel2 = CYPHER_REL_DIR_RIGHT ->
  node_label nv = Some label ->
  label <> AG_DEFAULT_LABEL_VERTEX ->
  search_label_name_graph_cache (fst st) label (graph_oid (snd st)) = Some lcd ->
  let v := vertex_entity n x in
  let c := vertex_entity nc xc in
  let e := edge_entity rel xe in
  let e2 := edge_entity rel2 xe2 in
  make_path_join_quals st [v; e; omitted_vertex nv]
  = OK [eq_qual (edge_start e) (vertex_id v);
        label_filter (edge_end e) (lcd_id lcd)]
  /\ make_path_join_quals st [omitted_vertex nv; e; v]
     = OK [eq_qual (edge_end e) (vertex_id v);
           label_filter (edge_start e) (lcd_id lcd)]
  /\ make_path_join_quals st [v; e; omitted_vertex nv; e2; c]
     = OK [eq_qual (edge_start e) (vertex_id v);
           eq_qual (edge_start e2) (edge_end e);
           eq_qual (edge_end e2) (vertex_id c);
           label_filter (edge_start e2) (lcd_id lcd)].
Proof.
  intros Hid Hcols Hdir Hdir2 Hl Hne Hs v c e e2.
  assert (Hdef : IS_DEFAULT_LABEL_VERTEX (Some label) = false).
  { cbn. apply streq_neq. congruence. }
  assert (Hf : forall q,
             filter_vertices_on_label_id st q label
             = OK (label_filter q (lcd_id lcd))).
  { intros q. destruct st as [cat cpstate]. unfold filter_vertices_on_label_id.
    cbn [fst snd] in Hs. rewrite Hs. reflexivity. }
  split; [|split].
  - unfold make_path_join_quals.
    change (list_length [v; e; omitted_vertex nv] <? 3) with false.
    cbv iota. rewrite join_quals_loop_last.
    unfold make_join_condition_for_edge, v, e.
    change (in_join_tree (vertex_entity n x)) with true.
    change (in_join_tree (omitted_vertex nv)) with false.
    change (union_dir (entity (edge_entity rel xe))) with (OK (rel_dir rel)).
    change (union_label (entity (omitted_vertex nv))) with (node_label nv).
    rewrite Hdir, Hl. cbn [negb bindR].
    rewrite (make_qual_edge_start rel xe Hcols).
    rewrite (make_qual_edge_end rel xe Hcols).
    cbn [bindR]. unfold make_directed_edge_join_conditions.
    change (in_join_tree (vertex_entity n x)) with true.
    change (in_join_tree (omitted_vertex nv)) with false.
    cbv iota. rewrite (join_to_vertex n x _ JOIN_SIDE_LEFT Hid).
    cbn [bindR]. rewrite Hdef. cbn [negb]. rewrite Hf. reflexivity.
  - unfold make_path_join_quals.
    change (list_length [omitted_vertex nv; e; v] <? 3) with false.
    cbv iota. rewrite join_quals_loop_last.
    unfold make_join_condition_for_edge, v, e.
    change (in_join_tree (vertex_entity n x)) with true.
    change (in_join_tree (omitted_vertex nv)) with false.
    change (union_dir (entity (edge_entity rel xe))) with (OK (rel_dir rel)).
    change (union_label (entity (omitted_vertex nv))) with (node_label nv).
    rewrite Hdir, Hl. cbn [negb bindR].
    rewrite (make_qual_edge_start rel xe Hcols).
    rewrite (make_qual_edge_end rel xe Hcols).
    cbn [bindR]. unfold make_directed_edge_join_conditions.
    change (in_join_tree (vertex_entity n x)) with true.
    change (in_join_tree (omitted_vertex nv)) with false.
    cbv iota. rewrite (join_to_vertex n x _ JOIN_SIDE_RIGHT Hid).
    cbn [bindR]. rewrite Hdef. cbn [negb]. rewrite Hf. reflexivity.
  - unfold make_path_join_quals.
    change (list_length [v; e; omitted_vertex nv; e2; c] <? 3) with false.
    cbv iota. rewrite join_quals_loop_step.
    unfold v, c, e, e2.
    rewrite (join_before_omitted_vertex st None n nv rel x xe _ Hid Hcols Hdir).
    cbn [bindR app]. rewrite join_quals_loop_last.
    rewrite (join_after_omitted_vertex st nv nc rel rel2 xe xe2 xc
               Hid Hcols Hdir Hdir2).
    rewrite Hl, Hdef. cbn [negb]. rewrite Hf. reflexivity.
Qed.

(** *** A clause with WHERE *)

Lemma with_where_fresh (transform : transform_method) (clause : cypher_clause)
  (w : Node) (cat : Catalog) (pstate : cypher_parsestate) :
  p_rtable pstate = [] ->
  transform_cypher_clause_with_where transform clause (Some w) (cat, pstate)
  = ('(q, (cat', child)) <- transform clause (cat, subquery_child pstate) ;;
     names <- subquery_colnames (targetList q) ;;
     qual <- transform_cypher_expr cat'
               (after_prev_clause pstate q names child) w EXPR_KIND_WHERE ;;
     qual <- coerce_to_boolean qual "WHERE" ;;
     OK (copy_has_flags
           (set_rtable_jointree
              [prev_clause_rte pstate q names]
              (makeFromExpr (p_joinlist pstate ++ [RangeTblRef 1]) (Some qual))
              (set_targetList (carried_columns names 1 0 (p_next_resno pstate))
                 makeNode_Query))
           (cat', after_prev_clause pstate q names child),
         (cat', after_prev_clause pstate q names child))).
Proof.
  intros Hrt. destruct pstate. cbn [p_rtable] in Hrt. subst.
  unfold transform_cypher_clause_with_where,
    transform_cypher_clause_as_subquery, analyze_cypher_clause,
    after_prev_clause, prev_clause_rte, subquery_child, subquery_parent.
  destruct p_expr_kind0; cbn;
    (match goal with
     | |- context [transform clause ?s] =>
         destruct (transform clause s) as [[q [cat' child]]| |];
         [|reflexivity|reflexivity]
     end);
    cbn; unfold addRangeTableEntryForSubquery;
    (destruct (subquery_colnames (targetList q)) as [names| |] eqn:En;
     [|reflexivity|reflexivity]);
    cbn; unfold expandRelAttrs, expandRTE; cbn;
    rewrite (expand_subquery_columns (targetList q) names 1 0 _ En);
    cbn;
    (match goal with
     | |- context [transform_cypher_expr ?c ?s w EXPR_KIND_WHERE] =>
         destruct (transform_cypher_expr c s w EXPR_KIND_WHERE) as [e| |];
         [|reflexivity|reflexivity]
     end);
    cbn; (destruct (coerce_to_boolean e "WHERE"); reflexivity).
Qed.

(** X12. A clause with a WHERE is compiled as a subquery with the
    condition applied outside of it. When it compiles, the clause itself
    was compiled in a child scope; the outer query ranges over that
    subquery alone, has one column per output column of the subquery,
    under the same name and in the same order, and nothing else, and its
    qualifier is the condition, compiled in the outer scope and coerced
    to boolean. *)
Theorem where_wraps_the_clause (transform : transform_method)
  (clause : cypher_clause) (w : Node) (cat : Catalog)
  (pstate : cypher_parsestate) (Q : Query) (st' : State) :
  p_rtable pstate = [] ->
  transform_cypher_clause_with_where transform clause (Some w) (cat, pstate)
  = OK (Q, st') ->
  exists q child names e qual,
    transform clause (cat, subquery_child pstate) = OK (q, (fst st', child))
    /\ map resname (output_columns q) = map Some names
    /\ targetList Q = carried_columns names 1 0 (p_next_resno pstate)
    /\ keeps_columns q Q (p_next_resno pstate) []
    /\ rtable Q = [prev_clause_rte pstate q names]
    /\ jointree Q
       = Some (makeFromExpr (p_joinlist pstate ++ [RangeTblRef 1]) (Some qual))
    /\ transform_cypher_expr (fst st') (snd st') w EXPR_KIND_WHERE = OK e
    /\ coerce_to_boolean e "WHERE" = OK qual.
Proof.
  intros Hrt H. rewrite with_where_fresh in H by exact Hrt.
  destruct (transform clause (cat, subquery_child pstate))
    as [[q [cat' child]]| |] eqn:Erun; try discriminate H.
  cbn [bindR] in H.
  destruct (subquery_colnames (targetList q)) as [names| |] eqn:En;
    try discriminate H.
  cbn [bindR] in H.
  run_step H ipattern:([e| |]) Ee.
  run_step H ipattern:([qual| |]) Ecoerce.
  inv_OK H.
  exists q, child, names, e, qual. cbn [fst snd].
  split; [reflexivity|].
  split; [exact (subquery_colnames_output _ _ En)|].
  split; [reflexivity|].
  split.
  { apply (keeps_columns_intro _ _ _ names); [exact En|].
    cbn. rewrite app_nil_r. reflexivity. }
  split; [reflexivity|]. split; [reflexivity|].
  split; [exact Ee|exact Ecoerce].
Qed.

(** *** What CREATE adds *)

Lemma numbered_signatures_of (first : Z) (cols : list TargetEntry) :
  numbered_columns first cols ->
  numbered_signatures first (map column_signature cols).
Proof.
  intros H i s Hi. rewrite nth_error_map in Hi.
  destruct (nth_error cols i) as [te|] eqn:E; [|discriminate Hi].
  injection Hi as <-. exact (H i te E).
Qed.

Lemma numbered_signatures_app (first : Z)
  (l1 l2 : list (option string * Z * bool)) :
  numbered_signatures first l1 ->
  numbered_signatures (first + list_length l1) l2 ->
  numbered_signatures first (l1 ++ l2).
Proof.
  intros H1 H2 i s Hi.
  destruct (Nat.lt_ge_cases i (List.length l1)) as [Hlt | Hge].
  - rewrite nth_error_app1 in Hi by exact Hlt. exact (H1 i s Hi).
  - rewrite nth_error_app2 in Hi by exact Hge.
    destruct (H2 _ _ Hi) as [Hr Hj]. split; [|exact Hj].
    rewrite Hr. f_equal. unfold list_length. lia.
Qed.

Lemma appends_signatures_same (st st' : State) (tl tl' : list TargetEntry) :
  map column_signature tl' = map column_signature tl ->
  p_next_resno (snd st') = p_next_resno (snd st) ->
  appends_signatures st tl st' tl'.
Proof.
  intros Hs Hn. exists []. rewrite app_nil_r. split; [exact Hs|].
  split; [rewrite Hn; unfold list_length; cbn; lia|].
  intros i s Hi. destruct i; discriminate Hi.
Qed.

Lemma appends_signatures_columns (st st' : State) (tl tl' : list TargetEntry) :
  appends_columns st tl st' tl' -> appends_signatures st tl st' tl'.
Proof.
  intros (more & -> & Hn & Hc). exists (map column_signature more).
  split; [apply map_app|].
  split; [rewrite Hn; unfold list_length; rewrite length_map; reflexivity|].
  apply numbered_signatures_of. exact Hc.
Qed.

Lemma appends_signatures_trans (st1 st2 st3 : State)
  (tl1 tl2 tl3 : list TargetEntry) :
  appends_signatures st1 tl1 st2 tl2 ->
  appends_signatures st2 tl2 st3 tl3 ->
  appends_signatures st1 tl1 st3 tl3.
Proof.
  intros (m1 & Hs1 & Hn1 & Hc1) (m2 & Hs2 & Hn2 & Hc2).
  exists (m1 ++ m2)%list. split; [rewrite Hs2, Hs1, app_assoc; reflexivity|].
  split.
  - rewrite Hn2, Hn1, list_length_app. lia.
  - apply numbered_signatures_app; [exact Hc1|]. rewrite <- Hn1. exact Hc2.
Qed.

Lemma create_frame_trans (st1 st2 st3 : State) (tl1 tl2 tl3 : list TargetEntry) :
  create_frame st1 tl1 st2 tl2 ->
  create_frame st2 tl2 st3 tl3 ->
  create_frame st1 tl1 st3 tl3.
Proof.
  intros [A1 A2] [B1 B2].
  split; [eapply appends_signatures_trans; eassumption|].
  eapply state_grows_trans; eassumption.
Qed.

Lemma create_frame_columns (st st' : State) (tl tl' : list TargetEntry) :
  appends_columns st tl st' tl' ->
  state_grows (snd st) (snd st') ->
  create_frame st tl st' tl'.
Proof.
  intros A B. split; [apply appends_signatures_columns; exact A|exact B].
Qed.

Lemma land_lor_same (a b : Z) : Z.land (Z.lor a b) a = a.
Proof.
  apply Z.bits_inj'. intros n _.
  rewrite Z.land_spec, Z.lor_spec.
  destruct (Z.testbit a n), (Z.testbit b n); reflexivity.
Qed.

Lemma appends_columns_two (st st' : State) (tl : list TargetEntry)
  (e1 e2 : Node) (n1 n2 : option string) :
  p_next_resno (snd st') = p_next_resno (snd st) + 2 ->
  appends_columns st tl st'
    (tl ++ [makeTargetEntry e1 (p_next_resno (snd st)) n1 false;
            makeTargetEntry e2 (p_next_resno (snd st) + 1) n2 false]).
Proof.
  intros H. eexists. split; [reflexivity|]. split; [exact H|].
  apply (numbered_columns_app _ [_] [_]); apply numbered_columns_one.
Qed.

Lemma open_label_relation_spec (st : State) (label : string)
  (kind : label_kind) (default_label : string) rel st' :
  open_label_relation st label kind default_label = OK (rel, st') ->
  state_grows (snd st) (snd st')
  /\ p_next_resno (snd st') = p_next_resno (snd st).
Proof.
  destruct st as [cat cpstate]. unfold open_label_relation. intros H.
  run_step H ipattern:([cat1| |]) Ecat.
  run_step H ipattern:([r| |]) Eopen.
  unfold addRangeTableEntryForRelation in H. inv_OK H.
  split; [grows_by_fields | reflexivity].
Qed.

Lemma cypher_create_properties_wrapped (st : State) (r : Relation)
  (props : option Node) (type : transform_entity_type) e :
  cypher_create_properties st r props type = OK e ->
  exists inner, e = add_volatile_wrapper inner.
Proof.
  destruct st as [cat cpstate]. unfold cypher_create_properties. intros H.
  destruct props as [p|].
  - destruct (is_cypher_param p); [discriminate H|].
    run_step H ipattern:([x| |]) Ex. inv_OK H. eexists. reflexivity.
  - destruct type; inv_OK H; eexists; reflexivity.
Qed.

Lemma new_node_columns (st : State) (tl : list TargetEntry)
  (node : cypher_node) rel node' tl' st' :
  transform_create_cypher_new_node st tl node = OK (rel, node', tl', st') ->
  appends_columns st tl st' tl'
  /\ state_grows (snd st) (snd st')
  /\ tn_type rel = LABEL_KIND_VERTEX
  /\ tn_variable_name rel = node_name node
  /\ Z.land (tn_flags rel) CYPHER_TARGET_NODE_FLAG_INSERT
     = CYPHER_TARGET_NODE_FLAG_INSERT
  /\ (1 <= p_next_resno (snd st) <= 32766 ->
      exists more,
        tl' = (tl ++ more)%list
        /\ properties_column_of rel more /\ variable_column_of rel more).
Proof.
  destruct st as [cat cpstate].
  unfold transform_create_cypher_new_node. intros H.
  destruct (match node_label node with
            | Some l => (Some l, l, node)
            | None =>
                (Some "", AG_DEFAULT_LABEL_VERTEX,
                 set_node_label (Some AG_DEFAULT_LABEL_VERTEX) node)
            end) as [[label_name label] node1] eqn:El.
  assert (Hname : node_name node1 = node_name node)
    by (destruct (node_label node); inv_OK El; reflexivity).
  run_step H ipattern:([[r [cat1 cp1]]| |]) Eopen.
  destruct (open_label_relation_spec _ _ _ _ _ _ Eopen) as [Hg Hn].
  cbn [fst snd] in Hg, Hn.
  cbn [get_next_default_alias p_next_resno set_default_alias_num
       set_p_next_resno] in H.
  rewrite ?Hn in H.
  run_step H ipattern:([props| |]) Eprops.
  destruct (cypher_create_properties_wrapped _ _ _ _ _ Eprops) as [inner ->].
  rewrite Hname in H.
  destruct (node_name node) as [name|]; unfold placeholder_target_entry in H;
    cbn [p_next_resno set_p_next_resno] in H;
    inv_OK H; cbn [fst snd tn_type tn_variable_name tn_flags].
  - split.
    { eexists [_; _]. split; [rewrite <- app_assoc; reflexivity|].
      split; [cbn; lia|].
      apply (numbered_columns_app _ [_] [_]); apply numbered_columns_one. }
    split; [eapply state_grows_trans; [exact Hg|grows_by_fields]|].
    split; [reflexivity|]. split; [reflexivity|].
    split; [apply land_lor_same|].
    intros Hb. eexists [_; _].
    split; [rewrite <- app_assoc; reflexivity|]. split.
    + eexists. exists inner. split; [left; reflexivity|].
      cbn [resno makeTargetEntry te_expr resjunk tn_prop_attr_num].
      rewrite !to_AttrNumber_small by lia.
      split; [lia|]. split; reflexivity.
    + unfold variable_column_of. cbn [tn_variable_name tn_tuple_position].
      eexists. split; [right; left; reflexivity|].
      cbn [resno makeTargetEntry te_expr resname].
      split; [reflexivity|]. split; reflexivity.
  - split.
    { eexists [_]. split; [reflexivity|]. split; [cbn; lia|].
      apply numbered_columns_one. }
    split; [eapply state_grows_trans; [exact Hg|grows_by_fields]|].
    split; [reflexivity|]. split; [reflexivity|].
    split; [apply Z.land_diag|].
    intros Hb. eexists [_]. split; [reflexivity|]. split.
    + eexists. exists inner. split; [left; reflexivity|].
      cbn [resno makeTargetEntry te_expr resjunk tn_prop_attr_num].
      rewrite !to_AttrNumber_small by lia.
      split; [lia|]. split; reflexivity.
    + reflexivity.
Qed.

Lemma new_edge_columns (st : State) (tl : list TargetEntry)
  (edge : cypher_relationship) rel tl' st' :
  transform_create_cypher_edge st tl edge = OK (rel, tl', st') ->
  appends_columns st tl st' tl'
  /\ state_grows (snd st) (snd st')
  /\ tn_type rel = LABEL_KIND_EDGE
  /\ tn_variable_name rel = rel_name edge
  /\ Z.land (tn_flags rel) CYPHER_TARGET_NODE_FLAG_INSERT
     = CYPHER_TARGET_NODE_FLAG_INSERT
  /\ tn_dir rel = rel_dir edge
  /\ rel_dir edge <> CYPHER_REL_DIR_NONE
  /\ tn_label_name rel = rel_label edge
  /\ rel_label edge <> None
  /\ fresh_edge_variable (snd st) (rel_name edge)
  /\ (1 <= p_next_resno (snd st) <= 32766 ->
      exists more,
        tl' = (tl ++ more)%list
        /\ properties_column_of rel more /\ variable_column_of rel more).
Proof.
  destruct st as [cat cpstate].
  unfold transform_create_cypher_edge, fresh_edge_variable. intros H.
  cbn [snd].
  run_step H ipattern:([[[[[vname tpos] flags] tl1] cp0]| |]) Evar.
  destruct (rel_dir edge) eqn:Edir; try discriminate H;
    (destruct (rel_label edge) as [label|] eqn:Elabel; [|discriminate H]);
    run_step H ipattern:([[r [cat1 cp1]]| |]) Eopen;
    destruct (open_label_relation_spec _ _ _ _ _ _ Eopen) as [Hg Hn];
    cbn [fst snd] in Hg, Hn;
    cbn [get_next_default_alias p_next_resno set_default_alias_num
           set_p_next_resno] in H;
    run_step H ipattern:([props| |]) Eprops;
    destruct (cypher_create_properties_wrapped _ _ _ _ _ Eprops)
      as [inner ->];
    inv_OK H;
    cbn [fst snd tn_type tn_variable_name tn_flags tn_dir tn_label_name];
    (destruct (rel_name edge) as [name|];
     [ run_step Evar ipattern:([ex| |]) Eex;
       (destruct ex; [discriminate Evar|]);
       unfold placeholder_target_entry in Evar; inv_OK Evar;
       cbn [p_next_resno set_p_next_resno] in Hn, Hg |- *;
       (split;
        [ eexists [_; _]; split; [rewrite <- app_assoc; reflexivity|];
          split; [cbn; lia|];
          apply (numbered_columns_app _ [_] [_]);
          [apply numbered_columns_one|];
          rewrite Hn; apply numbered_columns_one |]);
       (split;
        [ eapply state_grows_trans; [|eapply state_grows_trans;
                                       [exact Hg|grows_by_fields]];
          grows_by_fields |]);
       (split; [reflexivity|]); (split; [reflexivity|]);
       (split; [apply land_lor_same|]);
       (split; [reflexivity|]); (split; [discriminate|]);
       (split; [reflexivity|]); (split; [discriminate|]);
       (split; [reflexivity|]);
       intros Hb; eexists [_; _];
       (split; [rewrite <- app_assoc; reflexivity|]); split;
       [ eexists; exists inner; split; [right; left; reflexivity|];
         cbn [resno makeTargetEntry te_expr resjunk tn_prop_attr_num];
         rewrite Hn; rewrite !to_AttrNumber_small by lia;
         split; [lia|]; split; reflexivity
       | unfold variable_column_of;
         cbn [tn_variable_name tn_tuple_position];
         eexists; split; [left; reflexivity|];
         cbn [resno makeTargetEntry te_expr resname];
         split; [reflexivity|]; split; reflexivity ]
     | inv_OK Evar;
       (split;
        [ eexists [_]; split; [reflexivity|]; split; [cbn; lia|];
          rewrite Hn; apply numbered_columns_one |]);
       (split; [eapply state_grows_trans; [exact Hg|grows_by_fields]|]);
       (split; [reflexivity|]); (split; [reflexivity|]);
       (split; [apply Z.land_diag|]);
       (split; [reflexivity|]); (split; [discriminate|]);
       (split; [reflexivity|]); (split; [discriminate|]);
       (split; [reflexivity|]);
       intros Hb; eexists [_]; (split; [reflexivity|]); split;
       [ eexists; exists inner; split; [left; reflexivity|];
         cbn [resno makeTargetEntry te_expr resjunk tn_prop_attr_num];
         rewrite Hn; rewrite !to_AttrNumber_small by lia;
         split; [lia|]; split; reflexivity
       | reflexivity ] ]).
Qed.

Lemma create_node_frame (st : State) (tl : list TargetEntry)
  (node : cypher_node) rel node' tl' st' :
  transform_create_cypher_node st tl node = OK (rel, node', tl', st') ->
  create_frame st tl st' tl'.
Proof.
  destruct st as [cat cpstate]. unfold transform_create_cypher_node. intros H.
  destruct (match node_name node with
            | Some name => find_variable cpstate name
            | None => None
            end) as [ent|].
  - destruct (negb (is_ENT_VERTEX (ent_type ent))); [discriminate H|].
    run_step H ipattern:([[rel1 tl1]| |]) Ee. inv_OK H.
    unfold transform_create_cypher_existing_node in Ee.
    destruct (node_props node'); [discriminate Ee|].
    destruct (node_label node'); [discriminate Ee|].
    run_step Ee ipattern:([[pos tl2]| |]) Er. inv_OK Ee.
    split; [|apply state_grows_refl].
    apply appends_signatures_same; [|reflexivity].
    exact (get_target_entry_resno_signature _ _ _ _ Er).
  - destruct (new_node_columns _ _ _ _ _ _ _ H) as (A & B & _).
    apply create_frame_columns; assumption.
Qed.

Lemma create_path_loop_frame (in_path : bool) (elems : list path_element) :
  forall (st : State) (tl : list TargetEntry) (tp0 : list cypher_target_node)
         tp tl' st',
    transform_cypher_create_path_loop st tl in_path elems tp0 = OK (tp, tl', st') ->
    create_frame st tl st' tl'.
Proof.
  induction elems as [|elem rest IH]; intros st tl tp0 tp tl' st' H.
  - cbn in H. inv_OK H. split; [|apply state_grows_refl].
    apply appends_signatures_same; reflexivity.
  - cbn [transform_cypher_create_path_loop] in H. destruct elem as [node|edge].
    + run_step H ipattern:([[[[rel node1] tl1] [cat1 cp1]]| |]) En.
      pose proof (create_node_frame _ _ _ _ _ _ _ En) as F1.
      pose proof (IH _ _ _ _ _ _ H) as F2.
      eapply create_frame_trans; [exact F1|].
      eapply create_frame_trans; [|exact F2].
      split; [apply appends_signatures_same; reflexivity|].
      cbn [register_entity snd]. grows_by_fields.
    + run_step H ipattern:([[[rel tl1] [cat1 cp1]]| |]) En.
      destruct (new_edge_columns _ _ _ _ _ _ En) as (A & B & _).
      pose proof (create_frame_columns _ _ _ _ A B) as F1.
      pose proof (IH _ _ _ _ _ _ H) as F2.
      eapply create_frame_trans; [exact F1|].
      eapply create_frame_trans; [|exact F2].
      split; [apply appends_signatures_same; reflexivity|].
      cbn [register_entity snd]. grows_by_fields.
Qed.

Lemma create_path_frame (st : State) (tl : list TargetEntry)
  (p : cypher_path) ccp tl' st' :
  transform_cypher_create_path st tl p = OK (ccp, tl', st') ->
  create_frame st tl st' tl'.
Proof.
  unfold transform_cypher_create_path. intros H.
  run_step H ipattern:([[[tp tl1] [cat1 cp1]]| |]) El.
  pose proof (create_path_loop_frame _ _ _ _ _ _ _ _ El) as F1.
  destruct (var_name p) as [name|].
  - destruct (list_length tp <? 3); [discriminate H|].
    unfold placeholder_target_entry in H. inv_OK H.
    eapply create_frame_trans; [exact F1|].
    apply create_frame_columns.
    + apply appends_columns_one. reflexivity.
    + cbn [snd]. grows_by_fields.
  - inv_OK H. exact F1.
Qed.

Lemma create_pattern_frame (pattern : list cypher_path) :
  forall (st : State) (tl : list TargetEntry) (tp0 : list cypher_create_path)
         tp tl' st',
    transform_cypher_create_pattern st tl pattern tp0 = OK (tp, tl', st') ->
    create_frame st tl st' tl'.
Proof.
  induction pattern as [|p rest IH]; intros st tl tp0 tp tl' st' H.
  - cbn in H. inv_OK H. split; [|apply state_grows_refl].
    apply appends_signatures_same; reflexivity.
  - cbn [transform_cypher_create_pattern] in H.
    run_step H ipattern:([[[ccp tl1] st1]| |]) Ep.
    eapply create_frame_trans;
      [exact (create_path_frame _ _ _ _ _ _ Ep) | exact (IH _ _ _ _ _ _ H)].
Qed.

Lemma scan_colnames_absent (cols : list string) (name : string) :
  occurrences name cols = 0%nat ->
  forall attnum result, scan_colnames cols name attnum result = OK result.
Proof.
  unfold occurrences.
  induction cols as [|c cols IH]; intros H attnum result; [reflexivity|].
  cbn [filter scan_colnames] in H |- *.
  destruct (streq c name); [discriminate H|]. apply IH. exact H.
Qed.

Lemma scan_colnames_once (cols : list string) (name : string) :
  occurrences name cols = 1%nat ->
  forall attnum, exists found,
    scan_colnames cols name attnum None = OK (Some found).
Proof.
  unfold occurrences.
  induction cols as [|c cols IH]; intros H attnum; [discriminate H|].
  cbn [filter scan_colnames] in H |- *.
  destruct (streq c name).
  - cbn [List.length] in H. injection H as H.
    rewrite (scan_colnames_absent cols name H). eexists. reflexivity.
  - apply IH. exact H.
Qed.

Lemma find_rte_from_total (rtable : list RangeTblEntry) (v : string) :
  forall rtindex, exists found, find_rte_from rtable rtindex (Some v) = OK found.
Proof.
  induction rtable as [|rte rtable IH]; intros rtindex; cbn [find_rte_from].
  - eexists. reflexivity.
  - destruct (rte_alias rte) as [aliasname|]; [|apply IH].
    destruct (streq aliasname v); [eexists; reflexivity|apply IH].
Qed.

Lemma variable_exists_column (cpstate : cypher_parsestate) (name : string) :
  predecessor_column cpstate name ->
  variable_exists cpstate (Some name) = OK true.
Proof.
  unfold predecessor_column, predecessor_columns, variable_exists.
  intros (cols & Hcols & Hocc).
  destruct (find_rte cpstate (Some PREV_CYPHER_CLAUSE_ALIAS))
    as [[[rtindex rte]|]| |]; try discriminate Hcols.
  injection Hcols as <-. cbn [bindR]. unfold scanRTEForColumn.
  destruct (scan_colnames_once _ _ Hocc 0) as [found ->]. reflexivity.
Qed.

Lemma variable_exists_no_column (cpstate : cypher_parsestate)
  (name : option string) :
  no_predecessor_column cpstate name ->
  variable_exists cpstate name = OK false.
Proof.
  unfold no_predecessor_column, predecessor_columns, variable_exists.
  intros H. destruct name as [n|]; [|reflexivity].
  specialize (H n).
  unfold find_rte in *.
  destruct (find_rte_from_total (p_rtable cpstate) PREV_CYPHER_CLAUSE_ALIAS 1)
    as [found Hfound].
  rewrite Hfound in *. cbn [bindR].
  destruct found as [[rtindex rte]|]; [|reflexivity].
  unfold scanRTEForColumn.
  rewrite (scan_colnames_absent _ _ (H _ eq_refl eq_refl)). reflexivity.
Qed.

(** X13. What CREATE checks on an edge, and in which order. An edge whose
    variable names an output column of the preceding clause is rejected
    with "variable ... already exists". Nothing else is asked of the
    variable: the entity registry and the target list are not looked at,
    so a variable declared earlier in the same CREATE passes. After the
    variable, an edge without direction is rejected with "only directed
    relationships are allowed in CREATE", and then a directed edge
    without label with "relationships must be specify a label in
    CREATE.". *)
Theorem create_edge_is_checked_in_order (cat : Catalog)
  (cpstate : cypher_parsestate) (tl : list TargetEntry)
  (edge : cypher_relationship) :
  (forall name,
      rel_name edge = Some name ->
      predecessor_column cpstate name ->
      transform_create_cypher_edge (cat, cpstate) tl edge
      = ERROR (mkErrorData ERRCODE_FEATURE_NOT_SUPPORTED
                 ("variable " ++ name ++ " already exists") None None))
  /\ (no_predecessor_column cpstate (rel_name edge) ->
      (rel_dir edge = CYPHER_REL_DIR_NONE ->
       transform_create_cypher_edge (cat, cpstate) tl edge
       = ERROR (undirected_create_error (rel_location edge)))
      /\ (rel_dir edge <> CYPHER_REL_DIR_NONE ->
          rel_label edge = None ->
          transform_create_cypher_edge (cat, cpstate) tl edge
          = ERROR (unlabelled_create_error (rel_location edge)))).
Proof.
  unfold transform_create_cypher_edge. split.
  - intros name -> Hcol. rewrite (variable_exists_column _ _ Hcol).
    reflexivity.
  - intros Hfresh. apply variable_exists_no_column in Hfresh. split.
    + intros Hdir.
      destruct (rel_name edge) as [name|];
        [rewrite Hfresh; unfold placeholder_target_entry|];
        cbn [bindR]; rewrite Hdir; reflexivity.
    + intros Hdir Hl.
      destruct (rel_name edge) as [name|];
        [rewrite Hfresh; unfold placeholder_target_entry|];
        cbn [bindR]; rewrite Hl; destruct (rel_dir edge);
        first [contradiction | reflexivity].
Qed.


(** X15. A CREATE passes on every output column of its predecessor, under
    the same name and at the same place, and adds its own columns after
    them: first the null value column, then the columns of the pattern,
    and last the plan column. The columns of the result are numbered one
    after the other from the first free column number, and none is
    junk. *)
Theorem create_keeps_predecessor_columns (transform : transform_method)
  (clause pc : cypher_clause) (c : cypher_create) (cat : Catalog)
  (pstate : cypher_parsestate) (Q : Query) (st' : State) :
  prev clause = Some pc ->
  p_rtable pstate = [] ->
  transform_cypher_create transform clause c (cat, pstate) = OK (Q, st') ->
  let first := p_next_resno pstate in
  exists q st1 middle,
    transform pc (cat, subquery_child pstate) = OK (q, st1)
    /\ keeps_columns q Q first
         (own_column (Some AGE_VARNAME_CREATE_NULL_VALUE)
            (first + list_length (output_columns q))
          :: middle
          ++ [own_column (Some AGE_VARNAME_CREATE_CLAUSE)
                (first + list_length (output_columns q) + 1
                 + list_length middle)])
    /\ numbered_signatures first (map column_signature (targetList Q)).
Proof.
  intros Hprev Hrt H first.
  unfold transform_cypher_create in H. rewrite Hprev in H.
  rewrite expand_prev_clause_fresh in H by exact Hrt.
  destruct (transform pc (cat, subquery_child pstate))
    as [[q [cat' child]]| |] eqn:Erun; try discriminate H.
  cbn [bindR] in H.
  destruct (subquery_colnames (targetList q)) as [names| |] eqn:En;
    try discriminate H.
  cbn [bindR] in H.
  run_step H ipattern:([[[tp tl2] [cat2 cp2]]| |]) Ep. inv_OK H.
  destruct (create_pattern_frame _ _ _ _ _ _ _ Ep)
    as ((middle & Hsig & Hn & Hc) & _).
  destruct (after_prev_clause_fields pstate q names child) as (Hnext & _).
  cbn [snd p_next_resno set_p_next_resno] in Hn, Hc.
  rewrite Hnext in Hn, Hc.
  assert (Hlen : list_length (output_columns q) = list_length names).
  { pose proof (subquery_colnames_output _ _ En) as Ho.
    unfold list_length, output_columns.
    rewrite <- (length_map resname), Ho, length_map. reflexivity. }
  assert (Hall : map column_signature (tl2 ++ [makeTargetEntry
                   (FuncExpr CREATE_CLAUSE_FUNCTION_NAME AGTYPEOID
                      [Const_internal
                         (out_create
                            (mk_cypher_create_target_nodes tp
                               (if next_is_null clause
                                then Z.lor (Z.lor CYPHER_CLAUSE_FLAG_NONE
                                              CYPHER_CLAUSE_FLAG_PREVIOUS_CLAUSE)
                                       CYPHER_CLAUSE_FLAG_TERMINAL
                                else Z.lor CYPHER_CLAUSE_FLAG_NONE
                                       CYPHER_CLAUSE_FLAG_PREVIOUS_CLAUSE)
                               (graph_oid cp2)))])
                   (p_next_resno cp2) (Some AGE_VARNAME_CREATE_CLAUSE) false])
                 = (map column_signature
                      (carried_columns names 1 0 (p_next_resno pstate))
                    ++ own_column (Some AGE_VARNAME_CREATE_NULL_VALUE)
                         (first + list_length names)
                    :: middle
                    ++ [own_column (Some AGE_VARNAME_CREATE_CLAUSE)
                          (first + list_length names + 1
                           + list_length middle)])%list).
  { rewrite map_app, Hsig, map_app, Hnext, Hn. cbn [map].
    rewrite <- !app_assoc. reflexivity. }
  exists q, (cat', child), middle.
  split; [reflexivity|]. split.
  - apply (keeps_columns_intro _ _ _ names); [exact En|].
    cbn [targetList set_rtable_jointree set_targetList].
    rewrite Hlen. exact Hall.
  - cbn [targetList set_rtable_jointree set_targetList]. rewrite Hall.
    apply numbered_signatures_app;
      [apply numbered_signatures_of, numbered_carried|].
    unfold list_length at 1. rewrite length_map.
    fold (list_length (carried_columns names 1 0 (p_next_resno pstate))).
    rewrite carried_length.
    apply (numbered_signatures_app _ [_]).
    + intros i s Hi. destruct i as [|[|i]]; try discriminate Hi.
      injection Hi as <-. cbn. rewrite Z.add_0_r. split; reflexivity.
    + apply numbered_signatures_app.
      * replace (p_next_resno pstate + list_length names + list_length
                   [own_column (Some AGE_VARNAME_CREATE_NULL_VALUE)
                      (first + list_length names)])
          with (p_next_resno pstate + list_length names + 1)
          by (unfold list_length; cbn; lia).
        exact Hc.
      * intros i s Hi. destruct i as [|[|i]]; try discriminate Hi.
        injection Hi as <-. cbn. split; [|reflexivity].
        f_equal. unfold first, list_length. cbn. lia.
Qed.

(** *** Entities across clauses and lookups *)

Lemma find_variable_loop_app (l1 l2 : list transform_entity) (name : string) :
  find_variable_loop (l1 ++ l2) name
  = match find_variable_loop l1 name with
    | Some ent => Some ent
    | None => find_variable_loop l2 name
    end.
Proof.
  induction l1 as [|ent l1 IH]; [reflexivity|].
  cbn [app find_variable_loop].
  destruct (union_name (entity ent)) as [n|]; [|exact IH].
  destruct (streq name n); [reflexivity|exact IH].
Qed.

Lemma find_variable_loop_advanced (l : list transform_entity) (name : string) :
  find_variable_loop (advance_transform_entities_to_next_clause l) name
  = option_map advanced (find_variable_loop l name).
Proof.
  induction l as [|ent l IH]; [reflexivity|].
  cbn [advance_transform_entities_to_next_clause map find_variable_loop entity].
  destruct (union_name (entity ent)) as [n|]; [|exact IH].
  destruct (streq name n); [reflexivity|exact IH].
Qed.

(** X16. The variables of a clause are handed on to the clause after it.
    When a clause is compiled as the predecessor of another, it is
    compiled in a scope of its own, and afterwards its entities are
    added at the end of the entity registry of the clause that follows,
    each marked as no longer declared in the current clause; nothing else
    of the following clause's parse state changes. So a variable of the
    predecessor is found in the following clause with its kind and
    expression, unless that clause already had an entity of the name,
    which then wins. *)
Theorem entities_pass_to_the_next_clause (transform : transform_method)
  (clause : cypher_clause) (cat : Catalog) (parent : cypher_parsestate)
  (q : Query) (st' : State) :
  analyze_cypher_clause transform clause (cat, parent) = OK (q, st') ->
  exists child,
    transform clause (cat, nested_scope parent) = OK (q, (fst st', child))
    /\ snd st'
       = set_entities
           (entities parent
            ++ advance_transform_entities_to_next_clause (entities child))
           parent
    /\ Forall (fun ent => declared_in_current_clause ent = false)
              (advance_transform_entities_to_next_clause (entities child))
    /\ forall name,
         find_variable (snd st') name
         = match find_variable parent name with
           | Some ent => Some ent
           | None => option_map advanced (find_variable child name)
           end.
Proof.
  unfold analyze_cypher_clause, nested_scope. intros H.
  run_step H ipattern:([[q1 [cat1 child]]| |]) Erun. inv_OK H.
  exists child. cbn [fst snd].
  split; [reflexivity|]. split; [reflexivity|]. split.
  - unfold advance_transform_entities_to_next_clause.
    apply Forall_map. apply Forall_forall. intros ent _. reflexivity.
  - intros name. unfold find_variable.
    destruct parent. cbn [entities set_entities].
    rewrite find_variable_loop_app, find_variable_loop_advanced. reflexivity.
Qed.

Lemma lookup_by_signature (tl1 : list TargetEntry) :
  forall (tl2 : list TargetEntry) (name : option string),
    map column_signature tl1 = map column_signature tl2 ->
    lookup_position tl1 name = lookup_position tl2 name.
Proof.
  unfold lookup_position.
  induction tl1 as [|t1 tl1 IH]; intros tl2 name H.
  - destruct tl2; [reflexivity|discriminate H].
  - destruct tl2 as [|t2 tl2]; [discriminate H|].
    cbn [map] in H. unfold column_signature at 1 3 in H.
    injection H as Hn Hr Hj Hrest.
    cbn [get_target_entry_resno]. rewrite Hn.
    destruct (resname t2) as [n|]; [|reflexivity].
    destruct name as [m|]; [|reflexivity].
    destruct (streq n m); [cbn [bindR]; rewrite Hr; reflexivity|].
    specialize (IH tl2 (Some m) Hrest).
    destruct (get_target_entry_resno tl1 (Some m)) as [[p1 r1]| |];
      destruct (get_target_entry_resno tl2 (Some m)) as [[p2 r2]| |];
      cbn [bindR] in IH |- *; try discriminate IH; try reflexivity;
      injection IH as ->; reflexivity.
Qed.

(** X18. Looking a variable up changes no answer. A lookup wraps the
    expression of the column it finds in one more volatile wrapper and
    changes nothing else: names, numbers and junk marks of all columns
    stay. Since a lookup reads only those, every later lookup, of the
    same name or of another, finds the position it would have found
    before; looking the same name up again finds the same position. *)
Theorem lookups_do_not_disturb_each_other (tl : list TargetEntry)
  (name : option string) (pos : Z) (tl' : list TargetEntry) :
  get_target_entry_resno tl name = OK (pos, tl') ->
  map column_signature tl' = map column_signature tl
  /\ (forall other, lookup_position tl' other = lookup_position tl other)
  /\ lookup_position tl' name = OK pos
  /\ (pos <> -1 ->
      exists front te back,
        tl = (front ++ te :: back)%list
        /\ tl' = (front ++ set_te_expr (add_volatile_wrapper (te_expr te)) te
                  :: back)%list
        /\ resname te = name /\ resno te = pos
        /\ Forall (fun t => resname t <> name) front).
Proof.
  intros H.
  pose proof (get_target_entry_resno_signature _ _ _ _ H) as Hsig.
  split; [exact Hsig|]. split.
  - intros other. apply lookup_by_signature. exact Hsig.
  - split.
    + rewrite (lookup_by_signature tl' tl name Hsig).
      unfold lookup_position. rewrite H. reflexivity.
    + revert pos tl' H Hsig.
      induction tl as [|t tl IH]; intros pos tl' H _ Hpos.
      * cbn in H. inv_OK H. contradiction.
      * cbn [get_target_entry_resno] in H.
        destruct (resname t) as [n|] eqn:En; [|discriminate H].
        destruct name as [m|]; [|discriminate H].
        destruct (streq n m) eqn:Es.
        -- inv_OK H. apply String.eqb_eq in Es. subst m.
           exists [], t, tl. repeat split; try assumption. constructor.
        -- run_step H ipattern:([[r rest']| |]) Er. inv_OK H.
           destruct (IH _ _ eq_refl
                       (get_target_entry_resno_signature _ _ _ _ Er) Hpos)
             as (front & te & back & -> & -> & Hn & Hr & Hall).
           exists (t :: front), te, back.
           repeat split; try assumption.
           constructor; [|exact Hall].
           rewrite En. intros E. injection E as ->.
           rewrite streq_refl in Es. discriminate Es.
Qed.

End Properties.

(** * The theorems at work

    The statements above, applied to the list-backed catalog and to small
    clause chains. *)

Section Examples.

#[local] Existing Instance age_headers.
#[local] Existing Instance list_collaborators.

(** (a)-[e]-(b), the three entities being relations of the clause. *)
Lemma undirected_edge_enumerates_both_orientations_witness :
  let read name col :=
    FuncCall ["ag_catalog"; "graphid_to_agtype"]
      [ColumnRef [T_String (Some name); T_String (Some col)] 0] in
  let relation := FuncExpr "_agtype_build_vertex" AGTYPEOID [] in
  make_path_join_quals demo_state
    [vertex_entity node_a relation;
     edge_entity (bare_rel "e" CYPHER_REL_DIR_NONE) relation;
     vertex_entity node_b relation]
  = OK [BoolExpr OR_EXPR
          [BoolExpr AND_EXPR
             [A_Expr AEXPR_OP "=" (read "e" "start_id") (read "a" "id");
              A_Expr AEXPR_OP "=" (read "e" "end_id") (read "b" "id")];
           BoolExpr AND_EXPR
             [A_Expr AEXPR_OP "=" (read "e" "end_id") (read "a" "id");
              A_Expr AEXPR_OP "=" (read "e" "start_id") (read "b" "id")]]].
Proof.
  intros read relation.
  destruct (@undirected_edge_enumerates_both_orientations age_headers
              list_collaborators demo_state node_a
              node_b (bare_rel "e" CYPHER_REL_DIR_NONE) relation relation
              relation eq_refl
              ltac:(vm_compute; repeat split; discriminate) eq_refl)
    as [H _].
  exact H.
Defined.

(** (a)-[e1]->(b)-[e2]->(c), the five entities being variables of an
    earlier clause. *)
Lemma right_path_is_conjunction_of_equalities_witness :
  let call fn x := FuncCall ["ag_catalog"; fn] [x] in
  let a := Var 1 1 0 in
  let e1 := Var 2 1 0 in
  let b := Var 3 1 0 in
  let e2 := Var 4 1 0 in
  let c := Var 5 1 0 in
  make_path_join_quals demo_state
    [vertex_entity node_a a;
     edge_entity (bare_rel "e1" CYPHER_REL_DIR_RIGHT) e1;
     vertex_entity node_b b;
     edge_entity (bare_rel "e2" CYPHER_REL_DIR_RIGHT) e2;
     vertex_entity node_c c]
  = OK [A_Expr AEXPR_OP "=" (call "age_start_id" e1) (call "age_id" a);
        A_Expr AEXPR_OP "=" (call "age_end_id" e1) (call "age_id" b);
        A_Expr AEXPR_OP "=" (call "age_start_id" e2) (call "age_id" b);
        A_Expr AEXPR_OP "=" (call "age_end_id" e2) (call "age_id" c)].
Proof.
  intros call a e1 b e2 c.
  destruct (@right_path_is_conjunction_of_equalities age_headers
              list_collaborators demo_state node_a a
              [((bare_rel "e1" CYPHER_REL_DIR_RIGHT, e1), (node_b, b));
               ((bare_rel "e2" CYPHER_REL_DIR_RIGHT, e2), (node_c, c))]
              eq_refl
              ltac:(vm_compute; repeat split; discriminate)
              ltac:(repeat constructor))
    as (H1 & _ & _).
  exact H1.
Defined.

(** MATCH (a)-[e1]->(b)-[e2]->(c): two edges, four equalities. *)
Lemma two_right_edges_give_four_equalities :
  exists ents tl st quals,
    transform_match_entities demo_state [] two_right_hops = OK (ents, tl, st)
    /\ make_path_join_quals st ents = OK quals
    /\ num_edges (path two_right_hops) = 2
    /\ forallb is_equality quals = true
    /\ list_length quals = 4
    /\ list_length quals <> 2 + 1.
Proof.
  do 4 eexists. split; [vm_compute; reflexivity|].
  split; [vm_compute; reflexivity|].
  repeat split; try reflexivity. discriminate.
Qed.

(** MATCH (a)-[e1]->(b)-[e2]->(c) *)
Lemma duplicate_edge_qual_iff_two_edges_witness :
  let read name col :=
    FuncCall ["ag_catalog"; "graphid_to_agtype"]
      [ColumnRef [T_String (Some name); T_String (Some col)] 0] in
  exists join_quals tl st,
    transform_match_path demo_state [] two_right_hops
    = OK ((join_quals
           ++ [FuncCall ["ag_catalog"; "_ag_enforce_edge_uniqueness"]
                 [read "e1" "id"; read "e2" "id"]])%list,
          tl, st)
    /\ existsb is_edge_uniqueness_qual join_quals = false.
Proof.
  intros read.
  assert (Hwf : well_formed_path (path two_right_hops)).
  { exists node_a, [(bare_rel "e1" CYPHER_REL_DIR_RIGHT, node_b);
                    (bare_rel "e2" CYPHER_REL_DIR_RIGHT, node_c)].
    reflexivity. }
  match eval vm_compute in (transform_match_entities demo_state [] two_right_hops)
  with
  | OK (?ents, ?tl1, ?st1) =>
      assert (Hents : transform_match_entities demo_state [] two_right_hops
                      = OK (ents, tl1, st1)) by (vm_compute; reflexivity);
      destruct (@duplicate_edge_qual_iff_two_edges age_headers
                  list_collaborators demo_state [] two_right_hops
                  ents tl1 st1 eq_refl Hwf Hents (or_introl eq_refl))
        as (jq & tl2 & st2 & Hrun & _ & Hnone & _ & _)
  end.
  exists jq, tl2, st2. split.
  - rewrite Hrun. vm_compute. reflexivity.
  - apply Bool.not_true_is_false. intros Hex.
    apply existsb_exists in Hex. destruct Hex as (q & Hin & Hq).
    rewrite Forall_forall in Hnone. rewrite (Hnone q Hin) in Hq.
    discriminate Hq.
Defined.



Lemma named_path_needs_three_elements_witness :
  exists quals tl st,
    transform_match_path demo_state [] named_one_hop = OK (quals, tl, st)
    /\ map resname tl = [Some "a"; Some "e"; Some "b"; Some "p"].
Proof.
  destruct (@named_path_needs_three_elements age_headers list_collaborators)
    as (_ & Hmatch & _).
  edestruct (fun ents tl1 st1 H =>
               proj2 (Hmatch demo_state [] named_one_hop "p" ents tl1 st1
                        eq_refl H))
    as (quals & st2 & Hrun).
  { vm_compute. reflexivity. }
  { vm_compute. discriminate. }
  { reflexivity. }
  { exists node_a, [(bare_rel "e" CYPHER_REL_DIR_RIGHT, node_b)]. reflexivity. }
  do 3 eexists. split; [exact Hrun|]. reflexivity.
Defined.

(** MATCH p = (a)-[e]->(b) and CREATE p = (a)-[e:KNOWS]->(b): three
    elements, one edge, and the path variable gets its column. *)
Lemma named_path_of_three_elements_compiles :
  list_length (path named_one_hop) = 3
  /\ num_edges (path named_one_hop) = 1
  /\ (exists quals tl st,
         transform_match_path demo_state [] named_one_hop = OK (quals, tl, st)
         /\ map resname tl = [Some "a"; Some "e"; Some "b"; Some "p"])
  /\ list_length (path named_one_hop_to_create) = 3
  /\ num_edges (path named_one_hop_to_create) = 1
  /\ (exists ccp tl st,
         transform_cypher_create_path demo_state [] named_one_hop_to_create
         = OK (ccp, tl, st)
         /\ In (Some "p") (map resname tl)
         /\ list_length (target_nodes ccp) = 3).
Proof.
  split; [reflexivity|]. split; [reflexivity|]. split.
  - do 3 eexists. split; vm_compute; reflexivity.
  - split; [reflexivity|]. split; [reflexivity|].
    do 3 eexists. split; [vm_compute; reflexivity|].
    split; [vm_compute; tauto|reflexivity].
Qed.

(** DELETE x alone, and MATCH (x) DELETE x. *)
Lemma update_clauses_read_their_predecessor_witness :
  transform_cypher_delete transform_cypher_clause
    (mk_cypher_clause (self_delete delete_x) true None) delete_x demo_state
  = ERROR (first_clause_error "DELETE" 0)
  /\ exists Q st' tl',
       transform_cypher_delete transform_cypher_clause match_x_delete_x
         delete_x demo_state = OK (Q, st')
       /\ targetList Q
          = (tl' ++ [delete_plan_entry [mk_cypher_delete_item 1 (Some "x")]
                       match_x_delete_x delete_x top_cpstate 2])%list
       /\ map column_signature tl' = [(Some "x", 1, false)].
Proof.
  split.
  - exact (proj1 (proj1 (@update_clauses_read_their_predecessor age_headers
                           list_collaborators transform_cypher_clause
                           (mk_cypher_clause (self_delete delete_x) true None)
                           demo_catalog top_cpstate) eq_refl) delete_x).
  - edestruct (fun q cat' child names Hrun Hnames Hbound Hall =>
                 proj1 (proj2 (@update_clauses_read_their_predecessor
                                 age_headers list_collaborators
                                 transform_cypher_clause match_x_delete_x
                                 demo_catalog top_cpstate)
                          match_x q cat' child names eq_refl eq_refl
                          (Z.le_refl 1) Hbound Hrun Hnames)
                   delete_x [("x", 0)] eq_refl Hall)
      as (Q & st' & tl' & Hd & Htl & Hsig & _).
    2: (vm_compute; reflexivity).
    2: (vm_compute; reflexivity).
    1: (vm_compute; discriminate).
    1: (repeat constructor).
    exists Q, st', tl'. split; [exact Hd|]. split; [exact Htl|exact Hsig].
Defined.

(** MATCH (x) SET x.p = 1, x.q = 2; MATCH (x) REMOVE x.p; MATCH (x)
    REMOVE y.p. *)
Lemma set_and_remove_take_one_item_witness :
  transform_cypher_set transform_cypher_clause
    (after_match_x (self_set set_x_p_x_q)) set_x_p_x_q demo_state
  = ERROR (multiple_items_error "SET" 0)
  /\ (exists Q st' tl',
         transform_cypher_set transform_cypher_clause
           (after_match_x (self_set remove_x_p)) remove_x_p demo_state
         = OK (Q, st')
         /\ targetList Q
            = (tl' ++ [update_plan_entry
                         [mk_cypher_update_item (Some "x") (Some "p") 1 0 true]
                         (after_match_x (self_set remove_x_p)) remove_x_p
                         top_cpstate 2])%list)
  /\ transform_cypher_set transform_cypher_clause
       (after_match_x (self_set remove_y_p)) remove_y_p demo_state
     = ERROR (undefined_reference_error "y" "REMOVE" 0).
Proof.
  split; [|split].
  - eapply (proj2 (proj1 (@set_and_remove_take_one_item age_headers
                            list_collaborators transform_cypher_clause
                            (after_match_x (self_set set_x_p_x_q))
                            demo_catalog top_cpstate)
                     set_x_p_x_q ltac:(vm_compute; discriminate))
              match_x _ _ eq_refl).
    vm_compute. reflexivity.
  - edestruct (fun q cat' child names Hrun Hnames Hbound =>
                 proj2 (@set_and_remove_take_one_item age_headers
                          list_collaborators transform_cypher_clause
                          (after_match_x (self_set remove_x_p))
                          demo_catalog top_cpstate)
                   match_x q cat' child names remove_x_p "x" "p" NULLPTR 0
                   eq_refl eq_refl (Z.le_refl 1) Hbound
                   Hrun Hnames eq_refl eq_refl)
      as (_ & Hfound & _).
    2: (vm_compute; reflexivity).
    2: (vm_compute; reflexivity).
    1: (vm_compute; discriminate).
    destruct (Hfound (or_introl eq_refl))
      as (Q & st' & tl' & pos & Hrun & Hpos & _ & Htl & _).
    injection Hpos as <-.
    exists Q, st', tl'. split; [exact Hrun|exact Htl].
  - edestruct (fun q cat' child names Hrun Hnames Hbound =>
                 proj2 (@set_and_remove_take_one_item age_headers
                          list_collaborators transform_cypher_clause
                          (after_match_x (self_set remove_y_p))
                          demo_catalog top_cpstate)
                   match_x q cat' child names remove_y_p "y" "p" NULLPTR 0
                   eq_refl eq_refl (Z.le_refl 1) Hbound
                   Hrun Hnames eq_refl eq_refl)
      as (_ & _ & Hmissing).
    2: (vm_compute; reflexivity).
    2: (vm_compute; reflexivity).
    1: (vm_compute; discriminate).
    apply Hmissing. intros [H|[]]. discriminate H.
Defined.






(** MATCH (x) DELETE x keeps the column [x] of MATCH (x) as its first
    column and adds the plan column as its second. *)
Lemma update_clauses_keep_predecessor_columns_witness :
  exists Q st' q st1,
    transform_cypher_delete transform_cypher_clause match_x_delete_x delete_x
      demo_state = OK (Q, st')
    /\ transform_cypher_clause match_x (demo_catalog, subquery_child top_cpstate)
       = OK (q, st1)
    /\ keeps_columns q Q 1 [own_column (Some AGE_VARNAME_DELETE_CLAUSE) 2]
    /\ map column_signature (targetList Q)
       = [(Some "x", 1, false);
          (Some "_age_default_varname_delete_clause", 2, false)].
Proof.
  assert (Hrun : exists Q st',
             transform_cypher_delete transform_cypher_clause match_x_delete_x
               delete_x demo_state = OK (Q, st')
             /\ map column_signature (targetList Q)
                = [(Some "x", 1, false);
                   (Some "_age_default_varname_delete_clause", 2, false)]).
  { do 2 eexists. split; vm_compute; reflexivity. }
  destruct Hrun as (Q & st' & Hrun & Hsig).
  destruct (proj1 (@update_clauses_keep_predecessor_columns age_headers
                     list_collaborators transform_cypher_clause
                     match_x_delete_x match_x demo_catalog top_cpstate
                     eq_refl eq_refl) delete_x Q st' Hrun)
    as (q & st1 & Hq & Hkeep).
  exists Q, st', q, st1.
  split; [exact Hrun|]. split; [exact Hq|]. split; [|exact Hsig].
  assert (Hlen : list_length (output_columns q) = 1).
  { assert (E : Some (list_length (output_columns q)) = Some 1);
      [|injection E as E; exact E].
    revert Hq.
    match goal with
    | |- ?run = _ -> _ =>
        let r := eval vm_compute in run in
        change run with r
    end.
    intros Hq. injection Hq as <- _. reflexivity. }
  rewrite Hlen in Hkeep. exact Hkeep.
Defined.

Lemma left_edge_mirrors_right_edge_witness :
  let call fn x := FuncCall ["ag_catalog"; fn] [x] in
  let a := Var 1 1 0 in
  let e := Var 2 1 0 in
  let b := Var 3 1 0 in
  make_path_join_quals demo_state
    [vertex_entity node_a a;
     edge_entity (bare_rel "e" CYPHER_REL_DIR_LEFT) e;
     vertex_entity node_b b]
  = OK [A_Expr AEXPR_OP "=" (call "age_end_id" e) (call "age_id" a);
        A_Expr AEXPR_OP "=" (call "age_start_id" e) (call "age_id" b)].
Proof.
  intros call a e b.
  exact (@left_edge_mirrors_right_edge age_headers list_collaborators
           demo_state node_a node_b (bare_rel "e" CYPHER_REL_DIR_LEFT)
           a b e eq_refl
           ltac:(vm_compute; repeat split; discriminate) eq_refl).
Defined.

Lemma vertex_only_path_has_no_join_quals_witness :
  make_path_join_quals demo_state [vertex_entity node_a (Var 1 1 0)] = OK [].
Proof.
  exact (@vertex_only_path_has_no_join_quals age_headers list_collaborators
           demo_state [vertex_entity node_a (Var 1 1 0)] eq_refl).
Defined.

(** MATCH (x) SET x += {} *)
Lemma map_merge_items_are_rejected_witness :
  exists e,
    transform_cypher_set transform_cypher_clause
      (after_match_x (self_set set_x_merge)) set_x_merge demo_state = ERROR e
    /\ sqlerrcode e = ERRCODE_FEATURE_NOT_SUPPORTED.
Proof.
  eexists. split.
  - eapply (@map_merge_items_are_rejected age_headers list_collaborators
              transform_cypher_clause (after_match_x (self_set set_x_merge))
              match_x set_x_merge _ demo_state _ _ eq_refl);
      [vm_compute; reflexivity | reflexivity | reflexivity].
  - reflexivity.
Defined.

(** MATCH (a) WITH 1 CREATE (a): [a] is registered and has no column. *)
Lemma missing_column_is_checked_by_delete_only_witness :
  exists tl st rel,
    expand_prev_clause transform_cypher_clause match_a_with_1 demo_state
    = OK (tl, st)
    /\ map resname tl = [Some "?column?"]
    /\ transform_create_cypher_node st tl node_a = OK (rel, node_a, tl, st)
    /\ tn_tuple_position rel = -1.
Proof.
  do 2 eexists.
  match goal with
  | |- exists rel, ?run = OK _ /\ _ =>
      let r := eval vm_compute in run in
      match r with
      | OK (?tl0, (?cat, ?cp)) =>
          edestruct (fun ent Hfind Htype =>
                       @missing_column_is_checked_by_delete_only age_headers
                         list_collaborators cat cp tl0 node_a "a" ent
                         eq_refl eq_refl eq_refl Hfind Htype)
            as (_ & _ & rel & Hrun & _ & Hpos);
          [vm_compute; reflexivity | reflexivity | | exists rel]
      end
  end.
  - repeat constructor. eexists. split; [reflexivity|discriminate].
  - split; [vm_compute; reflexivity|]. split; [reflexivity|].
    split; [exact Hrun|exact Hpos].
Defined.

(** MATCH (a:Nowhere), MATCH (a:KNOWS), MATCH ()-[e:Person]->() and a
    variable length edge. *)
Lemma match_labels_are_checked_witness :
  transform_cypher_node demo_state nowhere_a [] false
  = ERROR (unknown_label_error "Nowhere" 7)
  /\ transform_cypher_node demo_state knows_a [] true
     = ERROR (label_kind_error "KNOWS" LABEL_KIND_EDGE 7)
  /\ transform_cypher_edge demo_state person_e []
     = ERROR (label_kind_error "Person" LABEL_KIND_VERTEX 9)
  /\ transform_cypher_edge demo_state varlen_e [] = ERROR (varlen_error 9).
Proof.
  destruct (@match_labels_are_checked age_headers list_collaborators
              demo_catalog top_cpstate []) as (Hnode & Hvarlen & Hedge).
  split; [|split; [|split]].
  - exact (proj1 (Hnode nowhere_a "Nowhere" false eq_refl) eq_refl).
  - exact (proj2 (Hnode knows_a "KNOWS" true eq_refl) _ eq_refl eq_refl).
  - exact (proj2 (Hedge person_e "Person" eq_refl eq_refl) _ eq_refl eq_refl).
  - apply Hvarlen. discriminate.
Defined.

(** WHERE (a): [a] is not bound. *)
Lemma where_cannot_declare_variables_witness :
  exists e,
    transform_cypher_node (demo_catalog, where_cpstate) node_a [] true = ERROR e
    /\ message e = "variable `a` does not exist".
Proof.
  eexists. split.
  - apply (@where_cannot_declare_variables age_headers list_collaborators
             demo_catalog where_cpstate [] "a" eq_refl
             (conj eq_refl eq_refl)); [reflexivity|exact I].
  - reflexivity.
Defined.

(** MATCH (a)-[e1]->(b)-[e2]->(c) on an empty target list. *)
Lemma match_pattern_only_adds_witness :
  exists quals tl st,
    transform_match_pattern_loop demo_state [] [two_right_hops] []
    = OK (quals, tl, st)
    /\ appends_columns demo_state [] st tl
    /\ map resno tl = [1; 2; 3; 4; 5].
Proof.
  do 3 eexists. split; [vm_compute; reflexivity|].
  split; [|reflexivity].
  refine (proj1 (@match_pattern_only_adds age_headers list_collaborators
                   [two_right_hops] demo_state [] [] _ _ _ _)).
  vm_compute. reflexivity.
Defined.

(** MATCH (x) MATCH (y) *)
Lemma match_keeps_predecessor_columns_witness :
  exists Q st',
    transform_cypher_match_pattern transform_cypher_clause match_y
      match_x_match_y demo_state = OK (Q, st')
    /\ map column_signature (targetList Q)
       = [(Some "x", 1, false); (Some "y", 2, false)]
    /\ numbered_columns 1 (targetList Q).
Proof.
  assert (Hrun : exists Q st',
             transform_cypher_match_pattern transform_cypher_clause match_y
               match_x_match_y demo_state = OK (Q, st')
             /\ map column_signature (targetList Q)
                = [(Some "x", 1, false); (Some "y", 2, false)]).
  { do 2 eexists. split; vm_compute; reflexivity. }
  destruct Hrun as (Q & st' & Hrun & Hsig).
  exists Q, st'. split; [exact Hrun|]. split; [exact Hsig|].
  destruct (@match_keeps_predecessor_columns age_headers list_collaborators
              transform_cypher_clause match_y match_x_match_y match_x
              demo_catalog top_cpstate Q st' eq_refl eq_refl Hrun)
    as (q & st1 & names & more & _ & _ & _ & Hnum & _).
  exact Hnum.
Defined.

(** MATCH (a)-[e1]->(b)-[e2]->(c) *)
Lemma match_registers_its_entities_witness :
  exists ents tl st,
    transform_match_entities demo_state [] two_right_hops = OK (ents, tl, st)
    /\ entities (snd st) = ents
    /\ map ent_type ents = [ENT_VERTEX; ENT_EDGE; ENT_VERTEX; ENT_EDGE; ENT_VERTEX].
Proof.
  do 3 eexists. split; [vm_compute; reflexivity|].
  split; [|reflexivity].
  refine (proj1 (@match_registers_its_entities age_headers list_collaborators
                   demo_state [] two_right_hops _ _ _ _)).
  vm_compute. reflexivity.
Defined.

(** (a)-[e1]->()-[e2]->(c) *)
Lemma omitted_vertex_joins_its_edges_witness :
  let call fn x := FuncCall ["ag_catalog"; fn] [x] in
  let a := Var 1 1 0 in
  let e1 := Var 2 1 0 in
  let e2 := Var 3 1 0 in
  let c := Var 4 1 0 in
  make_path_join_quals demo_state
    [vertex_entity node_a a;
     edge_entity (bare_rel "e1" CYPHER_REL_DIR_RIGHT) e1;
     omitted_vertex anonymous_node;
     edge_entity (bare_rel "e2" CYPHER_REL_DIR_RIGHT) e2;
     vertex_entity node_c c]
  = OK [A_Expr AEXPR_OP "=" (call "age_start_id" e1) (call "age_id" a);
        A_Expr AEXPR_OP "=" (call "age_start_id" e2) (call "age_end_id" e1);
        A_Expr AEXPR_OP "=" (call "age_end_id" e2) (call "age_id" c)].
Proof.
  intros call a e1 e2 c.
  exact (proj1 (@omitted_vertex_joins_its_edges age_headers list_collaborators
                  demo_state node_a anonymous_node node_c
                  (bare_rel "e1" CYPHER_REL_DIR_RIGHT)
                  (bare_rel "e2" CYPHER_REL_DIR_RIGHT)
                  a c e1 e2
                  eq_refl ltac:(vm_compute; repeat split; discriminate)
                  eq_refl eq_refl (or_introl eq_refl))).
Defined.

(** (a)-[e]->(:Person) and (a)-[e]->(:Person)-[e2]->(c) *)
Lemma omitted_vertex_label_becomes_filter_witness :
  let call fn x := FuncCall ["ag_catalog"; fn] [x] in
  let is_person x :=
    A_Expr AEXPR_OP "="
      (call "_extract_label_id" (call "agtype_to_graphid" x))
      (A_Const_Integer 3) in
  let a := Var 1 1 0 in
  let e := Var 2 1 0 in
  let e2 := Var 3 1 0 in
  let c := Var 4 1 0 in
  make_path_join_quals demo_state
    [vertex_entity node_a a;
     edge_entity (bare_rel "e" CYPHER_REL_DIR_RIGHT) e;
     omitted_vertex anonymous_person]
  = OK [A_Expr AEXPR_OP "=" (call "age_start_id" e) (call "age_id" a);
        is_person (call "age_end_id" e)]
  /\ make_path_join_quals demo_state
       [vertex_entity node_a a;
        edge_entity (bare_rel "e" CYPHER_REL_DIR_RIGHT) e;
        omitted_vertex anonymous_person;
        edge_entity (bare_rel "e2" CYPHER_REL_DIR_RIGHT) e2;
        vertex_entity node_c c]
     = OK [A_Expr AEXPR_OP "=" (call "age_start_id" e) (call "age_id" a);
           A_Expr AEXPR_OP "=" (call "age_start_id" e2) (call "age_end_id" e);
           A_Expr AEXPR_OP "=" (call "age_end_id" e2) (call "age_id" c);
           is_person (call "age_start_id" e2)].
Proof.
  intros call is_person a e e2 c.
  assert (Hne : "Person" <> @AG_DEFAULT_LABEL_VERTEX age_headers)
    by (vm_compute; discriminate).
  destruct (@omitted_vertex_label_becomes_filter age_headers
              list_collaborators demo_state node_a anonymous_person node_c
              (bare_rel "e" CYPHER_REL_DIR_RIGHT)
              (bare_rel "e2" CYPHER_REL_DIR_RIGHT) a e e2 c
              "Person" (mk_label_cache_data 3 LABEL_KIND_VERTEX 16387)
              eq_refl ltac:(vm_compute; repeat split; discriminate)
              eq_refl eq_refl eq_refl Hne eq_refl)
    as (Hend & _ & Hinner).
  split; [exact Hend|exact Hinner].
Defined.

(** MATCH (x) WHERE x *)
Lemma where_wraps_the_clause_witness :
  exists Q st',
    transform_cypher_clause match_x_where_x demo_state = OK (Q, st')
    /\ map column_signature (targetList Q) = [(Some "x", 1, false)]
    /\ jointree Q = Some (makeFromExpr [RangeTblRef 1] (Some (Var 1 1 0)))
    /\ exists q, keeps_columns q Q 1 [].
Proof.
  pose (transform :=
          transform_cypher_match_pattern transform_cypher_clause
            (mk_cypher_match [unnamed [elem_node (bare_node "x")]]
               (Some (var_ref "x")))).
  assert (Hrt : p_rtable top_cpstate = []) by reflexivity.
  match eval vm_compute in (transform_cypher_clause match_x_where_x demo_state)
  with
  | OK (?Q, ?st') =>
      assert (Hrun : transform_cypher_clause_with_where transform
                match_x_where_x (Some (var_ref "x")) (demo_catalog, top_cpstate)
              = OK (Q, st')) by (vm_compute; reflexivity);
      exists Q, st'
  end.
  split; [vm_compute; reflexivity|].
  split; [vm_compute; reflexivity|].
  split; [vm_compute; reflexivity|].
  destruct (@where_wraps_the_clause list_collaborators transform
              match_x_where_x (var_ref "x") demo_catalog top_cpstate _ _
              Hrt Hrun)
    as (q & child & names & e & qual & _ & _ & _ & Hkeep & _).
  exists q. exact Hkeep.
Defined.

(** MATCH (x) CREATE ()-[x:KNOWS]->() is rejected for its variable. In
    CREATE ()-[e:KNOWS]->(), ()-[e]-() the second edge passes the check
    of its variable, although [e] is registered and has a column, and is
    rejected for its direction; written as -[e:KNOWS]-> it compiles and
    adds a second column [e]. *)
Lemma create_edge_is_checked_in_order_witness :
  (exists tl st,
      expand_prev_clause transform_cypher_clause match_x demo_state
      = OK (tl, st)
      /\ transform_create_cypher_edge st tl
           (mk_cypher_relationship (Some "x") (Some "KNOWS") None None
              CYPHER_REL_DIR_RIGHT 0)
         = ERROR (mkErrorData ERRCODE_FEATURE_NOT_SUPPORTED
                    "variable x already exists" None None))
  /\ (exists created tl st rel tl' st',
         transform_cypher_create_path demo_state []
           (unnamed [elem_node anonymous_node; elem_rel knows_e;
                     elem_node anonymous_node])
         = OK (created, tl, st)
         /\ option_map ent_type (find_variable (snd st) "e") = Some ENT_EDGE
         /\ transform_create_cypher_edge st tl undirected_e
            = ERROR (undirected_create_error 0)
         /\ transform_create_cypher_edge st tl knows_e = OK (rel, tl', st')
         /\ map resname tl'
            = [Some "_age_default_alias_0"; Some "e";
               Some "_age_default_alias_1"; Some "_age_default_alias_2";
               Some "e"; Some "_age_default_alias_3"]).
Proof.
  split.
  - match eval vm_compute in
          (expand_prev_clause transform_cypher_clause match_x demo_state)
    with
    | OK (?tl, (?cat, ?cp)) =>
        exists tl, (cat, cp); split; [vm_compute; reflexivity|];
        refine (proj1 (@create_edge_is_checked_in_order age_headers
                         list_collaborators cat cp tl
                         (mk_cypher_relationship (Some "x") (Some "KNOWS")
                            None None CYPHER_REL_DIR_RIGHT 0))
                  "x" eq_refl _);
        exists ["x"]; split; vm_compute; reflexivity
    end.
  - match eval vm_compute in
          (transform_cypher_create_path demo_state []
             (unnamed [elem_node anonymous_node; elem_rel knows_e;
                       elem_node anonymous_node]))
    with
    | OK (?created, ?tl, (?cat, ?cp)) =>
        exists created, tl, (cat, cp);
        assert (Hfresh : no_predecessor_column cp
                           (Some "e"))
          by (intros n cols _ Hcols; vm_compute in Hcols; discriminate Hcols);
        pose proof (proj1 (proj2 (@create_edge_is_checked_in_order age_headers
                                    list_collaborators cat cp tl undirected_e)
                             Hfresh) eq_refl) as Hdir
    end.
    do 3 eexists. split; [vm_compute; reflexivity|].
    split; [vm_compute; reflexivity|].
    split; [exact Hdir|].
    split; [vm_compute; reflexivity|]. vm_compute. reflexivity.
Defined.


(** MATCH (x) CREATE (x)-[e:KNOWS]->(b) *)
Lemma create_keeps_predecessor_columns_witness :
  exists Q st',
    transform_cypher_create transform_cypher_clause match_x_create
      create_x_knows_b demo_state = OK (Q, st')
    /\ map resname (targetList Q)
       = [Some "x"; Some "_age_default_varname_create_null_value"; Some "e";
          Some "_age_default_alias_0"; Some "_age_default_alias_1"; Some "b";
          Some "_age_default_varname_create_clause"]
    /\ numbered_signatures 1 (map column_signature (targetList Q)).
Proof.
  assert (Hrun : exists Q st',
             transform_cypher_create transform_cypher_clause match_x_create
               create_x_knows_b demo_state = OK (Q, st')
             /\ map resname (targetList Q)
                = [Some "x"; Some "_age_default_varname_create_null_value";
                   Some "e"; Some "_age_default_alias_0";
                   Some "_age_default_alias_1"; Some "b";
                   Some "_age_default_varname_create_clause"]).
  { do 2 eexists. split; vm_compute; reflexivity. }
  destruct Hrun as (Q & st' & Hrun & Hnames).
  exists Q, st'. split; [exact Hrun|]. split; [exact Hnames|].
  destruct (@create_keeps_predecessor_columns age_headers list_collaborators
              transform_cypher_clause match_x_create match_x create_x_knows_b
              demo_catalog top_cpstate Q st' eq_refl eq_refl Hrun)
    as (q & st1 & middle & _ & _ & Hnum).
  exact Hnum.
Defined.

(** MATCH (a) as the predecessor of a clause compiled in [demo_state]. *)
Lemma entities_pass_to_the_next_clause_witness :
  exists q st',
    analyze_cypher_clause transform_cypher_clause match_a demo_state
    = OK (q, st')
    /\ option_map declared_in_current_clause (find_variable (snd st') "a")
       = Some false
    /\ option_map ent_type (find_variable (snd st') "a") = Some ENT_VERTEX.
Proof.
  match eval vm_compute in
        (analyze_cypher_clause transform_cypher_clause match_a demo_state)
  with
  | OK (?q, (?cat, ?ps)) =>
      assert (Hrun : analyze_cypher_clause transform_cypher_clause match_a
                       (demo_catalog, top_cpstate) = OK (q, (cat, ps)))
        by (vm_compute; reflexivity);
      exists q, (cat, ps)
  end.
  split; [exact Hrun|].
  destruct (@entities_pass_to_the_next_clause list_collaborators
              transform_cypher_clause match_a demo_catalog top_cpstate _ _
              Hrun) as (child & Hchild & _ & _ & Hfind).
  rewrite (Hfind "a").
  match eval vm_compute in
        (transform_cypher_clause match_a
           (demo_catalog, nested_scope top_cpstate))
  with
  | OK (?q2, (?cat2, ?c)) =>
      assert (Hc : child = c);
      [ assert (E : transform_cypher_clause match_a
                      (demo_catalog, nested_scope top_cpstate)
                    = OK (q2, (cat2, c))) by (vm_compute; reflexivity);
        pose proof (eq_trans (eq_sym E) Hchild) as E2; congruence
      | rewrite Hc ]
  end.
  split; vm_compute; reflexivity.
Defined.

Lemma lookups_do_not_disturb_each_other_witness :
  let tl := carried_columns ["a"; "b"] 1 0 1 in
  exists tl',
    get_target_entry_resno tl (Some "b") = OK (2, tl')
    /\ lookup_position tl' (Some "b") = OK 2
    /\ lookup_position tl' (Some "a") = OK 1.
Proof.
  eexists. split; [reflexivity|].
  destruct (@lookups_do_not_disturb_each_other
              (carried_columns ["a"; "b"] 1 0 1) (Some "b") 2 _ eq_refl)
    as (_ & Hother & Hsame & _).
  split; [exact Hsame|]. rewrite (Hother (Some "a")). reflexivity.
Defined.

End Examples.
